(** * Sheet-to-store sync: a shallow embedding of scripts/sync-google-sheet.js

    The development follows the script top to bottom: the retry wrapper
    around fetch, the CSV parser, header resolution, row normalisation,
    validation, the attendance derivation, the batched upsert, the hard-sync
    deletion and the orchestrating loop of syncGoogleSheet.

    Conventions of the embedding.
    - A JS string is a [string]: a sequence of code units, each read as the
      character with that code in U+0000..U+00FF.  Text outside that range is
      not covered.
    - A JS number is a [jsnum]: NaN, the two infinities, or a finite
      binary64 number, kept as the rational it is.  Every sum, product and
      quotient and every numeric literal is rounded to the nearest binary64
      number, a tie going to the even one, and overflows to an infinity, as
      IEEE 754 has it.  The two zeros are one: the script compares numbers,
      tests their truthiness and finiteness and divides by a sum only when
      it is positive, and none of these tells -0 from 0.
    - A JS object built by the script is a finite map from property names
      to values; a missing key is the property being [undefined]. *)

From Stdlib Require Import Ascii String QArith Qround Qabs Qpower Lqa.
From stdpp Require Import gmap strings list fin_maps pretty.
From Equations Require Import Equations.

Local Open Scope string_scope.

(** ** Characters and the string built-ins the script uses *)

Module Js.

Definition dquote : ascii := ascii_of_nat 34.
Definition comma : ascii := ","%char.
Definition LF : ascii := "010"%char.
Definition CR : ascii := "013"%char.
Definition space : ascii := " "%char.

(** White space and line terminators of ECMAScript ([\s], and what
    [String.prototype.trim] strips) among the code units below 256:
    TAB, LF, VT, FF, CR, SPACE and NBSP. *)
Definition is_ws (c : ascii) : bool :=
  let n := nat_of_ascii c in
  ((9 <=? n)%nat && (n <=? 13)%nat) || (n =? 32)%nat || (n =? 160)%nat.

(** [s.length > 0] *)
Definition nonempty (s : string) : bool :=
  match s with EmptyString => false | String _ _ => true end.

Fixpoint trimStart (s : string) : string :=
  match s with
  | EmptyString => EmptyString
  | String c s' => if is_ws c then trimStart s' else s
  end.

Fixpoint trimEnd (s : string) : string :=
  match s with
  | EmptyString => EmptyString
  | String c s' =>
      let t := trimEnd s' in
      if is_ws c && negb (nonempty t) then EmptyString else String c t
  end.

(** [s.trim()] *)
Definition trim (s : string) : string := trimEnd (trimStart s).

(** [s.toLowerCase()] on code units below 256: A-Z, and the Latin-1 capitals
    U+00C0..U+00DE without the multiplication sign U+00D7. *)
Definition lower_char (c : ascii) : ascii :=
  let n := nat_of_ascii c in
  if ((65 <=? n)%nat && (n <=? 90)%nat)
     || ((192 <=? n)%nat && (n <=? 222)%nat && negb (n =? 215)%nat)
  then ascii_of_nat (n + 32) else c.

Fixpoint map_chars (f : ascii -> ascii) (s : string) : string :=
  match s with
  | EmptyString => EmptyString
  | String c s' => String (f c) (map_chars f s')
  end.

Definition toLowerCase (s : string) : string := map_chars lower_char s.

(** [s.replace(/\s+/g, r)]: every maximal run of white space becomes one
    [r].  [in_run] tells that the previous code unit was white space. *)
Fixpoint replace_ws_runs (r : ascii) (in_run : bool) (s : string) : string :=
  match s with
  | EmptyString => EmptyString
  | String c s' =>
      if is_ws c
      then (if in_run then replace_ws_runs r true s'
            else String r (replace_ws_runs r true s'))
      else String c (replace_ws_runs r false s')
  end.

(** [s.replace(/\r\n/g, '\n')] *)
Fixpoint replace_crlf (s : string) : string :=
  match s with
  | EmptyString => EmptyString
  | String c s' =>
      match s' with
      | String c' s'' =>
          if Ascii.eqb c CR && Ascii.eqb c' LF
          then String LF (replace_crlf s'')
          else String c (replace_crlf s')
      | EmptyString => String c EmptyString
      end
  end.

(** [s.split(sep)] for a one-character separator; the empty string splits
    into one empty piece. *)
Fixpoint split (sep : ascii) (s : string) : list string :=
  match s with
  | EmptyString => [EmptyString]
  | String c s' =>
      if Ascii.eqb c sep then EmptyString :: split sep s'
      else match split sep s' with
           | piece :: pieces => String c piece :: pieces
           | [] => [String c EmptyString]
           end
  end.

(** [s += c] *)
Definition push_char (s : string) (c : ascii) : string :=
  s +:+ String c EmptyString.

End Js.

(** ** The retry wrapper around fetch *)

Module Retry.

Record response : Type := mkResponse {
  status : nat;
  statusText : string;
  body : string
}.

(** [res.ok]: the status is in the range 200-299. *)
Definition ok (res : response) : bool :=
  (200 <=? status res)%nat && (status res <=? 299)%nat.

(** What a [catch] of fetchWithRetry can hold: the rejection of [fetch], or
    the Error thrown for a response that is not ok. *)
Inductive error : Type :=
  | NetworkError (message : string)
  | HttpError (status : nat) (statusText : string).

(** How one call of [fetch] ends. *)
Inductive reply : Type :=
  | Resolves (res : response)
  | Rejects (message : string).

(** What the wrapper does that can be seen from outside. *)
Inductive action : Type :=
  | Fetch
  | Sleep (ms : nat).

(** How the wrapper ends.  [ReturnsUndefined] is the fall out of the
    [while] loop when [maxRetries] is 0. *)
Inductive ending : Type :=
  | Returns (res : response)
  | Throws (e : error)
  | ReturnsUndefined.

(** The body of [try]: the fetch, then the throw on a response that is not
    ok. *)
Definition try_fetch (r : reply) : response + error :=
  match r with
  | Resolves res =>
      if ok res then inl res else inr (HttpError (status res) (statusText res))
  | Rejects message => inr (NetworkError message)
  end.

Section Wrapper.
(** The remote end: the reply to the n-th call of [fetch], n from 0. *)
Variable server : nat -> reply.
Variables maxRetries backoffMs : nat.

(** The [while] loop of fetchWithRetry.  [attempt] counts the failures so
    far, which is also the number of calls made; [trace] is what was done
    so far. *)
Equations? retry (attempt : nat) (trace : list action) : ending * list action
  by wf (maxRetries - attempt) lt :=
retry attempt trace with decide (attempt < maxRetries) := {
  | right _ => (ReturnsUndefined, trace)
  | left _ with try_fetch (server attempt) := {
      | inl res => (Returns res, (trace ++ [Fetch])%list)
      | inr err with decide (maxRetries <= S attempt) := {
          | left _ => (Throws err, (trace ++ [Fetch])%list)
          | right _ =>
              retry (S attempt)
                    (trace ++ [Fetch; Sleep (backoffMs * S attempt)])%list
        }
    }
}.
Proof. lia. Qed.

End Wrapper.

(** fetchWithRetry with its default arguments, as every caller has it. *)
Definition fetchWithRetry (server : nat -> reply) : ending * list action :=
  retry server 3 500 0 [].

End Retry.

(** ** CSV parsing *)

Module Csv.
Import Js.

(** The body of the [for] loop of parseCSV over one line, as a scan of the
    part of the line not read yet.  The look-ahead [line[i + 1]] is the head
    of the rest, and [i++] in the first branch skips it. *)
Fixpoint scan (line : string) (current : string) (inQuotes : bool)
    (result : list string) : list string :=
  match line with
  | EmptyString => result ++ [current]
  | String char rest =>
      match rest with
      | String next rest' =>
          if Ascii.eqb char dquote && Ascii.eqb next dquote
          then scan rest' (push_char current dquote) inQuotes result
          else if Ascii.eqb char dquote
          then scan rest current (negb inQuotes) result
          else if Ascii.eqb char comma && negb inQuotes
          then scan rest EmptyString inQuotes (result ++ [current])
          else scan rest (push_char current char) inQuotes result
      | EmptyString =>
          if Ascii.eqb char dquote
          then scan rest current (negb inQuotes) result
          else if Ascii.eqb char comma && negb inQuotes
          then scan rest EmptyString inQuotes (result ++ [current])
          else scan rest (push_char current char) inQuotes result
      end
  end.

Definition parseLine (line : string) : list string :=
  scan line EmptyString false [].

(** The lines kept by parseCSV: line ends normalised to LF, split, and the
    lines of length 0 filtered out. *)
Definition lines (csvText : string) : list string :=
  filter (fun l => nonempty l = true)
         (split LF (map_chars (fun c => if Ascii.eqb c CR then LF else c)
                              (replace_crlf csvText))).

Record parsed := mkParsed { headers : list string; rows : list (list string) }.

(** parseCSV.  With no line left, [rows[0]] is undefined and [rows[0].map]
    throws a TypeError: [None]. *)
Definition parseCSV (csvText : string) : option parsed :=
  match map parseLine (lines csvText) with
  | [] => None
  | first :: dataRows => Some (mkParsed (map trim first) dataRows)
  end.

End Csv.

(** ** Numbers *)

Module Num.
Import Js.

(** A JS number.  [Inf true] is -Infinity.  A finite number is the rational
    value of a binary64 number; -0 and 0 are one zero. *)
Inductive jsnum : Type :=
  | Fin (q : Q)
  | NaN
  | Inf (negative : bool).

(** Finite results are kept in lowest terms, so that equal numbers are equal
    terms. *)
Definition fin (q : Q) : jsnum := Fin (Qred q).

Definition zero : jsnum := Fin 0.
Definition hundred : jsnum := Fin 100.

Definition Qneg (q : Q) : bool := if Qlt_le_dec q 0 then true else false.
Definition Qzero (q : Q) : bool := Qeq_bool q 0.

(** ToBoolean on a number: 0 and NaN are falsy. *)
Definition truthy (n : jsnum) : bool :=
  match n with
  | Fin q => negb (Qzero q)
  | NaN => false
  | Inf _ => true
  end.

(** [Number.isFinite(n)] *)
Definition isFinite (n : jsnum) : bool :=
  match n with Fin _ => true | _ => false end.

(** *** Rounding to binary64 *)

(** 2^k *)
Definition pow2 (k : Z) : Q := Qpower 2 k.

(** The binary exponent of a positive [q]: 2^e <= q < 2^(e+1). *)
Definition ilog2 (q : Q) : Z :=
  let k := (Z.log2 (Qnum q) - Z.log2 (Zpos (Qden q)))%Z in
  if Qle_bool (pow2 k) q then k else (k - 1)%Z.

(** The nearest integer, a tie going to the even one. *)
Definition rne (x : Q) : Z :=
  let f := Qfloor x in
  match Qcompare (x - inject_Z f) (1 # 2) with
  | Lt => f
  | Gt => (f + 1)%Z
  | Eq => if Z.even f then f else (f + 1)%Z
  end.

(** The exponent of the spacing of the binary64 numbers around a positive
    [q]: 53 significant bits, and 2^-1074 throughout the subnormal range. *)
Definition quantum (q : Q) : Z := Z.max (ilog2 q - 52) (-1074).

(** The multiple of that spacing nearest to [a], for [a] not negative. *)
Definition nearest (a : Q) : Q :=
  (inject_Z (rne (a / pow2 (quantum a))) * pow2 (quantum a))%Q.

(** The binary64 number an exact result becomes: round to nearest, ties to
    even; from 2^1024 - 2^970 on, an infinity. *)
Definition binary64 (q : Q) : jsnum :=
  let r := nearest (Qabs (Qred q)) in
  if Qle_bool (pow2 1024) r then Inf (Qneg q)
  else fin (if Qneg q then (- r)%Q else r).

(** [a + b] *)
Definition add (a b : jsnum) : jsnum :=
  match a, b with
  | Fin x, Fin y => binary64 (x + y)%Q
  | NaN, _ | _, NaN => NaN
  | Inf s, Inf s' => if Bool.eqb s s' then Inf s else NaN
  | Inf s, Fin _ | Fin _, Inf s => Inf s
  end.

(** [a * b] *)
Definition mul (a b : jsnum) : jsnum :=
  match a, b with
  | Fin x, Fin y => binary64 (x * y)%Q
  | NaN, _ | _, NaN => NaN
  | Inf s, Inf s' => Inf (xorb s s')
  | Inf s, Fin y | Fin y, Inf s => if Qzero y then NaN else Inf (xorb s (Qneg y))
  end.

(** [a / b] *)
Definition div (a b : jsnum) : jsnum :=
  match a, b with
  | Fin x, Fin y =>
      if Qzero y then (if Qzero x then NaN else Inf (Qneg x))
      else binary64 (x / y)%Q
  | NaN, _ | _, NaN => NaN
  | Inf _, Inf _ => NaN
  | Inf s, Fin y => Inf (xorb s (Qneg y))
  | Fin _, Inf _ => zero
  end.

(** [a > b]; false as soon as one side is NaN. *)
Definition gt (a b : jsnum) : bool :=
  match a, b with
  | Fin x, Fin y => if Qlt_le_dec y x then true else false
  | NaN, _ | _, NaN => false
  | Inf s, Inf s' => negb s && s'
  | Inf s, Fin _ => negb s
  | Fin _, Inf s => s
  end.

(** [Math.round(n)]: the nearest integer, a tie going up. *)
Definition round (n : jsnum) : jsnum :=
  match n with
  | Fin x => fin (inject_Z (Qfloor (x + (1 # 2))%Q))
  | _ => n
  end.

(** *** Number(s) on a string *)

Definition digit (base : Z) (c : ascii) : option Z :=
  let n := Z.of_nat (nat_of_ascii c) in
  let v := if (48 <=? n)%Z && (n <=? 57)%Z then (n - 48)%Z
           else if (97 <=? n)%Z && (n <=? 102)%Z then (n - 87)%Z
           else if (65 <=? n)%Z && (n <=? 70)%Z then (n - 55)%Z
           else 99%Z in
  if (v <? base)%Z then Some v else None.

(** Reads the digits at the head of [s]: their value on top of [acc], how
    many they are on top of [count], and what follows them. *)
Fixpoint take_digits (base : Z) (s : string) (acc : Z) (count : nat)
    : Z * nat * string :=
  match s with
  | EmptyString => (acc, count, s)
  | String c s' =>
      match digit base c with
      | Some d => take_digits base s' (acc * base + d)%Z (S count)
      | None => (acc, count, s)
      end
  end.

Definition is_char (c : ascii) (a b : ascii) : bool :=
  Ascii.eqb c a || Ascii.eqb c b.

(** ExponentPart, or nothing, up to the end of the string. *)
Definition exponent (s : string) : option Z :=
  match s with
  | EmptyString => Some 0%Z
  | String e r =>
      if is_char e "e" "E" then
        let '(negative, r') :=
          match r with
          | String sg r'' =>
              if Ascii.eqb sg "-" then (true, r'')
              else if Ascii.eqb sg "+" then (false, r'')
              else (false, r)
          | EmptyString => (false, r)
          end in
        match take_digits 10 r' 0 0 with
        | (_, O, _) => None
        | (v, _, EmptyString) => Some (if negative then (- v)%Z else v)
        | _ => None
        end
      else None
  end.

(** StrUnsignedDecimalLiteral without Infinity. *)
Definition unsigned_decimal (s : string) : option Q :=
  let '(ip, ni, s1) := take_digits 10 s 0 0 in
  let '(fp, nf, s2) :=
    match s1 with
    | String dot r => if Ascii.eqb dot "." then take_digits 10 r 0 0 else (0%Z, O, s1)
    | EmptyString => (0%Z, O, s1)
    end in
  if (ni + nf =? 0)%nat then None
  else match exponent s2 with
       | Some e =>
           Some ((inject_Z ip + inject_Z fp / inject_Z (10 ^ Z.of_nat nf))
                 * Qpower 10 e)%Q
       | None => None
       end.

(** 0x, 0o and 0b literals. *)
Definition non_decimal (s : string) : option Q :=
  match s with
  | String z (String p r) =>
      if Ascii.eqb z "0" then
        let base := if is_char p "x" "X" then 16%Z
                    else if is_char p "o" "O" then 8%Z
                    else if is_char p "b" "B" then 2%Z else 0%Z in
        if (base =? 0)%Z then None
        else match take_digits base r 0 0 with
             | (_, O, _) => None
             | (v, _, EmptyString) => Some (inject_Z v)
             | _ => None
             end
      else None
  | _ => None
  end.

(** The Number value of the mathematical value of a literal. *)
Definition of_decimal (q : Q) : jsnum := binary64 q.

(** [Number(s)] (StringToNumber): white space around the literal is
    dropped, the empty string is 0, anything that is not a numeric literal
    is NaN. *)
Definition Number (s : string) : jsnum :=
  let t := trim s in
  match t with
  | EmptyString => zero
  | String c r =>
      match non_decimal t with
      | Some q => of_decimal q
      | None =>
          let '(negative, u) :=
            if Ascii.eqb c "-" then (true, r)
            else if Ascii.eqb c "+" then (false, r)
            else (false, t) in
          if String.eqb u "Infinity" then Inf negative
          else match unsigned_decimal u with
               | Some q => of_decimal (if negative then (- q)%Q else q)
               | None => NaN
               end
      end
  end.

End Num.

(** ** Header resolution *)

Module Header.
Import Js Num.

Definition normalizeHeaderForMap (key : string) : string :=
  trim (replace_ws_runs space false
          (map_chars (fun c => if is_char c "_" "-" then space else c)
                     (toLowerCase key))).

(** The own properties of the object literal HEADER_MAP. *)
Definition HEADER_MAP : gmap string string :=
  list_to_map
    [ ("register no", "register_no"); ("register_no", "register_no");
      ("reg no", "register_no"); ("registration number", "register_no");
      ("name", "name"); ("father name", "father_name");
      ("mother name", "mother_name"); ("address", "address");
      ("class", "class"); ("year", "year"); ("department", "department");
      ("cia-1 mark", "cia_1_mark"); ("cia 1 mark", "cia_1_mark");
      ("cia1", "cia_1_mark");
      ("cia-2 mark", "cia_2_mark"); ("cia 2 mark", "cia_2_mark");
      ("cia2", "cia_2_mark");
      ("present to class (today)", "present_today");
      ("present today", "present_today");
      ("leave taken", "leave_taken");
      ("email", "email"); ("mail", "email");
      ("phone number", "phone_number"); ("phone", "phone_number");
      ("mobile", "phone_number") ].

(** What the function [Object] turns into when it is used as a property
    key. *)
Definition Object_as_key : string := "function Object() { [native code] }".

(** [HEADER_MAP[norm] || norm.replace(/\s+/g, '_')], as the property key it
    is in [index[mapped] = i].

    Every own value of HEADER_MAP is a non-empty string, so [||] keeps it.
    HEADER_MAP is an object literal: a read of a name it does not own goes
    on to Object.prototype.  Of the names found there, [constructor] is the
    only one in lower case and free of underscores, so the only one a
    normalised label can spell; the read gives the function [Object], which
    is truthy, and the fallback is not taken. *)
Definition mapped (norm : string) : string :=
  match HEADER_MAP !! norm with
  | Some canonical => canonical
  | None =>
      if String.eqb norm "constructor" then Object_as_key
      else replace_ws_runs "_" false norm
  end.

(** The [forEach] of buildHeaderIndex from column [i] on. *)
Fixpoint build (headers : list string) (i : nat) (index : gmap string nat)
    : gmap string nat :=
  match headers with
  | [] => index
  | h :: hs => build hs (S i) (<[mapped (normalizeHeaderForMap h) := i]> index)
  end.

Definition buildHeaderIndex (headers : list string) : gmap string nat :=
  build headers 0 ∅.

End Header.

(** ** Student objects *)

Module Student.
Import Js Num.

(** A numeric property that is there: [null] or a number. *)
Inductive numval : Type :=
  | Null
  | Num (n : jsnum).

(** The objects mapRowToStudent builds and the sync passes on.  Each
    property is a string or a number-or-null, never both, so the object is
    kept as its string-valued and its numeric properties.  A key in neither
    map is a property that is [undefined]. *)
Record student : Type := mkStudent {
  text : gmap string string;
  nums : gmap string numval
}.

(** The property [k] is left out of the object. *)
Definition omits (o : student) (k : string) : Prop :=
  text o !! k = None ∧ nums o !! k = None.

(** [o.k], falsy-as-empty: the string, or the empty string when missing. *)
Definition str (o : student) (k : string) : string :=
  default EmptyString (text o !! k).

(** [delete o.k] *)
Definition delete_prop (k : string) (o : student) : student :=
  mkStudent (delete k (text o)) (delete k (nums o)).

(** [o.k = n] for a number *)
Definition set_num (k : string) (n : jsnum) (o : student) : student :=
  mkStudent (text o) (<[k := Num n]> (nums o)).

Definition academic_fields : list string :=
  [ "cia_1_mark"; "cia_2_mark"; "present_today"; "leave_taken" ].

End Student.

(** ** Row normalisation and validation *)

Module Normalize.
Import Js Num Student.

Section Row.
Variable headerIndex : gmap string nat.
Variable row : list string.

Definition getStrOrEmpty (key : string) : string :=
  let val :=
    match headerIndex !! key with
    | Some idx => row !! idx
    | None => Some EmptyString
    end in
  let s := trim (default EmptyString val) in
  if nonempty s then s else EmptyString.

Definition getNumOrNull (key : string) : numval :=
  match headerIndex !! key with
  | None => Null
  | Some idx =>
      match row !! idx with
      | None => Null
      | Some raw =>
          let s := trim raw in
          if nonempty s then
            let n := Number s in
            if isFinite n then Num n else Null
          else Null
      end
  end.

(** mapRowToStudent; the three console lines of the function are not part
    of the value. *)
Definition mapRowToStudent : student :=
  let register_no := getStrOrEmpty "register_no" in
  let name := getStrOrEmpty "name" in
  let father_name := getStrOrEmpty "father_name" in
  let mother_name := getStrOrEmpty "mother_name" in
  let address := getStrOrEmpty "address" in
  let className := getStrOrEmpty "class" in
  let department := getStrOrEmpty "department" in
  let year := getStrOrEmpty "year" in
  let cia_1_mark := getNumOrNull "cia_1_mark" in
  let cia_2_mark := getNumOrNull "cia_2_mark" in
  let present_today := getNumOrNull "present_today" in
  let leave_taken := getNumOrNull "leave_taken" in
  let email := getStrOrEmpty "email" in
  let phone_number := getStrOrEmpty "phone_number" in
  let profile_image_url := getStrOrEmpty "profile_image_url" in
  let department :=
    if negb (nonempty department) && nonempty className then className
    else department in
  mkStudent
    (<["register_no" := register_no]>
     (<["name" := name]>
     (<["father_name" := father_name]>
     (<["mother_name" := mother_name]>
     (<["address" := address]>
     (<["class" := className]>
     (<["year" := year]>
     (<["department" := department]>
     (<["email" := email]>
     (<["phone_number" := phone_number]>
     (<["profile_image_url" := profile_image_url]> ∅)))))))))))
    (<["cia_1_mark" := cia_1_mark]>
     (<["cia_2_mark" := cia_2_mark]>
     (<["present_today" := present_today]>
     (<["leave_taken" := leave_taken]> ∅)))).

End Row.

Definition validateStudent (row : student) : list string :=
  (if nonempty (str row "register_no") then [] else ["register_no missing"])
  ++ (if nonempty (str row "name") then [] else ["name missing"])
  ++ (if nonempty (str row "department") then [] else ["department missing"]).

End Normalize.

(** ** Attendance *)

Module Attendance.
Import Js Num Student.

(** [v || 0] on a numeric property *)
Definition orZero (v : option numval) : jsnum :=
  match v with
  | Some (Num n) => if truthy n then n else zero
  | _ => zero
  end.

(** ToNumber on a numeric property: [undefined] is NaN, [null] is 0. *)
Definition toNumber (v : option numval) : jsnum :=
  match v with
  | None => NaN
  | Some Null => zero
  | Some (Num n) => n
  end.

(** deriveAttendance reads two properties of its argument. *)
Definition deriveAttendance (row : gmap string numval) : jsnum :=
  let total := add (orZero (row !! "present_today")) (orZero (row !! "leave_taken")) in
  let percentage :=
    if gt total zero
    then mul (div (toNumber (row !! "present_today")) total) hundred
    else zero in
  if isFinite percentage then div (round (mul percentage hundred)) hundred
  else zero.

End Attendance.

(** ** The write payload and the row loop *)

Module Sync.
Import Js Num Student Normalize Attendance.

(** [v !== null]: true of a number and of [undefined]. *)
Definition notNull (v : option numval) : bool :=
  match v with
  | Some Null => false
  | _ => true
  end.

(** The expression both syncGoogleSheet and upsertStudents call
    hasAcademicData. *)
Definition hasAcademicData (s : student) : bool :=
  notNull (nums s !! "cia_1_mark")
  || notNull (nums s !! "cia_2_mark")
  || notNull (nums s !! "present_today")
  || notNull (nums s !! "leave_taken").

(** The five [delete] statements of the blank-academic branch. *)
Definition deleteAcademic (s : student) : student :=
  delete_prop "attendance_percentage"
    (delete_prop "leave_taken"
       (delete_prop "present_today"
          (delete_prop "cia_2_mark"
             (delete_prop "cia_1_mark" s)))).

(** [typeof payload.k === 'string' && payload.k.trim() === ''] then
    [delete payload.k] *)
Definition dropBlank (k : string) (payload : student) : student :=
  match text payload !! k with
  | Some v => if nonempty (trim v) then payload else delete_prop k payload
  | None => payload
  end.

(** The callback of [.map] in upsertStudents: from a row to its payload. *)
Definition toPayload (s : student) : student :=
  let payload := s in
  let payload :=
    if negb (hasAcademicData s) then deleteAcademic payload
    else set_num "attendance_percentage"
           (deriveAttendance
              (<["present_today" := Num (orZero (nums s !! "present_today"))]>
                 (<["leave_taken" := Num (orZero (nums s !! "leave_taken"))]> ∅)))
           payload in
  dropBlank "phone_number" (dropBlank "email" payload).

(** What the console gets from the row loop. *)
Inductive event : Type :=
  | RowWarnings (row_number : nat) (warnings : list string)
  | SkipAcademic (register_no : string).

Record failure : Type := mkFailure { row_number : nat; reason : string }.

Record sorted : Type := mkSorted {
  validRows : list student;
  failedRows : list failure;
  console : list event
}.

(** The first loop of the body: every string property trimmed in place. *)
Definition trimStrings (row : student) : student :=
  mkStudent (trim <$> text row) (nums row).

(** What the body does to a row that has its key. *)
Definition attach (row : student) : student :=
  if negb (hasAcademicData row) then deleteAcademic row
  else set_num "attendance_percentage" (deriveAttendance (nums row)) row.

(** One turn of the [for] loop of syncGoogleSheet over [normalized[idx]]. *)
Definition step (idx : nat) (row0 : student) (acc : sorted) : sorted :=
  let row := trimStrings row0 in
  let warnings := validateStudent row in
  let console1 :=
    match warnings with
    | [] => console acc
    | _ => (console acc ++ [RowWarnings (idx + 2) warnings])%list
    end in
  if negb (nonempty (str row "register_no")) then
    mkSorted (validRows acc)
             (failedRows acc ++ [mkFailure (idx + 2) "register_no missing"])%list
             console1
  else
    let console2 :=
      if negb (hasAcademicData row)
      then (console1 ++ [SkipAcademic (str row "register_no")])%list
      else console1 in
    mkSorted (validRows acc ++ [attach row])%list (failedRows acc) console2.

Fixpoint loop (idx : nat) (normalized : list student) (acc : sorted) : sorted :=
  match normalized with
  | [] => acc
  | row :: more => loop (S idx) more (step idx row acc)
  end.

Definition sortRows (normalized : list student) : sorted :=
  loop 0 normalized (mkSorted [] [] []).

(** [rows.map((r, i) => mapRowToStudent(headerIndex, r, i + 2))] *)
Definition normalize (headers : list string) (rows : list (list string))
    : list student :=
  map (mapRowToStudent (Header.buildHeaderIndex headers)) rows.

(** The batch upsertStudents sends for the rows of a sheet, before it is cut
    into chunks. *)
Definition payloads (headers : list string) (rows : list (list string))
    : list student :=
  map toPayload (validRows (sortRows (normalize headers rows))).

End Sync.

(** ** The destination and the two writers *)

Module Store.
Import Js Num Student Sync.

(** A call that either completes or throws. *)
Inductive outcome (A : Type) : Type :=
  | Done (a : A)
  | Thrown (message : string).
Arguments Done {A} a.
Arguments Thrown {A} message.

Section Client.
Context {db : Type}.

(** The four requests the script sends through supabaseAdmin, each from the
    state of the table to the [error] of the reply (and the [data] of the
    select) and the state after it. *)
Record client : Type := mkClient {
  upsert : list student -> db -> option string * db;
  delete_all : db -> option string * db;
  select_register_no : db -> (string + list string) * db;
  delete_in : list string -> db -> option string * db
}.

(** Code that runs against the table and may throw; what was written before
    a throw stays written. *)
Definition M (A : Type) : Type := db -> outcome A * db.

Definition ret {A} (a : A) : M A := fun d => (Done a, d).
Definition throw {A} (message : string) : M A := fun d => (Thrown message, d).
Definition bind {A B} (m : M A) (k : A -> M B) : M B :=
  fun d => match m d with
           | (Done a, d') => k a d'
           | (Thrown message, d') => (Thrown message, d')
           end.

(** [const { error } = await request; if (error) throw new Error(prefix + error.message)] *)
Definition request (prefix : string) (r : db -> option string * db) : M unit :=
  fun d => match r d with
           | (Some message, d') => (Thrown (prefix +:+ message), d')
           | (None, d') => (Done tt, d')
           end.

Notation "'let!' x ':=' m 'in' k" := (bind m (fun x => k))
  (at level 10, x pattern, m at level 100, k at level 200).

Variable c : client.

Definition batchSize : nat := 500.

(** The [for] loop of upsertStudents from index [i] on; it stops when [i]
    reaches the length, which happens within [fuel] turns when [fuel] is the
    length. *)
Fixpoint upsertFrom (fuel i upserted : nat) (students : list student) : M nat :=
  match fuel with
  | O => ret upserted
  | S fuel' =>
      if (i <? length students)%nat then
        let batch := map toPayload (take batchSize (drop i students)) in
        let! _ := request "Supabase upsert error: " (upsert c batch) in
        upsertFrom fuel' (i + batchSize) (upserted + length batch) students
      else ret upserted
  end.

Definition upsertStudents (students : list student) : M nat :=
  upsertFrom (length students) 0 0 students.

(** [Array.from(new Set(l))]: the first occurrence of each element, in
    order. *)
Fixpoint uniq (seen l : list string) : list string :=
  match l with
  | [] => []
  | x :: l' =>
      if bool_decide (x ∈ seen) then uniq seen l' else x :: uniq (x :: seen) l'
  end.

(** [.map(r => String(r || '').trim()).filter(r => r.length > 0)] *)
Definition cleanKeys (l : list string) : list string :=
  filter (fun r => nonempty r = true) (map trim l).

Definition uniqueNos (sheetRegisterNos : list string) : list string :=
  uniq [] (cleanKeys sheetRegisterNos).

Definition missingNos (sheetRegisterNos existing : list string) : list string :=
  filter (fun r => r ∉ uniqueNos sheetRegisterNos) (cleanKeys existing).

Definition deleteMissingStudents (sheetRegisterNos : list string) : M unit :=
  match uniqueNos sheetRegisterNos with
  | [] => request "Delete all students failed: " (delete_all c)
  | _ =>
      fun d =>
        match select_register_no c d with
        | (inl message, d') =>
            (Thrown ("Fetch existing students failed: " +:+ message), d')
        | (inr existing, d') =>
            match missingNos sheetRegisterNos existing with
            | [] => (Done tt, d')
            | missing =>
                request "Delete missing students failed: " (delete_in c missing) d'
            end
        end
  end.

Record summary : Type := mkSummary {
  total_rows : nat;
  processed_rows : nat;
  failed_rows : nat
}.

(** syncGoogleSheet once the sheet is fetched: from the header row and the
    data rows to the summary.  The duration is not part of the model. *)
Definition syncRows (headers : list string) (rows : list (list string))
    : M summary :=
  let normalized := normalize headers rows in
  let s := sortRows normalized in
  let sheetRegisterNos := map (fun r => str r "register_no") (validRows s) in
  let! _ := deleteMissingStudents sheetRegisterNos in
  let! processed := upsertStudents (validRows s) in
  ret (mkSummary (length normalized) processed (length (failedRows s))).

End Client.

Arguments client db : clear implicits.

(** An in-memory table with the contract the design asks of the destination
    (upsert by key, select of all keys, delete by key list, delete of all
    rows): rows keyed by register_no; an upsert inserts the row or
    overwrites the properties the payload lists and keeps the others, a
    later payload of a batch winning over an earlier one; no request fails,
    but for a payload without key.  The service behind supabaseAdmin is not
    part of the repository. *)
Module Memory.

Definition merge (payload old : student) : student :=
  mkStudent (text payload ∪ text old) (nums payload ∪ nums old).

Definition upsert_one (t : option (gmap string student)) (payload : student)
    : option (gmap string student) :=
  match t, text payload !! "register_no" with
  | Some t, Some key =>
      Some (<[key := merge payload (default (mkStudent ∅ ∅) (t !! key))]> t)
  | _, _ => None
  end.

Definition client : Store.client (gmap string student) := {|
  upsert := fun batch t =>
    match foldl upsert_one (Some t) batch with
    | Some t' => (None, t')
    | None => (Some "null value in column register_no", t)
    end;
  delete_all := fun _ => (None, ∅);
  select_register_no := fun t => (inr (map fst (map_to_list t)), t);
  delete_in := fun keys t => (None, filter (fun kv => kv.1 ∉ keys) t)
|}.

End Memory.

End Store.

(** ** The run on the public CSV export *)

Module Run.
Import Js Store.

Definition error_message (e : Retry.error) : string :=
  match e with
  | Retry.NetworkError message => message
  | Retry.HttpError status statusText =>
      "HTTP " +:+ pretty status +:+ " " +:+ statusText
  end.

(** fetchSheetCSV: the wrapped fetch, then the guard on an empty text. *)
Definition fetchSheetCSV (server : nat -> Retry.reply) : outcome string :=
  match fst (Retry.fetchWithRetry server) with
  | Retry.Returns res =>
      if nonempty (Retry.body res) && nonempty (trim (Retry.body res))
      then Done (Retry.body res)
      else Thrown "Invalid sheet structure: empty CSV"
  | Retry.Throws e => Thrown (error_message e)
  | Retry.ReturnsUndefined =>
      Thrown "Cannot read properties of undefined (reading 'text')"
  end.

(** syncGoogleSheet when neither a service account nor an API key is
    configured: fetch, parse, then the sync of the rows.  A throw of the
    fetch or of the parser leaves before any request to the table. *)
Definition syncGoogleSheet {db : Type} (c : client db)
    (server : nat -> Retry.reply) : M (db := db) summary :=
  match fetchSheetCSV server with
  | Thrown message => throw message
  | Done csvText =>
      match Csv.parseCSV csvText with
      | None => throw "Cannot read properties of undefined (reading 'map')"
      | Some parsed => syncRows c (Csv.headers parsed) (Csv.rows parsed)
      end
  end.

End Run.

(** ** Start-up checks on the environment *)

Module Config.
Import Js Store.

(** [s.includes(needle)] *)
Fixpoint includes (needle s : string) : bool :=
  String.prefix needle s
  || match s with
     | EmptyString => false
     | String _ s' => includes needle s'
     end.

(** getEnv over [process.env] as a map; the value is [None] when the
    variable is not set and not required. *)
Definition getEnv (env : gmap string string) (name : string) (required : bool)
    : outcome (option string) :=
  let val := env !! name in
  if required
     && match val with
        | None => true
        | Some v => negb (nonempty v) || negb (nonempty (trim v))
        end
  then Thrown ("Missing required environment variable: " +:+ name)
  else Done (trim <$> val).

Definition ensureValidServiceRoleKey (k : option string) : outcome unit :=
  let tooShort :=
    match k with
    | None => true
    | Some v => negb (nonempty v) || (String.length v <? 50)%nat
    end in
  let looksTruncated :=
    match k with
    | None => false
    | Some v => includes "..." v
    end in
  if tooShort || looksTruncated
  then Thrown "Invalid SUPABASE_SERVICE_ROLE_KEY. Paste the full Service Role key from Supabase project settings."
  else Done tt.

(** The value of SUPABASE_SERVICE_ROLE_KEY the module ends up with, once
    both of its top-level statements have run. *)
Definition serviceRoleKey (env : gmap string string) : outcome string :=
  match getEnv env "SUPABASE_SERVICE_ROLE_KEY" true with
  | Thrown message => Thrown message
  | Done k =>
      match ensureValidServiceRoleKey k with
      | Thrown message => Thrown message
      | Done _ => Done (default EmptyString k)
      end
  end.

End Config.

(** ** A destination that records what it is asked *)

Module Recorder.
Import Student Store.

Inductive asked : Type :=
  | Upsert (batch : list student)
  | DeleteAll
  | Select
  | DeleteIn (keys : list string).

Definition is_upsert (a : asked) : bool :=
  match a with Upsert _ => true | _ => false end.

(** The requests received so far, in order.  The upsert that arrives when
    [failAt] upserts were received before it is answered with an error, as
    is every upsert after it; the select answers with [stored]. *)
Definition client (stored : list string) (failAt : option nat)
    : Store.client (list asked) := {|
  upsert := fun batch log =>
    let n := length (filter (fun a => is_upsert a = true) log) in
    (match failAt with
     | Some k => if (k <=? n)%nat then Some "rejected" else None
     | None => None
     end, (log ++ [Upsert batch])%list);
  delete_all := fun log => (None, (log ++ [DeleteAll])%list);
  select_register_no := fun log => (inr stored, (log ++ [Select])%list);
  delete_in := fun keys log => (None, (log ++ [DeleteIn keys])%list)
|}.

End Recorder.

(** ** The profile page *)

Module Ui.
Import Js Num Student.

(** [a <= b]; false as soon as one side is NaN. *)
Definition le (a b : jsnum) : bool :=
  match a, b with
  | Fin x, Fin y => Qle_bool x y
  | NaN, _ | _, NaN => false
  | Inf s, Inf s' => s || negb s'
  | Inf s, Fin _ => s
  | Fin _, Inf s => negb s
  end.

(** [Math.max(a, b)] and [Math.min(a, b)]: NaN as soon as one side is NaN. *)
Definition max (a b : jsnum) : jsnum :=
  match a, b with
  | NaN, _ | _, NaN => NaN
  | _, _ => if le a b then b else a
  end.

Definition min (a b : jsnum) : jsnum :=
  match a, b with
  | NaN, _ | _, NaN => NaN
  | _, _ => if le a b then a else b
  end.

(** computeAttendance of StudentProfilePage; [None] is [null]. *)
Definition computeAttendance (present leave : option numval) : option jsnum :=
  let p := match present with Some (Num n) => Some n | _ => None end in
  let l := match leave with Some (Num n) => Some n | _ => None end in
  match p, l with
  | Some p, Some l =>
      let total := add p l in
      if negb (isFinite total) || le total zero then Some zero
      else
        let perc := mul (div p total) hundred in
        Some (if isFinite perc then div (round (mul perc hundred)) hundred
              else zero)
  | _, _ => None
  end.

(** [Number(attendance ?? 0)] *)
Definition shown (attendance : option jsnum) : jsnum :=
  default zero attendance.

Inductive colour : Type := Green | Amber.

(** ringColor of ProfileHeader: #16a34a at 75 and above; the two other
    branches both give #f59e0b. *)
Definition ringColor (attendance : option jsnum) : colour :=
  if le (Fin 75) (shown attendance) then Green
  else if le (Fin 65) (shown attendance) then Amber
  else Amber.

(** pct of ProfileHeader *)
Definition pct (attendance : option jsnum) : jsnum :=
  min (max (shown attendance) zero) hundred.

End Ui.

(** * Facts *)

(** ** Strings *)

Module StringFacts.
Import Js.

Lemma app_cons c (s t : string) : String c s +:+ t = String c (s +:+ t).
Proof. reflexivity. Qed.

Lemma app_empty_r (s : string) : s +:+ EmptyString = s.
Proof. induction s as [|c s IH]; [reflexivity|]. by rewrite app_cons, IH. Qed.

Lemma app_assoc (s t u : string) : (s +:+ t) +:+ u = s +:+ (t +:+ u).
Proof. induction s as [|c s IH]; [reflexivity|]. by rewrite !app_cons, IH. Qed.

Lemma push_char_app (s : string) c t :
  push_char s c +:+ t = s +:+ String c t.
Proof. unfold push_char. by rewrite app_assoc. Qed.

(** Every code unit of the string passes the test. *)
Fixpoint all_chars (P : ascii -> bool) (s : string) : bool :=
  match s with
  | EmptyString => true
  | String c s' => P c && all_chars P s'
  end.

End StringFacts.

(** ** The CSV parser *)

Module CsvFacts.
Import Js Csv StringFacts.

Definition q : string := String dquote EmptyString.

(** The rest of a line starts with a quote character. *)
Definition quote_next (s : string) : bool :=
  match s with
  | String c _ => Ascii.eqb c dquote
  | EmptyString => false
  end.

(** *** The four branches of the scan *)

Lemma scan_pair rest cur b res :
  scan (String dquote (String dquote rest)) cur b res
  = scan rest (push_char cur dquote) b res.
Proof. reflexivity. Qed.

Lemma scan_quote rest cur b res :
  quote_next rest = false ->
  scan (String dquote rest) cur b res = scan rest cur (negb b) res.
Proof.
  destruct rest as [|c rest]; [reflexivity|]. cbn [quote_next]. intros H.
  cbn [scan]. rewrite H. reflexivity.
Qed.

Lemma scan_comma rest cur res :
  scan (String comma rest) cur false res
  = scan rest EmptyString false (res ++ [cur])%list.
Proof. destruct rest; reflexivity. Qed.

Lemma scan_other c rest cur b res :
  Ascii.eqb c dquote = false ->
  Ascii.eqb c comma && negb b = false ->
  scan (String c rest) cur b res = scan rest (push_char cur c) b res.
Proof.
  intros Hq Hc. destruct rest as [|c' rest]; cbn [scan]; rewrite Hq, Hc;
    reflexivity.
Qed.

(** *** Writing a field the way a CSV export does *)

(** Every quote character doubled. *)
Fixpoint escape (s : string) : string :=
  match s with
  | EmptyString => EmptyString
  | String c s' =>
      if Ascii.eqb c dquote then String dquote (String dquote (escape s'))
      else String c (escape s')
  end.

Definition quoteField (s : string) : string :=
  String dquote (escape s +:+ q).

(** A cell of a line: written as it is, or wrapped in quotes. *)
Inductive cell : Type :=
  | Plain (s : string)
  | Quoted (s : string).

Definition content (c : cell) : string :=
  match c with Plain s | Quoted s => s end.

Definition render (c : cell) : string :=
  match c with
  | Plain s => s
  | Quoted s => quoteField s
  end.

(** A plain cell has no quote and no comma; a quoted cell has some code
    unit that is not a quote. *)
Definition cell_ok (c : cell) : bool :=
  match c with
  | Plain s =>
      all_chars (fun c => negb (Ascii.eqb c dquote) && negb (Ascii.eqb c comma)) s
  | Quoted s => negb (all_chars (fun c => Ascii.eqb c dquote) s)
  end.

Fixpoint join (sep : ascii) (l : list string) : string :=
  match l with
  | [] => EmptyString
  | [x] => x
  | x :: l' => x +:+ String sep (join sep l')
  end.

(** Inside quotes, the escaped text and the closing quote give the text
    back, whatever it is. *)
Lemma scan_inside s : forall rest cur res,
  quote_next rest = false ->
  scan (escape s +:+ String dquote rest) cur true res
  = scan rest (cur +:+ s) false res.
Proof.
  induction s as [|c s IH]; intros rest cur res Hrest.
  - cbn [escape]. change (EmptyString +:+ ?x) with x.
    rewrite scan_quote by done. by rewrite app_empty_r.
  - cbn [escape]. destruct (Ascii.eqb c dquote) eqn:Hc.
    + apply Ascii.eqb_eq in Hc as ->. rewrite !app_cons, scan_pair.
      rewrite IH by done. by rewrite push_char_app.
    + rewrite app_cons, scan_other by (rewrite ?andb_false_r; done).
      rewrite IH by done. by rewrite push_char_app.
Qed.

(** A quoted cell outside quotes: the opening quote pairs up with the quotes
    the text starts with, and the text still comes out. *)
Lemma scan_quoted s : forall rest cur res,
  cell_ok (Quoted s) = true ->
  quote_next rest = false ->
  scan (quoteField s +:+ rest) cur false res = scan rest (cur +:+ s) false res.
Proof.
  unfold quoteField, q.
  induction s as [|c s IH]; intros rest cur res Hs Hrest; [done|].
  cbn [escape]. destruct (Ascii.eqb c dquote) eqn:Hc.
  - apply Ascii.eqb_eq in Hc as ->. rewrite !app_cons, scan_pair.
    cbn [cell_ok all_chars] in Hs. rewrite Ascii.eqb_refl in Hs.
    rewrite <- app_cons, IH by done. by rewrite push_char_app.
  - rewrite !app_cons, scan_quote by (cbn [quote_next]; done).
    rewrite app_assoc. change (String dquote EmptyString +:+ rest) with (String dquote rest).
    rewrite <- app_cons.
    replace (String c (escape s)) with (escape (String c s))
      by (cbn [escape]; by rewrite Hc).
    rewrite scan_inside by done. reflexivity.
Qed.

Lemma scan_plain s : forall rest cur res,
  cell_ok (Plain s) = true ->
  scan (s +:+ rest) cur false res = scan rest (cur +:+ s) false res.
Proof.
  induction s as [|c s IH]; intros rest cur res Hs.
  - by rewrite app_empty_r.
  - cbn [cell_ok all_chars] in Hs.
    apply andb_prop in Hs as [Hc Hs]. apply andb_prop in Hc as [Hq Hc].
    apply negb_true_iff in Hq, Hc.
    rewrite app_cons, scan_other by (rewrite ?Hc; done).
    rewrite IH by done. by rewrite push_char_app.
Qed.

Lemma scan_cell c rest cur res :
  cell_ok c = true ->
  quote_next rest = false ->
  scan (render c +:+ rest) cur false res
  = scan rest (cur +:+ content c) false res.
Proof.
  destruct c; intros; [by apply scan_plain | by apply scan_quoted].
Qed.


(** *** Line ends *)



(** A line has no CR and no LF in it. *)
Definition line_free (s : string) : bool :=
  all_chars (fun c => negb (Ascii.eqb c CR) && negb (Ascii.eqb c LF)) s.


Definition cr_to_lf (s : string) : string :=
  map_chars (fun c => if Ascii.eqb c CR then LF else c) s.

Lemma lines_unfold t :
  lines t = filter (fun l => nonempty l = true) (split LF (cr_to_lf (replace_crlf t))).
Proof. reflexivity. Qed.

Lemma replace_crlf_other c s :
  Ascii.eqb c CR = false ->
  replace_crlf (String c s) = String c (replace_crlf s).
Proof. intros Hc. destruct s; cbn [replace_crlf]; rewrite ?Hc; reflexivity. Qed.










(** *** Main results on the parser *)





(** [n] quote characters. *)
Fixpoint quotes (n : nat) : string :=
  match n with
  | O => EmptyString
  | S n' => String dquote (quotes n')
  end.

Lemma quotes_app a b : quotes a +:+ quotes b = quotes (a + b).
Proof. induction a as [|a IH]; [done|]. cbn [quotes Nat.add]. by rewrite app_cons, IH. Qed.

Lemma escape_quotes n : escape (quotes n) = quotes (n + n).
Proof.
  induction n as [|n IH]; [done|]. cbn [quotes escape].
  rewrite Ascii.eqb_refl, IH. by rewrite Nat.add_succ_r.
Qed.

Lemma scan_quote_pairs n : forall cur b res,
  scan (quotes (n + n)) cur b res = (res ++ [cur +:+ quotes n])%list.
Proof.
  induction n as [|n IH]; intros cur b res.
  - cbn [quotes Nat.add scan]. by rewrite app_empty_r.
  - rewrite Nat.add_succ_r. cbn [quotes Nat.add]. rewrite scan_pair, IH.
    by rewrite push_char_app.
Qed.

(** What the theorem of C6 leaves out: in a quoted field whose content is
    made of quotes only, the quotes that wrap the field are taken for a
    doubled quote, so the field with [n] quotes as its content, which a CSV
    export writes as [2n + 2] quotes, is read as [n + 1] quotes. *)
Lemma quoted_quotes_gain_a_quote n :
  parseLine (quoteField (quotes n)) = [quotes (S n)].
Proof.
  unfold parseLine, quoteField. rewrite escape_quotes.
  change q with (quotes 1). rewrite quotes_app.
  change (String dquote (quotes (n + n + 1))) with (quotes (S (n + n + 1))).
  replace (S (n + n + 1)) with (S n + S n) by lia.
  by rewrite scan_quote_pairs.
Qed.



End CsvFacts.

(** ** The retry wrapper *)

Module RetryFacts.
Import Retry.

Section Loop.
Variable server : nat -> reply.
Variables maxRetries backoffMs : nat.

Lemma retry_out attempt trace :
  ~ attempt < maxRetries ->
  retry server maxRetries backoffMs attempt trace = (ReturnsUndefined, trace).
Proof. intros H. simp retry. destruct (decide _); [lia | done]. Qed.

Lemma retry_ok attempt trace res :
  attempt < maxRetries ->
  try_fetch (server attempt) = inl res ->
  retry server maxRetries backoffMs attempt trace
  = (Returns res, (trace ++ [Fetch])%list).
Proof.
  intros H Hres. simp retry. destruct (decide _); [|lia]. cbn.
  rewrite Hres. done.
Qed.

Lemma retry_last attempt trace err :
  attempt < maxRetries ->
  maxRetries <= S attempt ->
  try_fetch (server attempt) = inr err ->
  retry server maxRetries backoffMs attempt trace
  = (Throws err, (trace ++ [Fetch])%list).
Proof.
  intros H Hlast Herr. simp retry. destruct (decide _); [|lia]. cbn.
  rewrite Herr. cbn. destruct (decide _); [done | lia].
Qed.

Lemma retry_again attempt trace err :
  S attempt < maxRetries ->
  try_fetch (server attempt) = inr err ->
  retry server maxRetries backoffMs attempt trace
  = retry server maxRetries backoffMs (S attempt)
      (trace ++ [Fetch; Sleep (backoffMs * S attempt)])%list.
Proof.
  intros H Herr. rewrite retry_equation_1. destruct (decide _); [|lia]. cbn.
  rewrite Herr. cbn. destruct (decide _); [lia | done].
Qed.

(** What [k] failed attempts after the first [attempt] leave in the trace:
    a fetch each, and a sleep of the base times the number of the attempt. *)
Fixpoint rounds (attempt k : nat) : list action :=
  match k with
  | O => []
  | S k' => Fetch :: Sleep (backoffMs * S attempt) :: rounds (S attempt) k'
  end.

Definition failed (i : nat) : Prop := exists err, try_fetch (server i) = inr err.

(** The first success after [k] failures, within the allowed attempts. *)
Lemma retry_succeeds k : forall attempt trace res,
  attempt + k < maxRetries ->
  (forall i, attempt <= i < attempt + k -> failed i) ->
  try_fetch (server (attempt + k)) = inl res ->
  retry server maxRetries backoffMs attempt trace
  = (Returns res, (trace ++ rounds attempt k ++ [Fetch])%list).
Proof.
  induction k as [|k IH]; intros attempt trace res Hlt Hfail Hres.
  - rewrite Nat.add_0_r in *. by rewrite (retry_ok _ _ res).
  - destruct (Hfail attempt ltac:(lia)) as [err Herr].
    rewrite (retry_again _ _ err) by (done || lia).
    rewrite (IH (S attempt) _ res); [| lia | intros; apply Hfail; lia |].
    + cbn [rounds]. by rewrite <- List.app_assoc.
    + by replace (S attempt + k) with (attempt + S k) by lia.
Qed.

(** Every allowed attempt fails: the error of the last one is thrown, and
    no sleep follows it. *)
Lemma retry_gives_up k : forall attempt trace err,
  attempt + S k = maxRetries ->
  (forall i, attempt <= i < attempt + k -> failed i) ->
  try_fetch (server (attempt + k)) = inr err ->
  retry server maxRetries backoffMs attempt trace
  = (Throws err, (trace ++ rounds attempt k ++ [Fetch])%list).
Proof.
  induction k as [|k IH]; intros attempt trace err Hlt Hfail Herr.
  - rewrite Nat.add_0_r in *. by rewrite (retry_last _ _ err) by (done || lia).
  - destruct (Hfail attempt ltac:(lia)) as [err0 Herr0].
    rewrite (retry_again _ _ err0) by (done || lia).
    rewrite (IH (S attempt) _ err); [| lia | intros; apply Hfail; lia |].
    + cbn [rounds]. by rewrite <- List.app_assoc.
    + by replace (S attempt + k) with (attempt + S k) by lia.
Qed.

End Loop.

Definition is_fetch (a : action) : bool :=
  match a with Fetch => true | Sleep _ => false end.

(** How many times the trace calls [fetch]. *)
Definition fetches (trace : list action) : nat :=
  length (filter (fun a => is_fetch a = true) trace).

(** C9.  The wrapped fetch, with the default arguments every caller uses,
    calls fetch at most 3 times.  An attempt fails when fetch rejects or
    when the status of the response is outside 200-299.  After the first failure it sleeps 500
    times 1, after the second 500 times 2, and after the third it throws
    the error of that third attempt with no further sleep; the run on the
    CSV export then throws too and sends nothing to the table. *)
Theorem C9_fetchWithRetry_three_attempts_linear_backoff
    {db : Type} (c : Store.client db) (d : db) (server : nat -> reply) :
  fetches (snd (fetchWithRetry server)) <= 3
  /\ (forall res,
        try_fetch (Resolves res)
        = if (200 <=? status res)%nat && (status res <=? 299)%nat then inl res
          else inr (HttpError (status res) (statusText res)))
  /\ (forall message, try_fetch (Rejects message) = inr (NetworkError message))
  /\ match try_fetch (server 0), try_fetch (server 1), try_fetch (server 2) with
     | inl res, _, _ => fetchWithRetry server = (Returns res, [Fetch])
     | inr _, inl res, _ =>
         fetchWithRetry server
         = (Returns res, [Fetch; Sleep (500 * 1); Fetch])
     | inr _, inr _, inl res =>
         fetchWithRetry server
         = (Returns res, [Fetch; Sleep (500 * 1); Fetch; Sleep (500 * 2); Fetch])
     | inr _, inr _, inr err =>
         fetchWithRetry server
         = (Throws err, [Fetch; Sleep (500 * 1); Fetch; Sleep (500 * 2); Fetch])
         /\ Run.syncGoogleSheet c server d
            = (Store.Thrown (Run.error_message err), d)
     end.
Proof.
  assert (Hcases :
    match try_fetch (server 0), try_fetch (server 1), try_fetch (server 2) with
    | inl res, _, _ => fetchWithRetry server = (Returns res, [Fetch])
    | inr _, inl res, _ =>
        fetchWithRetry server = (Returns res, [Fetch; Sleep (500 * 1); Fetch])
    | inr _, inr _, inl res =>
        fetchWithRetry server
        = (Returns res, [Fetch; Sleep (500 * 1); Fetch; Sleep (500 * 2); Fetch])
    | inr _, inr _, inr err =>
        fetchWithRetry server
        = (Throws err, [Fetch; Sleep (500 * 1); Fetch; Sleep (500 * 2); Fetch])
    end).
  { unfold fetchWithRetry.
    destruct (try_fetch (server 0)) as [res0|err0] eqn:H0.
    { by rewrite (retry_succeeds server 3 500 0 0 [] res0)
        by (done || lia || intros; lia). }
    destruct (try_fetch (server 1)) as [res1|err1] eqn:H1.
    { rewrite (retry_succeeds server 3 500 1 0 [] res1); [done | lia | | done].
      intros i Hi. replace i with 0 by lia. by exists err0. }
    assert (forall i, 0 <= i < 0 + 2 -> failed server i) as Hfail.
    { intros i Hi. destruct i as [|[|i]]; [by exists err0 | by exists err1 | lia]. }
    destruct (try_fetch (server 2)) as [res2|err2] eqn:H2.
    - by rewrite (retry_succeeds server 3 500 2 0 [] res2) by (done || lia).
    - by rewrite (retry_gives_up server 3 500 2 0 [] err2) by (done || lia). }
  split; [|split; [done|split; [done|]]].
  - destruct (try_fetch (server 0)); [rewrite Hcases; vm_compute; lia|].
    destruct (try_fetch (server 1)); [rewrite Hcases; vm_compute; lia|].
    destruct (try_fetch (server 2)); rewrite Hcases; vm_compute; lia.
  - destruct (try_fetch (server 0)); [done|].
    destruct (try_fetch (server 1)); [done|].
    destruct (try_fetch (server 2)); [done|]. split; [done|].
    unfold Run.syncGoogleSheet, Run.fetchSheetCSV. by rewrite Hcases.
Qed.

End RetryFacts.

(** ** Header resolution *)

Module HeaderFacts.
Import Js Header.

(** The key a raw label gets in the index. *)
Definition key_of (h : string) : string := mapped (normalizeHeaderForMap h).

(** The position of the last occurrence of [k]. *)
Fixpoint last_pos (k : string) (keys : list string) : option nat :=
  match keys with
  | [] => None
  | x :: keys' =>
      match last_pos k keys' with
      | Some j => Some (S j)
      | None => if String.eqb x k then Some 0 else None
      end
  end.

Lemma build_lookup headers : forall i index k,
  build headers i index !! k
  = match last_pos k (map key_of headers) with
    | Some j => Some (i + j)
    | None => index !! k
    end.
Proof.
  induction headers as [|h headers IH]; intros i index k; [done|].
  cbn [build map last_pos]. rewrite IH. fold (key_of h).
  destruct (last_pos k (map key_of headers)) as [j|]; [f_equal; lia|].
  destruct (String.eqb_spec (key_of h) k) as [->|Hne].
  - rewrite lookup_insert_eq. f_equal. lia.
  - by rewrite lookup_insert_ne.
Qed.

Lemma last_pos_Some k keys j :
  last_pos k keys = Some j <->
  keys !! j = Some k /\ forall j', j < j' -> keys !! j' <> Some k.
Proof.
  revert j. induction keys as [|x keys IH]; intros j.
  - cbn. split; [done | by intros [? _]].
  - cbn [last_pos]. destruct (last_pos k keys) as [j0|] eqn:Hlast.
    + pose proof (proj1 (IH j0) eq_refl) as [Hj0 Hafter]. split.
      * intros [= <-]. split; [done|]. intros [|j'] Hj'; [lia|].
        cbn. apply Hafter. lia.
      * intros [Hj Hlater]. destruct j as [|j].
        { exfalso. apply (Hlater (S j0)); [lia | done]. }
        f_equal. cbn in Hj.
        destruct (Nat.lt_trichotomy j j0) as [Hlt | [-> | Hgt]]; [|done|].
        -- exfalso. apply (Hlater (S j0)); [lia | done].
        -- exfalso. by apply (Hafter j).
    + assert (forall j', keys !! j' <> Some k) as Hnone.
      { intros j' Hj'. 
        assert (exists j1, last_pos k keys = Some j1) as [j1 Hj1]; [|congruence].
        clear IH Hlast. revert j' Hj'.
        induction keys as [|y keys IHk]; intros j' Hj'; [done|].
        cbn [last_pos]. destruct (last_pos k keys); [by eexists|].
        destruct j' as [|j']; cbn in Hj'.
        - injection Hj' as ->. rewrite String.eqb_refl. by eexists.
        - destruct (IHk j' Hj') as [? ?]. done. }
      destruct (String.eqb_spec x k) as [->|Hne]; split.
      * intros [= <-]. split; [done|]. intros [|j'] ?; [lia|]. cbn. apply Hnone.
      * intros [Hj _]. destruct j as [|j]; [done|]. cbn in Hj. by apply Hnone in Hj.
      * done.
      * intros [Hj _]. destruct j as [|j]; cbn in Hj; [congruence|].
        by apply Hnone in Hj.
Qed.

(** The index sends a key to the last column whose label resolves to it. *)
Lemma buildHeaderIndex_last_wins headers k i :
  buildHeaderIndex headers !! k = Some i <->
  map key_of headers !! i = Some k
  /\ forall j, i < j -> map key_of headers !! j <> Some k.
Proof.
  unfold buildHeaderIndex. rewrite build_lookup, <- last_pos_Some.
  destruct (last_pos k (map key_of headers)); [done|].
  by rewrite lookup_empty.
Qed.

(** A label the alias table knows gets the canonical name of the table;
    any other label, but the one that reads [constructor], gets its
    normal form with the spaces turned into underscores. *)
Lemma key_of_cases h :
  match HEADER_MAP !! normalizeHeaderForMap h with
  | Some canonical => key_of h = canonical
  | None =>
      normalizeHeaderForMap h <> "constructor" ->
      key_of h = replace_ws_runs "_" false (normalizeHeaderForMap h)
  end.
Proof.
  unfold key_of, mapped. destruct (HEADER_MAP !! _); [done|].
  intros Hne. by destruct (String.eqb_spec (normalizeHeaderForMap h) "constructor").
Qed.

Lemma identity_labels :
  map key_of ["Reg No"; "REGISTER_NO"; "Registration Number"]
  = ["register_no"; "register_no"; "register_no"].
Proof. reflexivity. Qed.

(** C7, at a sheet with a column labelled Constructor.  The label
    normalises to [constructor], which the alias table does not list, so
    the index should send the key [constructor] to column 1.  The read of
    HEADER_MAP finds the function [Object] instead, and the column is filed
    under the text of that function: the key [constructor] is not in the
    index. *)
Theorem C7_header_constructor_misses_fallback :
  let index := buildHeaderIndex ["Register No"; "Constructor"] in
  normalizeHeaderForMap "Constructor" = "constructor"
  /\ HEADER_MAP !! "constructor" = None
  /\ replace_ws_runs "_" false "constructor" = "constructor"
  /\ index !! "register_no" = Some 0
  /\ index !! "constructor" = None
  /\ index !! "function Object() { [native code] }" = Some 1.
Proof. repeat split; reflexivity. Qed.

End HeaderFacts.

(** ** Rounding to binary64 *)

Module Binary64Facts.
Import Num.
Local Open Scope Q_scope.

(** *** Powers of two *)

Lemma pow2_pos k : 0 < pow2 k.
Proof. apply Qpower_0_lt. reflexivity. Qed.

Lemma pow2_add a b : pow2 (a + b) == pow2 a * pow2 b.
Proof. apply Qpower_plus. discriminate. Qed.

Lemma pow2_le a b : (a <= b)%Z -> pow2 a <= pow2 b.
Proof. intros H. apply Qpower_le_compat_l; [done|]. discriminate. Qed.

Lemma pow2_lt a b : (a < b)%Z -> pow2 a < pow2 b.
Proof. intros H. apply Qpower_lt_compat_l; [done|]. reflexivity. Qed.

Lemma pow2_lt_inv a b : pow2 a < pow2 b -> (a < b)%Z.
Proof. intros H. eapply Qpower_lt_compat_l_inv; [exact H|]. reflexivity. Qed.

Lemma pow2_int k : (0 <= k)%Z -> pow2 k == inject_Z (2 ^ k).
Proof. intros H. unfold pow2. by rewrite Zpower_Qpower. Qed.

Lemma pow2_int_pos k : (0 <= k)%Z -> (0 < 2 ^ k)%Z.
Proof. intros H. by apply Z.pow_pos_nonneg. Qed.

(** *** The binade of a positive number *)

Lemma ilog2_spec q : 0 < q -> pow2 (ilog2 q) <= q /\ q < pow2 (ilog2 q + 1).
Proof.
  intros Hq. destruct q as [n d].
  assert (0 < n)%Z as Hn by (unfold Qlt in Hq; cbn in Hq; lia).
  unfold ilog2. cbn [Qnum Qden].
  set (a := Z.log2 n). set (b := Z.log2 (Z.pos d)).
  assert (0 <= a)%Z as Ha by apply Z.log2_nonneg.
  assert (0 <= b)%Z as Hb by apply Z.log2_nonneg.
  destruct (Z.log2_spec n Hn) as [Hn1 Hn2].
  destruct (Z.log2_spec (Z.pos d) eq_refl) as [Hd1 Hd2].
  fold a in Hn1, Hn2. fold b in Hd1, Hd2.
  rewrite Zle_Qle in Hn1, Hd1. rewrite Zlt_Qlt in Hn2, Hd2.
  rewrite <- pow2_int in Hn1, Hd1 by lia.
  rewrite <- pow2_int in Hn2, Hd2 by lia.
  assert ((n # d) * inject_Z (Z.pos d) == inject_Z n) as Hnd.
  { unfold Qeq, Qmult, inject_Z. cbn. lia. }
  pose proof (pow2_pos a). pose proof (pow2_pos b).
  pose proof (pow2_pos (a - b)). pose proof (pow2_pos (a - b - 1)).
  pose proof (pow2_pos (a - b + 1)).
  assert (n # d < pow2 (a - b + 1)) as Hup.
  { assert (pow2 (Z.succ a) == pow2 (a - b + 1) * pow2 b) as He
      by (rewrite <- pow2_add; f_equiv; lia).
    rewrite He in Hn2. nra. }
  assert (pow2 (a - b - 1) <= n # d) as Hlow.
  { assert (pow2 a == pow2 (a - b - 1) * pow2 (Z.succ b)) as He
      by (rewrite <- pow2_add; f_equiv; lia).
    rewrite He in Hn1. nra. }
  destruct (Qle_bool (pow2 (a - b)) (n # d)) eqn:Htest.
  - apply Qle_bool_iff in Htest. split; [done|]. exact Hup.
  - split; [exact Hlow|]. replace (a - b - 1 + 1)%Z with (a - b)%Z by lia.
    destruct (Qlt_le_dec (n # d) (pow2 (a - b))) as [?|Hle]; [done|].
    apply Qle_bool_iff in Hle. congruence.
Qed.

Lemma ilog2_unique q e : pow2 e <= q -> q < pow2 (e + 1) -> ilog2 q = e.
Proof.
  intros H1 H2. pose proof (pow2_pos e).
  destruct (ilog2_spec q) as [H3 H4]; [lra|].
  assert (ilog2 q < e + 1)%Z by (apply pow2_lt_inv; lra).
  assert (e < ilog2 q + 1)%Z by (apply pow2_lt_inv; lra).
  lia.
Qed.

Lemma ilog2_mono a b : 0 < a -> a <= b -> (ilog2 a <= ilog2 b)%Z.
Proof.
  intros Ha Hab.
  destruct (ilog2_spec a Ha) as [H1 _].
  destruct (ilog2_spec b) as [_ H2]; [lra|].
  assert (ilog2 a < ilog2 b + 1)%Z by (apply pow2_lt_inv; lra).
  lia.
Qed.

Lemma ilog2_comp a b : 0 < a -> a == b -> ilog2 a = ilog2 b.
Proof.
  intros Ha Hab. destruct (ilog2_spec b) as [H1 H2]; [lra|].
  apply ilog2_unique; lra.
Qed.

Lemma ilog2_pow2 e : ilog2 (pow2 e) = e.
Proof. apply ilog2_unique; [lra | apply pow2_lt; lia]. Qed.

(** *** The nearest integer *)

Lemma rne_cases x :
  let f := Qfloor x in
  (rne x = f /\ x - inject_Z f <= 1 # 2)
  \/ (rne x = (f + 1)%Z /\ 1 # 2 <= x - inject_Z f).
Proof.
  intros f. unfold rne. fold f.
  destruct (Qcompare (x - inject_Z f) (1 # 2)) eqn:Hc.
  - apply Qeq_alt in Hc. destruct (Z.even f); [left | right]; (split; [done|lra]).
  - apply Qlt_alt in Hc. left. split; [done|lra].
  - apply Qgt_alt in Hc. right. split; [done|lra].
Qed.

Lemma floor_bounds x : inject_Z (Qfloor x) <= x /\ x < inject_Z (Qfloor x) + 1.
Proof.
  split; [apply Qfloor_le|]. pose proof (Qlt_floor x) as H.
  rewrite inject_Z_plus in H. exact H.
Qed.

Lemma rne_close x :
  inject_Z (rne x) - x <= 1 # 2 /\ x - inject_Z (rne x) <= 1 # 2.
Proof.
  destruct (floor_bounds x) as [H1 H2].
  destruct (rne_cases x) as [[-> H]|[-> H]].
  - split; lra.
  - rewrite inject_Z_plus. change (inject_Z 1) with 1. split; lra.
Qed.

Lemma rne_le_int x n : x <= inject_Z n -> (rne x <= n)%Z.
Proof.
  intros Hx. destruct (floor_bounds x) as [H1 H2].
  assert (Qfloor x <= n)%Z as Hf by (rewrite Zle_Qle; lra).
  destruct (rne_cases x) as [[-> H]|[-> H]]; [done|].
  destruct (decide (Qfloor x = n)) as [He|Hne]; [|lia].
  rewrite He in H. lra.
Qed.

Lemma rne_ge_int x n : inject_Z n <= x -> (n <= rne x)%Z.
Proof.
  intros Hx.
  assert (n <= Qfloor x)%Z as Hf.
  { rewrite <- (Qfloor_Z n). by apply Qfloor_resp_le. }
  destruct (rne_cases x) as [[-> H]|[-> H]]; lia.
Qed.

Lemma rne_int x n : x == inject_Z n -> rne x = n.
Proof.
  intros H. apply Z.le_antisymm; [apply rne_le_int | apply rne_ge_int]; lra.
Qed.

Lemma rne_three x :
  let f := Qfloor x in
  (x - inject_Z f < 1 # 2 /\ rne x = f)
  \/ (x - inject_Z f == 1 # 2 /\ rne x = if Z.even f then f else (f + 1)%Z)
  \/ (1 # 2 < x - inject_Z f /\ rne x = (f + 1)%Z).
Proof.
  intros f. unfold rne. fold f.
  destruct (Qcompare (x - inject_Z f) (1 # 2)) eqn:Hc.
  - apply Qeq_alt in Hc. right. left. by split.
  - apply Qlt_alt in Hc. left. by split.
  - apply Qgt_alt in Hc. right. right. by split.
Qed.

Lemma rne_mono x y : x <= y -> (rne x <= rne y)%Z.
Proof.
  intros Hxy.
  assert (Qfloor x <= Qfloor y)%Z as Hf by by apply Qfloor_resp_le.
  destruct (floor_bounds x) as [Hx1 Hx2]. destruct (floor_bounds y) as [Hy1 Hy2].
  destruct (decide (Qfloor x = Qfloor y)) as [He|Hne].
  - destruct (rne_three x) as [[Hx ->]|[[Hx ->]|[Hx ->]]];
      destruct (rne_three y) as [[Hy ->]|[[Hy ->]|[Hy ->]]];
      rewrite <- He in *; try (exfalso; lra);
      destruct (Z.even (Qfloor x)); lia.
  - assert (rne x <= Qfloor x + 1)%Z
      by (destruct (rne_cases x) as [[-> _]|[-> _]]; lia).
    assert (Qfloor y <= rne y)%Z
      by (destruct (rne_cases y) as [[-> _]|[-> _]]; lia).
    lia.
Qed.

(** *** The binary64 numbers around a number *)

(** [c] is a multiple of 2^E. *)
Definition on_grid (E : Z) (c : Q) : Prop :=
  exists k : Z, c == inject_Z k * pow2 E.

Lemma on_grid_weaken E' E c : (E' <= E)%Z -> on_grid E c -> on_grid E' c.
Proof.
  intros HE [k Hk]. exists (k * 2 ^ (E - E'))%Z.
  rewrite inject_Z_mult, <- pow2_int by lia.
  rewrite Hk. rewrite <- Qmult_assoc, <- pow2_add.
  by replace (E - E' + E')%Z with E by lia.
Qed.

Lemma on_grid_pow2 E e : (E <= e)%Z -> on_grid E (pow2 e).
Proof.
  intros H. apply (on_grid_weaken E e); [done|]. exists 1%Z. change (inject_Z 1) with 1. lra.
Qed.

Lemma on_grid_zero E c : c == 0 -> on_grid E c.
Proof. intros H. exists 0%Z. rewrite H. change (inject_Z 0) with 0. lra. Qed.

Lemma on_grid_plus E a b : on_grid E a -> on_grid E b -> on_grid E (a + b).
Proof.
  intros [i Hi] [j Hj]. exists (i + j)%Z. rewrite inject_Z_plus, Hi, Hj. lra.
Qed.

Lemma on_grid_comp E a b : a == b -> on_grid E a -> on_grid E b.
Proof. intros H [k Hk]. exists k. by rewrite <- H. Qed.

Lemma scaled a E k : a <= inject_Z k * pow2 E <-> a / pow2 E <= inject_Z k.
Proof.
  pose proof (pow2_pos E) as Hg. split; intros H.
  - apply Qle_shift_div_r; [done|]. lra.
  - apply (Qmult_le_r _ _ (pow2 E)) in H; [|done].
    assert (a / pow2 E * pow2 E == a) as He by (field; lra).
    lra.
Qed.

Lemma scaled' a E k : inject_Z k * pow2 E <= a <-> inject_Z k <= a / pow2 E.
Proof.
  pose proof (pow2_pos E) as Hg. split; intros H.
  - apply Qle_shift_div_l; [done|]. lra.
  - apply (Qmult_le_r _ _ (pow2 E)) in H; [|done].
    assert (a / pow2 E * pow2 E == a) as He by (field; lra).
    lra.
Qed.

Lemma nearest_le_grid a c : on_grid (quantum a) c -> a <= c -> nearest a <= c.
Proof.
  intros [k Hk] Hac. unfold nearest. rewrite Hk.
  pose proof (pow2_pos (quantum a)) as Hg.
  apply Qmult_le_compat_r; [|lra]. rewrite <- Zle_Qle.
  apply rne_le_int, scaled. lra.
Qed.

Lemma nearest_ge_grid a c : on_grid (quantum a) c -> c <= a -> c <= nearest a.
Proof.
  intros [k Hk] Hac. unfold nearest. rewrite Hk.
  pose proof (pow2_pos (quantum a)) as Hg.
  apply Qmult_le_compat_r; [|lra]. rewrite <- Zle_Qle.
  apply rne_ge_int, scaled'. lra.
Qed.

Lemma nearest_grid a : on_grid (quantum a) a -> nearest a == a.
Proof.
  intros H. apply Qle_antisym;
    [apply nearest_le_grid | apply nearest_ge_grid]; (done || lra).
Qed.

Lemma nearest_nonneg a : 0 <= a -> 0 <= nearest a.
Proof. intros H. apply nearest_ge_grid; [by apply on_grid_zero | done]. Qed.

Lemma nearest_zero a : a == 0 -> nearest a == 0.
Proof.
  intros H. transitivity a; [|done]. apply nearest_grid. by apply on_grid_zero.
Qed.

(** Half a quantum at most lies between a number and the nearest one. *)
Lemma nearest_err a :
  nearest a - a <= pow2 (quantum a - 1) /\ a - nearest a <= pow2 (quantum a - 1).
Proof.
  unfold nearest. set (E := quantum a). pose proof (pow2_pos E) as Hg.
  destruct (rne_close (a / pow2 E)) as [H1 H2].
  assert (pow2 E == 2 * pow2 (E - 1)) as Hhalf.
  { replace E with (1 + (E - 1))%Z at 1 by lia. by rewrite pow2_add. }
  assert (a / pow2 E * pow2 E == a) as He by (field; lra).
  set (m := inject_Z (rne (a / pow2 E))) in *.
  set (x := a / pow2 E) in *.
  split; nra.
Qed.

Lemma quantum_mono a b : 0 < a -> a <= b -> (quantum a <= quantum b)%Z.
Proof. intros Ha Hab. unfold quantum. pose proof (ilog2_mono a b Ha Hab). lia. Qed.

Lemma nearest_mono a b : 0 <= a -> a <= b -> nearest a <= nearest b.
Proof.
  intros Ha Hab.
  destruct (Qlt_le_dec 0 a) as [Hpos|Hzero].
  2: { rewrite (nearest_zero a) by lra. apply nearest_nonneg. lra. }
  pose proof (quantum_mono a b Hpos Hab) as HQ.
  destruct (decide (quantum a = quantum b)) as [He|Hne].
  - unfold nearest. rewrite He. pose proof (pow2_pos (quantum b)) as Hg.
    apply Qmult_le_compat_r; [|lra]. rewrite <- Zle_Qle. apply rne_mono.
    apply Qmult_le_compat_r; [done|]. apply Qlt_le_weak, Qinv_lt_0_compat, Hg.
  - assert (ilog2 a < ilog2 b)%Z as He.
    { pose proof (ilog2_mono a b Hpos Hab). unfold quantum in *. lia. }
    assert (quantum b <= ilog2 b)%Z as Hb by (unfold quantum in *; lia).
    destruct (ilog2_spec a Hpos) as [_ Ha2].
    destruct (ilog2_spec b) as [Hb1 _]; [lra|].
    assert (pow2 (ilog2 a + 1) <= pow2 (ilog2 b)) by (apply pow2_le; lia).
    apply (Qle_trans _ (pow2 (ilog2 b))).
    + apply nearest_le_grid; [|lra]. apply on_grid_pow2. lia.
    + apply nearest_ge_grid; [|lra]. by apply on_grid_pow2.
Qed.

(** A binary64 number that is not negative: a multiple of the quantum of
    its own binade. *)
Definition representable (c : Q) : Prop := 0 <= c /\ on_grid (quantum c) c.

Lemma representable_comp a b : a == b -> representable a -> representable b.
Proof.
  intros Hab [Ha Hg]. split; [lra|].
  destruct (Qlt_le_dec 0 a) as [Hpos|Hzero].
  - unfold quantum in *. rewrite <- (ilog2_comp a b Hpos Hab).
    by apply (on_grid_comp _ a).
  - apply on_grid_zero. lra.
Qed.

Lemma quantum_le_ilog2 a : (-1074 <= ilog2 a)%Z -> (quantum a <= ilog2 a)%Z.
Proof. unfold quantum. lia. Qed.

Lemma nearest_representable a : 0 <= a -> representable (nearest a).
Proof.
  intros Ha. split; [by apply nearest_nonneg|].
  destruct (Qlt_le_dec 0 (nearest a)) as [Hr|Hr];
    [|apply on_grid_zero; pose proof (nearest_nonneg a Ha); lra].
  assert (0 < a) as Hpos.
  { destruct (Qlt_le_dec 0 a) as [?|Hz]; [done|].
    rewrite (nearest_zero a) in Hr by lra. lra. }
  destruct (ilog2_spec a Hpos) as [Ha1 Ha2].
  set (e := ilog2 a) in *.
  assert (on_grid (quantum a) (nearest a)) as Hgrid by (by eexists).
  destruct (Z_lt_le_dec e (-1074)) as [Hsub|Hnorm].
  - (* below the smallest number: the result is that number *)
    assert (quantum a = (-1074)%Z) as HQ by (unfold quantum; fold e; lia).
    assert (nearest a <= pow2 (-1074)) as Hle.
    { apply nearest_le_grid; [rewrite HQ; by apply on_grid_pow2|].
      assert (pow2 (e + 1) <= pow2 (-1074)) by (apply pow2_le; lia). lra. }
    assert (pow2 (-1074) <= nearest a) as Hge.
    { destruct Hgrid as [k Hk]. rewrite HQ in Hk.
      pose proof (pow2_pos (-1074)) as Hg.
      assert (0 < inject_Z k) as Hk0 by nra.
      assert (1 <= k)%Z as Hk1.
      { change 0 with (inject_Z 0) in Hk0. rewrite <- Zlt_Qlt in Hk0. lia. }
      rewrite Zle_Qle in Hk1. change (inject_Z 1) with 1 in Hk1. nra. }
    assert (nearest a == pow2 (-1074)) as Heq by lra.
    apply (on_grid_comp _ (pow2 (-1074))); [lra|].
    unfold quantum. rewrite <- (ilog2_comp (pow2 (-1074)) (nearest a));
      [|apply pow2_pos|lra].
    rewrite ilog2_pow2. by apply on_grid_pow2.
  - assert (quantum a <= e)%Z as HQe by (by apply quantum_le_ilog2).
    assert (pow2 e <= nearest a) as Hlo
      by (apply nearest_ge_grid; [by apply on_grid_pow2 | lra]).
    assert (nearest a <= pow2 (e + 1)) as Hhi
      by (apply nearest_le_grid; [apply on_grid_pow2; lia | lra]).
    destruct (Qlt_le_dec (nearest a) (pow2 (e + 1))) as [Hin|Htop].
    + assert (ilog2 (nearest a) = e) as He by (by apply ilog2_unique).
      unfold quantum at 1. rewrite He. exact Hgrid.
    + assert (nearest a == pow2 (e + 1)) as Heq by lra.
      apply (on_grid_comp _ (pow2 (e + 1))); [lra|].
      unfold quantum. rewrite <- (ilog2_comp (pow2 (e + 1)) (nearest a));
        [|apply pow2_pos|lra].
      rewrite ilog2_pow2. apply on_grid_pow2. lia.
Qed.

Lemma nearest_of_representable c : representable c -> nearest c == c.
Proof. intros [_ H]. by apply nearest_grid. Qed.

Lemma nearest_between lo hi a :
  representable lo -> representable hi -> lo <= a -> a <= hi ->
  lo <= nearest a /\ nearest a <= hi.
Proof.
  intros Hlo Hhi H1 H2. destruct Hlo as [Hlo0 Hlog].
  pose proof (nearest_mono lo a Hlo0 H1) as Hm1.
  pose proof (nearest_mono a hi) as Hm2.
  rewrite (nearest_grid lo Hlog) in Hm1.
  rewrite (nearest_of_representable hi Hhi) in Hm2.
  split; [done|]. apply Hm2; lra.
Qed.

(** *** What an operation gives *)

Lemma Qneg_comp a b : a == b -> Qneg a = Qneg b.
Proof.
  intros H. unfold Qneg.
  destruct (Qlt_le_dec a 0), (Qlt_le_dec b 0); (done || lra).
Qed.

Lemma Qneg_nonneg a : 0 <= a -> Qneg a = false.
Proof. intros H. unfold Qneg. destruct (Qlt_le_dec a 0); [lra | done]. Qed.

Lemma Qneg_neg a : a < 0 -> Qneg a = true.
Proof. intros H. unfold Qneg. destruct (Qlt_le_dec a 0); [done | lra]. Qed.

Lemma fin_comp a b : a == b -> fin a = fin b.
Proof. intros H. unfold fin. f_equal. by apply Qred_complete. Qed.

Lemma Qle_bool_comp a b c d : a == b -> c == d -> Qle_bool a c = Qle_bool b d.
Proof.
  intros H1 H2. destruct (Qle_bool a c) eqn:Ha, (Qle_bool b d) eqn:Hb; try done.
  - apply Qle_bool_iff in Ha. rewrite H1, H2 in Ha. apply Qle_bool_iff in Ha.
    congruence.
  - apply Qle_bool_iff in Hb. rewrite <- H1, <- H2 in Hb.
    apply Qle_bool_iff in Hb. congruence.
Qed.

Lemma rne_comp x y : x == y -> rne x = rne y.
Proof. intros H. apply Z.le_antisymm; apply rne_mono; lra. Qed.

Lemma nearest_comp a b : 0 <= a -> a == b -> nearest a == nearest b.
Proof.
  intros Ha H. apply Qle_antisym; apply nearest_mono; lra.
Qed.

Lemma binary64_comp a b : a == b -> binary64 a = binary64 b.
Proof.
  intros H. unfold binary64.
  by rewrite (Qred_complete a b H), (Qneg_comp a b H).
Qed.

Lemma binary64_nonneg a :
  0 <= a ->
  binary64 a
  = if Qle_bool (pow2 1024) (nearest a) then Inf false else fin (nearest a).
Proof.
  intros Ha. unfold binary64. rewrite (Qneg_nonneg a Ha).
  assert (Qabs (Qred a) == a) as He
    by (rewrite Qred_correct; by apply Qabs_pos).
  assert (nearest (Qabs (Qred a)) == nearest a) as Hn
    by (apply nearest_comp; [apply Qabs_nonneg | done]).
  rewrite (Qle_bool_comp _ (pow2 1024) _ (nearest a)) by (done || lra).
  destruct (Qle_bool _ _); [done|]. by apply fin_comp.
Qed.

Lemma binary64_not_NaN a : binary64 a <> NaN.
Proof. unfold binary64, fin. by destruct (Qle_bool _ _). Qed.

(** A sum, product or quotient that is not positive is not [> 0]. *)
Lemma binary64_nonpos a : a <= 0 -> gt (binary64 a) zero = false.
Proof.
  intros Ha. unfold binary64.
  pose proof (nearest_nonneg (Qabs (Qred a)) (Qabs_nonneg _)) as Hr.
  destruct (Qlt_le_dec a 0) as [Hneg|Hzero].
  - rewrite (Qneg_neg a Hneg). destruct (Qle_bool _ _); [done|].
    unfold fin, gt, zero. destruct (Qlt_le_dec 0 _) as [H|H]; [|done].
    rewrite Qred_correct in H. lra.
  - assert (a == 0) as H0 by lra.
    rewrite (Qneg_nonneg a Hzero).
    assert (nearest (Qabs (Qred a)) == 0) as Hn.
    { apply nearest_zero. rewrite Qred_correct, H0. reflexivity. }
    destruct (Qle_bool _ _) eqn:Hover.
    { apply Qle_bool_iff in Hover. pose proof (pow2_pos 1024). lra. }
    unfold fin, gt, zero. destruct (Qlt_le_dec 0 _) as [H|H]; [|done].
    rewrite Qred_correct in H. lra.
Qed.

Lemma lt_pow2_1024 a : a <= pow2 1023 -> Qle_bool (pow2 1024) a = false.
Proof.
  intros H. destruct (Qle_bool _ _) eqn:Hb; [|done].
  apply Qle_bool_iff in Hb.
  assert (pow2 1023 < pow2 1024) by (apply pow2_lt; lia). lra.
Qed.

(** Between two binary64 numbers the result stays between them. *)
Lemma binary64_between lo hi a :
  representable lo -> representable hi -> hi <= pow2 1023 ->
  lo <= a -> a <= hi ->
  exists r, binary64 a = Fin r /\ r == nearest a /\ lo <= r /\ r <= hi.
Proof.
  intros Hlo Hhi Hmax H1 H2.
  destruct (nearest_between lo hi a Hlo Hhi H1 H2) as [Hn1 Hn2].
  destruct Hlo as [Hlo0 _].
  rewrite binary64_nonneg by lra. rewrite lt_pow2_1024 by lra.
  exists (Qred (nearest a)). split; [done|]. rewrite Qred_correct.
  split; [reflexivity | by split].
Qed.

(** A finite result is a binary64 number. *)
Lemma binary64_representable a q : binary64 a = Fin q -> representable (Qabs q).
Proof.
  unfold binary64, fin. destruct (Qle_bool _ _); [done|]. intros [= <-].
  apply (representable_comp (nearest (Qabs (Qred a))));
    [|apply nearest_representable, Qabs_nonneg].
  pose proof (nearest_nonneg (Qabs (Qred a)) (Qabs_nonneg _)) as Hr.
  set (r := nearest (Qabs (Qred a))) in *.
  destruct (Qneg a).
  - rewrite (Qabs_wd _ _ (Qred_correct (- r))), Qabs_opp.
    symmetry. by apply Qabs_pos.
  - rewrite (Qabs_wd _ _ (Qred_correct r)). symmetry. by apply Qabs_pos.
Qed.

Lemma representable_zero c : c == 0 -> representable c.
Proof. intros H. split; [lra | by apply on_grid_zero]. Qed.

Lemma representable_pow2 e : (-1074 <= e)%Z -> representable (pow2 e).
Proof.
  intros H. pose proof (pow2_pos e). split; [lra|].
  unfold quantum. rewrite ilog2_pow2. apply on_grid_pow2. lia.
Qed.

Lemma representable_int n : (0 <= n < 2 ^ 53)%Z -> representable (inject_Z n).
Proof.
  intros [H0 H53].
  destruct (decide (n = 0%Z)) as [->|Hn]; [by apply representable_zero|].
  assert (0 < inject_Z n) as Hpos.
  { change 0 with (inject_Z 0). rewrite <- Zlt_Qlt. lia. }
  split; [lra|].
  destruct (ilog2_spec _ Hpos) as [He _].
  assert (inject_Z n < pow2 53) as Hlt.
  { rewrite pow2_int by lia. by rewrite <- Zlt_Qlt. }
  assert (ilog2 (inject_Z n) < 53)%Z by (apply pow2_lt_inv; lra).
  apply (on_grid_weaken _ 0); [unfold quantum; lia|].
  exists n. change (pow2 0) with 1. lra.
Qed.

(** The rounding at numbers whose binary64 value is known: 0.1; the ties
    2^53 + 1 and 2^53 + 3, which go to the even neighbour; the first number
    that overflows; half the smallest number, which underflows to 0, and
    three halves of it; the quotient, the products and the rounding behind
    the percentage of 23 and 137; two sums and two literals out of range. *)
Example binary64_examples :
  binary64 (1 # 10) = Fin (3602879701896397 # 36028797018963968)
  /\ binary64 9007199254740993 = Fin 9007199254740992
  /\ binary64 9007199254740995 = Fin 9007199254740996
  /\ binary64 (pow2 1024 - pow2 970) = Inf false
  /\ binary64 (pow2 (-1075)) = Fin 0
  /\ binary64 (3 * pow2 (-1075)) = binary64 (pow2 (-1073))
  /\ div (Fin 23) (Fin 160) = Fin (2589569785738035 # 18014398509481984)
  /\ round (mul (mul (div (Fin 23) (Fin 160)) hundred) hundred) = Fin 1437
  /\ add (Number "1e308") (Number "1e308") = Inf false
  /\ add (Number "0.1") (Number "0.2") = Fin (1351079888211149 # 4503599627370496)
  /\ Number "1e-400" = Fin 0
  /\ Number "1.7976931348623159e308" = Inf false.
Proof.
  repeat (match goal with |- _ /\ _ => split end); vm_compute; reflexivity.
Qed.

(** *** How far the result is from the exact value *)

Lemma nearest_rel_err a :
  pow2 (-1022) <= a ->
  nearest a - a <= a * pow2 (-53) /\ a - nearest a <= a * pow2 (-53).
Proof.
  intros Ha. pose proof (pow2_pos (-1022)) as Hmin.
  destruct (ilog2_spec a) as [He1 He2]; [lra|].
  assert (-1022 <= ilog2 a)%Z.
  { assert (-1022 < ilog2 a + 1)%Z by (apply pow2_lt_inv; lra). lia. }
  assert (quantum a - 1 = ilog2 a + -53)%Z as HQ by (unfold quantum; lia).
  destruct (nearest_err a) as [Hn1 Hn2]. rewrite HQ, pow2_add in Hn1, Hn2.
  pose proof (pow2_pos (-53)). split; nra.
Qed.

Lemma nearest_abs_err a :
  0 <= a ->
  nearest a - a <= a * pow2 (-53) + pow2 (-1075)
  /\ a - nearest a <= a * pow2 (-53) + pow2 (-1075).
Proof.
  intros Ha. pose proof (pow2_pos (-53)). pose proof (pow2_pos (-1075)).
  destruct (Qlt_le_dec a (pow2 (-1022))) as [Hsub|Hnorm].
  2: { destruct (nearest_rel_err a Hnorm). split; nra. }
  destruct (Qlt_le_dec 0 a) as [Hpos|Hzero].
  2: { rewrite (nearest_zero a) by lra. split; nra. }
  destruct (ilog2_spec a Hpos) as [He1 He2].
  assert (ilog2 a < -1022)%Z by (apply pow2_lt_inv; lra).
  assert (quantum a - 1 = -1075)%Z as HQ by (unfold quantum; lia).
  destruct (nearest_err a) as [Hn1 Hn2]. rewrite HQ in Hn1, Hn2. split; nra.
Qed.

Lemma representable_on_min_grid c : representable c -> on_grid (-1074) c.
Proof. intros [_ H]. apply (on_grid_weaken _ (quantum c)); [unfold quantum; lia | done]. Qed.

(** The sum of two binary64 numbers is rounded with a relative error of
    2^-53 at most: below 2^-1022 it is exact. *)
Lemma nearest_sum_err p l :
  representable p -> representable l ->
  nearest (p + l) - (p + l) <= (p + l) * pow2 (-53)
  /\ (p + l) - nearest (p + l) <= (p + l) * pow2 (-53).
Proof.
  intros Hp Hl. pose proof (pow2_pos (-53)).
  assert (0 <= p + l) as H0 by (destruct Hp, Hl; lra).
  destruct (Qlt_le_dec (p + l) (pow2 (-1022))) as [Hsub|Hnorm];
    [|by apply nearest_rel_err].
  assert (nearest (p + l) == p + l) as ->; [|split; nra].
  destruct (Qlt_le_dec 0 (p + l)) as [Hpos|Hzero];
    [|apply nearest_grid, on_grid_zero; lra].
  apply nearest_grid.
  destruct (ilog2_spec _ Hpos) as [He1 He2].
  assert (ilog2 (p + l) < -1022)%Z by (apply pow2_lt_inv; lra).
  replace (quantum (p + l)) with (-1074)%Z by (unfold quantum; lia).
  apply on_grid_plus; by apply representable_on_min_grid.
Qed.

End Binary64Facts.

(** ** The attendance percentage *)

Module AttendanceFacts.
Import Js Num Student Attendance Binary64Facts.
Local Open Scope Q_scope.

(** The number a numeric property counts as: [null] counts as 0. *)
Definition numeric (v : numval) : Q :=
  match v with
  | Num (Fin q) => q
  | _ => 0
  end.

(** What getNumOrNull can give: [null] or a finite number. *)
Definition finite_or_null (v : numval) : bool :=
  match v with
  | Null | Num (Fin _) => true
  | Num _ => false
  end.

(** A finite number in the property is a binary64 number. *)
Definition double (v : numval) : Prop :=
  match v with
  | Num (Fin q) => representable (Qabs q)
  | _ => True
  end.

(** [r] is within [d] of [v]. *)
Definition within (d r v : Q) : Prop := r - v <= d /\ v - r <= d.

(** [v || 0] of a finite-or-null property is the number it counts as. *)
Lemma orZero_numeric v :
  finite_or_null v = true ->
  exists q, orZero (Some v) = Fin q /\ q == numeric v.
Proof.
  destruct v as [|[q| |]]; try done; intros _.
  - by exists 0.
  - cbn [orZero truthy numeric]. unfold Qzero.
    destruct (Qeq_bool q 0) eqn:Hq; cbn [negb].
    + exists 0. split; [done|]. symmetry. by apply Qeq_bool_eq.
    + by exists q.
Qed.

Lemma toNumber_numeric v :
  finite_or_null v = true -> toNumber (Some v) = Fin (numeric v).
Proof. by destruct v as [|[]]. Qed.

Lemma Qzero_pos t : 0 < t -> Qzero t = false.
Proof.
  intros Ht. unfold Qzero. destruct (Qeq_bool t 0) eqn:H; [|done].
  apply Qeq_bool_eq in H. lra.
Qed.

Lemma Number_double s :
  match Number s with Fin q => representable (Qabs q) | _ => True end.
Proof.
  unfold Number. destruct (trim s) as [|c r]; [by apply representable_zero|].
  destruct (non_decimal _) as [q|].
  { unfold of_decimal. destruct (binary64 q) eqn:H; [|done..].
    by apply (binary64_representable q). }
  destruct (if Ascii.eqb c "-" then _ else _) as [negative u].
  destruct (String.eqb u "Infinity"); [done|].
  destruct (unsigned_decimal u) as [q|]; [|done].
  unfold of_decimal.
  destruct (binary64 _) eqn:H; [|done..]. by eapply binary64_representable.
Qed.

(** [v || 0] of a number getNumOrNull gives is a binary64 number. *)
Lemma orZero_double v :
  finite_or_null v = true -> double v -> 0 <= numeric v ->
  exists q, orZero (Some v) = Fin q /\ q == numeric v /\ representable q.
Proof.
  intros Fv Dv Hv. destruct (orZero_numeric v Fv) as (q & Hq & Hq').
  exists q. split; [done|]. split; [done|].
  destruct v as [|[x| |]]; try done.
  - apply representable_zero. cbn in Hq'. lra.
  - cbn in Dv, Hq', Hv. apply (representable_comp (Qabs x)); [|done].
    rewrite Hq'. by apply Qabs_pos.
Qed.

(** *** The three roundings from the counts to the hundredths *)

Definition u53 : Q := pow2 (-53).
Definition eta : Q := pow2 (-1075).

Lemma u53_small : 0 < u53 /\ u53 <= 1 # 9000000000000000.
Proof.
  split; [apply pow2_pos|]. apply Qle_bool_imp_le. vm_compute. reflexivity.
Qed.

Lemma eta_small : 0 < eta /\ eta <= 1 # 100000000000000000000.
Proof.
  split; [apply pow2_pos|]. apply Qle_bool_imp_le. vm_compute. reflexivity.
Qed.

Lemma representable_consts :
  representable 0 /\ representable 1 /\ representable 100
  /\ representable 10000.
Proof.
  repeat split;
    first [ apply (representable_int 0) | apply (representable_int 1)
          | apply (representable_int 100) | apply (representable_int 10000) ];
    lia.
Qed.

Lemma below_max c : c <= 10000 -> c <= pow2 1023.
Proof.
  intros H. assert (pow2 14 <= pow2 1023) by (apply pow2_le; lia).
  assert (10000 <= pow2 14) by (apply Qle_bool_imp_le; vm_compute; reflexivity).
  lra.
Qed.

(** The end of deriveAttendance on a percentage. *)
Definition hundredths (percentage : jsnum) : jsnum :=
  if isFinite percentage then div (round (mul percentage hundred)) hundred
  else zero.

Lemma hundredths_zero : hundredths zero = zero.
Proof. vm_compute. reflexivity. Qed.

Lemma mul_zero_hundred : mul zero hundred = zero.
Proof. vm_compute. reflexivity. Qed.

(** From a percentage between 0 and 100 to a number of hundredths. *)
Lemma hundredths_range y :
  0 <= y -> y <= 100 ->
  exists q (R : Z),
    hundredths (Fin y) = Fin q /\ 0 <= q /\ q <= 100
    /\ Fin q = binary64 (inject_Z R / 100)
    /\ within ((1 # 2) + (y * 100 * u53 + eta)) (inject_Z R) (y * 100).
Proof.
  intros H0 H100. destruct representable_consts as (R0 & R1 & R100 & R10000).
  unfold hundredths. cbn [isFinite]. unfold hundred. cbn [mul].
  destruct (binary64_between 0 10000 (y * 100) R0 R10000) as (z & -> & Hz & Hz0 & Hz1);
    [by apply below_max | lra | lra |].
  cbn [round]. set (R := Qfloor (z + (1 # 2))).
  unfold fin. cbn [div]. change (Qzero 100) with false. cbv iota.
  rewrite (binary64_comp _ (inject_Z R / 100))
    by (by rewrite Qred_correct).
  destruct (floor_bounds (z + (1 # 2))) as [HR1 HR2]. fold R in HR1, HR2.
  assert (0 <= R <= 10000)%Z as [HRlo HRhi].
  { split.
    - change 0%Z with (Qfloor 0). apply Qfloor_resp_le. lra.
    - change 10000%Z with (Qfloor (10000 + (1 # 2))). apply Qfloor_resp_le. lra. }
  rewrite Zle_Qle in HRlo, HRhi.
  change (inject_Z 0) with 0 in HRlo. change (inject_Z 10000) with 10000 in HRhi.
  destruct (binary64_between 0 100 (inject_Z R / 100) R0 R100)
    as (q & Hq & _ & Hq0 & Hq1).
  { apply below_max. lra. }
  { apply Qle_shift_div_l; lra. }
  { apply Qle_shift_div_r; lra. }
  exists q, R. rewrite Hq. split; [done|]. split; [done|]. split; [done|].
  split; [done|].
  destruct (nearest_abs_err (y * 100)) as [He1 He2]; [lra|].
  fold u53 eta in He1, He2. rewrite <- Hz in He1, He2.
  unfold within. split; lra.
Qed.

(** From two counts that are not negative to the percentage. *)
Lemma quotient_range p p' l' :
  p' == p -> representable p' -> representable l' -> 0 < p' + l' ->
  let total := add (Fin p') (Fin l') in
  let percentage :=
    if gt total zero then mul (div (Fin p) total) hundred else zero in
  (percentage = zero /\ pow2 1023 < p' + l')
  \/ exists y,
       percentage = Fin y /\ 0 <= y /\ y <= 100
       /\ (p' + l' <= pow2 1023 ->
           within (300 * u53 + 101 * eta) y (100 * (p / (p' + l')))).
Proof.
  intros Hp Rp Rl Hpos total percentage.
  destruct representable_consts as (R0 & R1 & R100 & R10000).
  destruct u53_small as [Hu _]. destruct eta_small as [Heta _].
  assert (0 <= p' /\ 0 <= l') as [Hp0 Hl0] by (destruct Rp, Rl; by split).
  set (T := p' + l') in *.
  assert (p' <= nearest T /\ l' <= nearest T) as [Hpt Hlt].
  { split.
    - rewrite <- (nearest_of_representable p' Rp).
      apply nearest_mono; unfold T; lra.
    - rewrite <- (nearest_of_representable l' Rl).
      apply nearest_mono; unfold T; lra. }
  unfold percentage, total. cbn [add]. fold T.
  rewrite binary64_nonneg by lra.
  destruct (Qle_bool (pow2 1024) (nearest T)) eqn:Hover.
  { left. cbn [gt div]. split; [apply mul_zero_hundred|].
    destruct (Qlt_le_dec (pow2 1023) T) as [?|Hmax]; [done|]. exfalso.
    destruct (nearest_between 0 (pow2 1023) T) as [_ Hn];
      [done | by apply representable_pow2 | lra | done |].
    by rewrite lt_pow2_1024 in Hover. }
  right. unfold fin. set (t := Qred (nearest T)).
  assert (t == nearest T) as Ht by apply Qred_correct.
  assert (0 < t) as Htpos by (unfold T in *; lra).
  unfold gt, zero. destruct (Qlt_le_dec 0 t) as [_|?]; [|lra].
  cbn [div]. rewrite (Qzero_pos t Htpos).
  set (a := p / t).
  assert (a * t == p) as Hat by (unfold a; field; lra).
  assert (0 <= a) as Ha0 by (apply Qle_shift_div_l; lra).
  assert (a <= 1) as Ha1 by (apply Qle_shift_div_r; lra).
  destruct (binary64_between 0 1 a R0 R1) as (x & -> & Hx & Hx0 & Hx1);
    [apply below_max; lra | done..|].
  unfold hundred. cbn [mul].
  destruct (binary64_between 0 100 (x * 100) R0 R100)
    as (y & -> & Hy & Hy0 & Hy1); [apply below_max; lra | lra | lra |].
  exists y. split; [done|]. split; [done|]. split; [done|].
  intros Hmax.
  (* the rounded sum *)
  destruct (nearest_sum_err p' l' Rp Rl) as [Ht1 Ht2].
  fold T u53 in Ht1, Ht2. rewrite <- Ht in Ht1, Ht2.
  (* the exact quotient and the computed one *)
  set (rho := p / T).
  assert (rho * T == p) as Hrho by (unfold rho; field; lra).
  assert (a * (T - t) <= T * u53 /\ a * (t - T) <= T * u53) as [Hd1 Hd2].
  { split; nra. }
  assert (within u53 a rho) as [Har1 Har2].
  { unfold within. split.
    - apply (Qmult_le_r _ _ T); [done|]. nra.
    - apply (Qmult_le_r _ _ T); [done|]. nra. }
  destruct (nearest_abs_err a Ha0) as [Hx1' Hx2'].
  fold u53 eta in Hx1', Hx2'. rewrite <- Hx in Hx1', Hx2'.
  destruct (nearest_abs_err (x * 100)) as [Hy1' Hy2']; [lra|].
  fold u53 eta in Hy1', Hy2'. rewrite <- Hy in Hy1', Hy2'.
  assert (a * u53 <= u53) by nra.
  assert (x * 100 * u53 <= 100 * u53) by nra.
  unfold within. split; lra.
Qed.

(** deriveAttendance on two counts that are not negative: a finite number
    between 0 and 100, and, when the sum is positive and no more than
    2^1023, the binary64 number nearest to a number of hundredths that is
    nearest to the exact percentage, up to 10^-11 of a hundredth. *)
Lemma deriveAttendance_nonneg (row : gmap string numval) pv lv :
  row !! "present_today"%string = Some pv ->
  row !! "leave_taken"%string = Some lv ->
  finite_or_null pv = true -> finite_or_null lv = true ->
  double pv -> double lv ->
  0 <= numeric pv -> 0 <= numeric lv ->
  exists q,
    deriveAttendance row = Fin q /\ 0 <= q /\ q <= 100
    /\ (0 < numeric pv + numeric lv -> numeric pv + numeric lv <= pow2 1023 ->
        exists R : Z,
          deriveAttendance row = binary64 (inject_Z R / 100)
          /\ within ((1 # 2) + (1 # 100000000000))
               (inject_Z R)
               (10000 * (numeric pv / (numeric pv + numeric lv)))).
Proof.
  intros Hrp Hrl Fp Fl Dp Dl Hp0 Hl0. unfold deriveAttendance. rewrite Hrp, Hrl.
  destruct (orZero_numeric pv Fp) as (p' & -> & Hp').
  destruct (orZero_numeric lv Fl) as (l' & -> & Hl').
  rewrite (toNumber_numeric pv Fp).
  set (p := numeric pv) in *. set (l := numeric lv) in *.
  assert (representable p') as Rp.
  { destruct pv as [|[q| |]]; try done.
    - apply representable_zero. cbn in Hp'. lra.
    - cbn in Dp, Hp', Hp0. fold p in Hp0.
      apply (representable_comp (Qabs q)); [|done].
      rewrite Hp'. apply Qabs_pos. exact Hp0. }
  assert (representable l') as Rl.
  { destruct lv as [|[q| |]]; try done.
    - apply representable_zero. cbn in Hl'. lra.
    - cbn in Dl, Hl', Hl0. fold l in Hl0.
      apply (representable_comp (Qabs q)); [|done].
      rewrite Hl'. apply Qabs_pos. exact Hl0. }
  fold (hundredths
          (if gt (add (Fin p') (Fin l')) zero
           then mul (div (Fin p) (add (Fin p') (Fin l'))) hundred else zero)).
  destruct (Qlt_le_dec 0 (p' + l')) as [Hpos|Hzero].
  2: { cbn [add]. rewrite binary64_nonpos by done. rewrite hundredths_zero.
       exists 0. split; [done|]. split; [lra|]. split; [lra|]. intros; lra. }
  destruct (quotient_range p p' l' Hp' Rp Rl Hpos)
    as [[-> Hover]|(y & -> & Hy0 & Hy1 & Hy)].
  { rewrite hundredths_zero. exists 0. split; [done|]. split; [lra|].
    split; [lra|]. intros _ Hmax. lra. }
  destruct (hundredths_range y Hy0 Hy1) as (q & R & Hq & Hq0 & Hq1 & HR & Hclose).
  exists q. split; [done|]. split; [done|]. split; [done|].
  intros _ Hmax. exists R. split; [by rewrite Hq, HR|].
  destruct Hy as [Hy2 Hy3]; [lra|]. destruct Hclose as [Hc1 Hc2].
  destruct u53_small as [Hu Hu']. destruct eta_small as [Heta Heta'].
  assert (p / (p + l) == p / (p' + l')) as Hsame by (by rewrite Hp', Hl').
  assert (y * 100 * u53 <= 10000 * u53) by nra.
  unfold within. split; lra.
Qed.


Lemma mul_not_NaN x : x <> NaN -> mul x hundred <> NaN.
Proof.
  destruct x as [a| |s]; [|done|]; intros _; unfold hundred; cbn [mul].
  - apply binary64_not_NaN.
  - by change (Qzero 100) with false.
Qed.

Lemma div_hundred_not_NaN x : x <> NaN -> div x hundred <> NaN.
Proof.
  destruct x as [a| |s]; [|done|]; intros _; unfold hundred; cbn [div].
  - change (Qzero 100) with false. apply binary64_not_NaN.
  - done.
Qed.

Lemma hundredths_not_NaN perc : hundredths perc <> NaN.
Proof.
  unfold hundredths. destruct perc as [y| |s]; cbn [isFinite]; [|done..].
  apply div_hundred_not_NaN.
  destruct (mul (Fin y) hundred) as [z| |s] eqn:Hz; cbn [round]; try done.
  by apply (mul_not_NaN (Fin y)) in Hz.
Qed.


(** Non-finite inputs of deriveAttendance itself: a NaN or infinite present
    count and an infinite leave count give 0, but a NaN leave count is
    falsy, counts as 0 in the sum and leaves 100 for a positive present
    count.  No such input comes out of getNumOrNull. *)
Example deriveAttendance_non_finite :
  let on p l : jsnum :=
    deriveAttendance (<["present_today"%string := Num p]>
                        (<["leave_taken"%string := Num l]> ∅)) in
  on NaN (Fin 5) = zero /\ on (Inf false) (Fin 5) = zero
  /\ on (Fin 5) (Inf false) = zero /\ on (Fin 5) NaN = hundred.
Proof.
  intros. repeat (match goal with |- _ /\ _ => split end); vm_compute; reflexivity.
Qed.

(** 18 and 2 give 90, 0 and 0 give 0.  23 and 137 give the binary64 number
    nearest to 14.37: the exact percentage is 14.375, the product
    14.375 x 100 is computed as 1437.4999999999998 and rounds down. *)
Example deriveAttendance_examples :
  let on p l : jsnum :=
    deriveAttendance (<["present_today"%string := Num (Fin p)]>
                        (<["leave_taken"%string := Num (Fin l)]> ∅)) in
  on 18 2 = Fin 90 /\ on 0 0 = Fin 0
  /\ on 23 137 = binary64 (1437 # 100)
  /\ 23 / (23 + 137) * 100 == 14375 # 1000.
Proof.
  intros. repeat (match goal with |- _ /\ _ => split end); vm_compute; reflexivity.
Qed.

End AttendanceFacts.

(** ** Rows, payloads and the row loop *)

Module SyncFacts.
Import Js Num Student Normalize Attendance Sync Binary64Facts AttendanceFacts.

(** The five properties the blank-academic branch deletes. *)
Definition academic_group : list string :=
  (academic_fields ++ ["attendance_percentage"])%list.

(** Membership of a given name in one of the lists of names above. *)
Ltac in_list :=
  unfold academic_group, academic_fields; cbn [app];
  repeat first [apply list_elem_of_here | apply list_elem_of_further].

(** No given name is in a list of other names. *)
Ltac out_of_list H :=
  exfalso; unfold academic_group, academic_fields in H; cbn [app] in H;
  repeat (apply elem_of_cons in H as [H | H]; [discriminate H|]);
  by apply elem_of_nil in H.

(** *** trim *)

Lemma trimEnd_idem s : trimEnd (trimEnd s) = trimEnd s.
Proof.
  induction s as [|c s IH]; [done|]. cbn [trimEnd].
  destruct (is_ws c && negb (nonempty (trimEnd s))) eqn:H; [done|].
  cbn [trimEnd]. by rewrite IH, H.
Qed.

Lemma trimStart_trimEnd s :
  trimStart s = s -> trimStart (trimEnd s) = trimEnd s.
Proof.
  destruct s as [|c s]; [done|]. cbn [trimStart trimEnd].
  destruct (is_ws c) eqn:Hc.
  - intros H. exfalso.
    assert (forall t, String.length (trimStart t) <= String.length t)%nat as Hlen.
    { clear. induction t as [|a t IH]; [done|]. cbn [trimStart].
      destruct (is_ws a); cbn [String.length]; lia. }
    specialize (Hlen s). rewrite H in Hlen. cbn [String.length] in Hlen. lia.
  - intros _. cbn [andb trimStart]. by rewrite Hc.
Qed.

Lemma trimStart_idem s : trimStart (trimStart s) = trimStart s.
Proof.
  induction s as [|c s IH]; [done|]. cbn [trimStart].
  destruct (is_ws c) eqn:Hc; [done|]. cbn [trimStart]. by rewrite Hc.
Qed.

Lemma trim_idem s : trim (trim s) = trim s.
Proof.
  unfold trim. rewrite trimStart_trimEnd by apply trimStart_idem.
  apply trimEnd_idem.
Qed.

(** *** What mapRowToStudent builds *)

Section Normalized.
Variable headerIndex : gmap string nat.
Variable row : list string.

Local Abbreviation s := (mapRowToStudent headerIndex row).
Local Abbreviation getStr := (getStrOrEmpty headerIndex row).
Local Abbreviation getNum := (getNumOrNull headerIndex row).

Lemma getStr_trimmed k : trim (getStr k) = getStr k.
Proof.
  unfold getStrOrEmpty. destruct (nonempty (trim _)); [apply trim_idem | done].
Qed.

Lemma getNum_finite k : finite_or_null (getNum k) = true.
Proof.
  unfold getNumOrNull. destruct (headerIndex !! k); [|done].
  destruct (row !! _); [|done]. destruct (nonempty _); [|done].
  by destruct (Number _).
Qed.

(** A number getNumOrNull gives is a binary64 number. *)
Lemma getNum_double k : double (getNum k).
Proof.
  unfold getNumOrNull. destruct (headerIndex !! k); [|done].
  destruct (row !! _) as [raw|]; [|done]. destruct (nonempty _); [|done].
  pose proof (Number_double (trim raw)) as H.
  by destruct (Number (trim raw)).
Qed.

(** The department after the fallback on the class. *)
Definition department_of : string :=
  if negb (nonempty (getStr "department")) && nonempty (getStr "class")
  then getStr "class" else getStr "department".

Lemma department_trimmed : trim department_of = department_of.
Proof. unfold department_of. destruct (_ && _); apply getStr_trimmed. Qed.

Lemma nums_normalized k :
  nums s !! k = if bool_decide (k ∈ academic_fields) then Some (getNum k) else None.
Proof.
  unfold mapRowToStudent. cbn [nums].
  case_bool_decide as Hk.
  - unfold academic_fields in Hk.
    repeat (apply elem_of_cons in Hk as [-> | Hk]; [by simplify_map_eq|]).
    by apply elem_of_nil in Hk.
  - unfold academic_fields in Hk.
    repeat (rewrite lookup_insert_ne by (intros <-; apply Hk; in_list)).
    done.
Qed.

Lemma text_normalized k :
  k ∈ ["register_no"; "name"; "father_name"; "mother_name"; "address"; "class";
       "year"; "email"; "phone_number"; "profile_image_url"] ->
  text s !! k = Some (getStr k).
Proof.
  intros Hk. unfold mapRowToStudent. cbn [text].
  repeat (apply elem_of_cons in Hk as [-> | Hk]; [by simplify_map_eq|]).
  by apply elem_of_nil in Hk.
Qed.

Lemma department_normalized : text s !! "department" = Some department_of.
Proof. unfold mapRowToStudent. cbn [text]. by simplify_map_eq. Qed.

Lemma text_normalized_trimmed k v : text s !! k = Some v -> trim v = v.
Proof.
  unfold mapRowToStudent. cbn [text]. intros H.
  repeat (apply lookup_insert_Some in H as [[_ <-] | [_ H]];
          [first [apply getStr_trimmed | apply department_trimmed]|]).
  done.
Qed.

(** The first loop of the row loop changes nothing on a normalised row. *)
Lemma trimStrings_normalized : trimStrings s = s.
Proof.
  unfold trimStrings.
  assert (trim <$> text s = text s) as ->; [|by destruct s].
  apply map_eq. intros k. rewrite lookup_fmap.
  destruct (text s !! k) as [v|] eqn:Hv; [|done]. cbn. f_equal.
  by apply (text_normalized_trimmed k).
Qed.

Lemma text_normalized_academic k :
  k ∈ academic_group -> text s !! k = None.
Proof.
  intros Hk. unfold mapRowToStudent. cbn [text].
  unfold academic_group, academic_fields in Hk. cbn [app] in Hk.
  repeat (apply elem_of_cons in Hk as [-> | Hk]; [by simplify_map_eq|]).
  by apply elem_of_nil in Hk.
Qed.

Lemma nums_academic k : k ∈ academic_fields -> nums s !! k = Some (getNum k).
Proof. intros Hk. rewrite nums_normalized. by rewrite bool_decide_eq_true_2. Qed.

Lemma nums_other k : k ∉ academic_fields -> nums s !! k = None.
Proof. intros Hk. rewrite nums_normalized. by rewrite bool_decide_eq_false_2. Qed.

Definition is_null (v : numval) : bool :=
  match v with Null => true | Num _ => false end.

(** All four academic cells of the row are blank, missing or not a finite
    number. *)
Definition blank_academic : bool :=
  forallb (fun k => is_null (getNum k)) academic_fields.

Lemma notNull_Some v : notNull (Some v) = negb (is_null v).
Proof. by destruct v. Qed.

Lemma hasAcademicData_normalized : hasAcademicData s = negb blank_academic.
Proof.
  unfold hasAcademicData, blank_academic, academic_fields. cbn [forallb].
  rewrite !nums_academic by in_list.
  rewrite !notNull_Some, andb_true_r, !negb_andb. by rewrite !orb_assoc.
Qed.

Lemma attach_normalized :
  attach s
  = if blank_academic then deleteAcademic s
    else set_num "attendance_percentage" (deriveAttendance (nums s)) s.
Proof.
  unfold attach. rewrite hasAcademicData_normalized, negb_involutive. done.
Qed.

End Normalized.

(** *** Properties of an object after the writes of the payload step *)

Lemma nums_deleteAcademic o k :
  nums (deleteAcademic o) !! k
  = if bool_decide (k ∈ academic_group) then None else nums o !! k.
Proof.
  unfold deleteAcademic, delete_prop. cbn [nums].
  case_bool_decide as Hk.
  - unfold academic_group, academic_fields in Hk. cbn [app] in Hk.
    repeat (apply elem_of_cons in Hk as [-> | Hk]; [by simplify_map_eq|]).
    by apply elem_of_nil in Hk.
  - unfold academic_group, academic_fields in Hk. cbn [app] in Hk.
    repeat (rewrite lookup_delete_ne by (intros <-; apply Hk; in_list)).
    done.
Qed.

Lemma text_deleteAcademic o k :
  text (deleteAcademic o) !! k
  = if bool_decide (k ∈ academic_group) then None else text o !! k.
Proof.
  unfold deleteAcademic, delete_prop. cbn [text].
  case_bool_decide as Hk.
  - unfold academic_group, academic_fields in Hk. cbn [app] in Hk.
    repeat (apply elem_of_cons in Hk as [-> | Hk]; [by simplify_map_eq|]).
    by apply elem_of_nil in Hk.
  - unfold academic_group, academic_fields in Hk. cbn [app] in Hk.
    repeat (rewrite lookup_delete_ne by (intros <-; apply Hk; in_list)).
    done.
Qed.

Lemma text_dropBlank k o j :
  text (dropBlank k o) !! j
  = if decide (j = k)
    then match text o !! k with
         | Some v => if nonempty (trim v) then Some v else None
         | None => None
         end
    else text o !! j.
Proof.
  unfold dropBlank. destruct (text o !! k) as [v|] eqn:Hv.
  - destruct (nonempty (trim v)).
    + case_decide; by subst.
    + unfold delete_prop. cbn [text]. case_decide; by simplify_map_eq.
  - case_decide; by subst.
Qed.

Lemma nums_dropBlank k o j :
  j <> k -> nums (dropBlank k o) !! j = nums o !! j.
Proof.
  intros Hj. unfold dropBlank. destruct (text o !! k) as [v|]; [|done].
  destruct (nonempty (trim v)); [done|].
  unfold delete_prop. cbn [nums]. by rewrite lookup_delete_ne.
Qed.

Lemma nums_dropBlank_None k o j :
  nums o !! j = None -> nums (dropBlank k o) !! j = None.
Proof.
  intros Hj. unfold dropBlank. destruct (text o !! k) as [v|]; [|done].
  destruct (nonempty (trim v)); [done|].
  unfold delete_prop. cbn [nums]. rewrite lookup_delete. by case_decide.
Qed.

(** The percentage upsertStudents computes for an object. *)
Definition recomputed (o : student) : jsnum :=
  deriveAttendance
    (<["present_today" := Num (orZero (nums o !! "present_today"))]>
       (<["leave_taken" := Num (orZero (nums o !! "leave_taken"))]> ∅)).

Lemma toPayload_supplied o :
  hasAcademicData o = true ->
  toPayload o
  = dropBlank "phone_number"
      (dropBlank "email" (set_num "attendance_percentage" (recomputed o) o)).
Proof. intros H. unfold toPayload. by rewrite H. Qed.

Section Payload.
Variable headerIndex : gmap string nat.
Variable row : list string.

Local Abbreviation s := (mapRowToStudent headerIndex row).
Local Abbreviation getStr := (getStrOrEmpty headerIndex row).
Local Abbreviation getNum := (getNumOrNull headerIndex row).
Local Abbreviation blank := (blank_academic headerIndex row).

(** The row as the loop pushes it on validRows, and its payload. *)
Definition pushed : student := attach (trimStrings s).
Definition payload : student := toPayload pushed.

Lemma pushed_eq :
  pushed = if blank then deleteAcademic s
           else set_num "attendance_percentage" (deriveAttendance (nums s)) s.
Proof. unfold pushed. by rewrite trimStrings_normalized, attach_normalized. Qed.

Lemma nums_pushed k :
  k ∈ academic_fields ->
  nums pushed !! k = if blank then None else Some (getNum k).
Proof.
  intros Hk. rewrite pushed_eq. destruct blank.
  - rewrite nums_deleteAcademic, bool_decide_eq_true_2; [done|].
    unfold academic_group. apply elem_of_app. by left.
  - cbn [set_num nums]. rewrite lookup_insert_ne, nums_academic; [done..|].
    intros <-. out_of_list Hk.
Qed.

Lemma text_pushed k : text pushed !! k = text s !! k.
Proof.
  rewrite pushed_eq. destruct blank; [|done].
  rewrite text_deleteAcademic. case_bool_decide; [|done].
  by rewrite text_normalized_academic.
Qed.

(** The test of upsertStudents is true of every pushed row: a deleted
    property is [undefined], and [undefined !== null]. *)
Lemma hasAcademicData_pushed : hasAcademicData pushed = true.
Proof.
  unfold hasAcademicData.
  rewrite !nums_pushed by in_list.
  destruct blank eqn:Hb; [done|].
  rewrite !notNull_Some.
  unfold blank_academic, academic_fields in Hb. cbn [forallb] in Hb.
  rewrite andb_true_r in Hb.
  destruct (is_null (getNum "cia_1_mark")), (is_null (getNum "cia_2_mark")),
    (is_null (getNum "present_today")), (is_null (getNum "leave_taken")); done.
Qed.

Lemma payload_eq :
  payload
  = dropBlank "phone_number"
      (dropBlank "email"
         (set_num "attendance_percentage" (recomputed pushed) pushed)).
Proof. unfold payload. by rewrite toPayload_supplied by apply hasAcademicData_pushed. Qed.

Lemma payload_percentage :
  nums payload !! "attendance_percentage" = Some (Num (recomputed pushed)).
Proof.
  rewrite payload_eq, !nums_dropBlank by done. cbn [set_num nums].
  by rewrite lookup_insert_eq.
Qed.

Lemma payload_academic k :
  k ∈ academic_fields ->
  nums payload !! k = if blank then None else Some (getNum k).
Proof.
  intros Hk. rewrite payload_eq, !nums_dropBlank.
  - cbn [set_num nums]. rewrite lookup_insert_ne; [by apply nums_pushed|].
    intros <-. out_of_list Hk.
  - intros ->. out_of_list Hk.
  - intros ->. out_of_list Hk.
Qed.

Lemma payload_text k :
  k <> "email" -> k <> "phone_number" -> text payload !! k = text s !! k.
Proof.
  intros He Hp. rewrite payload_eq, !text_dropBlank.
  rewrite !decide_False by done. cbn [set_num text]. apply text_pushed.
Qed.

Lemma payload_contact k :
  k ∈ ["email"; "phone_number"] ->
  text payload !! k = if nonempty (getStr k) then Some (getStr k) else None.
Proof.
  intros Hk. rewrite payload_eq.
  apply elem_of_cons in Hk as [-> | Hk];
    [|apply elem_of_cons in Hk as [-> | Hk]; [|by apply elem_of_nil in Hk]].
  - rewrite text_dropBlank, decide_False by done.
    rewrite text_dropBlank, decide_True by done.
    cbn [set_num text]. rewrite text_pushed, text_normalized by in_list.
    by rewrite getStr_trimmed.
  - rewrite text_dropBlank, decide_True by done.
    rewrite text_dropBlank, decide_False by done.
    cbn [set_num text]. rewrite text_pushed, text_normalized by in_list.
    by rewrite getStr_trimmed.
Qed.

Lemma payload_nums_contact k :
  k ∈ ["email"; "phone_number"] -> nums payload !! k = None.
Proof.
  intros Hk. rewrite payload_eq. do 2 apply nums_dropBlank_None.
  cbn [set_num nums].
  assert (k <> "attendance_percentage") as Hne by (intros ->; out_of_list Hk).
  assert (k ∉ academic_group) as Hout.
  { intros Hin. apply elem_of_cons in Hk as [-> | Hk]; [out_of_list Hin|].
    apply elem_of_cons in Hk as [-> | Hk]; [out_of_list Hin|].
    by apply elem_of_nil in Hk. }
  assert (k ∉ academic_fields) as Hout'.
  { intros Hin. apply Hout, elem_of_app. by left. }
  rewrite lookup_insert_ne by done.
  rewrite pushed_eq. destruct blank.
  - rewrite nums_deleteAcademic. case_bool_decide; [done|]. by apply nums_other.
  - cbn [set_num nums]. rewrite lookup_insert_ne by done. by apply nums_other.
Qed.

Lemma recomputed_blank : blank = true -> recomputed pushed = zero.
Proof.
  intros Hb. unfold recomputed.
  rewrite !nums_pushed by in_list.
  rewrite Hb. vm_compute. reflexivity.
Qed.

(** The argument upsertStudents gives to deriveAttendance for a row with
    academic data. *)
Definition counts : gmap string numval :=
  <["present_today" := Num (orZero (Some (getNum "present_today")))]>
    (<["leave_taken" := Num (orZero (Some (getNum "leave_taken")))]> ∅).

Lemma recomputed_supplied :
  blank = false -> recomputed pushed = deriveAttendance counts.
Proof.
  intros Hb. unfold recomputed. rewrite !nums_pushed by in_list. by rewrite Hb.
Qed.

Lemma recomputed_range :
  blank = false ->
  (0 <= numeric (getNum "present_today"))%Q ->
  (0 <= numeric (getNum "leave_taken"))%Q ->
  exists q, recomputed pushed = Fin q /\ (0 <= q)%Q /\ (q <= 100)%Q.
Proof.
  intros Hb Hp Hl. rewrite (recomputed_supplied Hb). unfold counts.
  destruct (orZero_double _ (getNum_finite headerIndex row "present_today")
              (getNum_double headerIndex row "present_today") Hp)
    as (p & -> & Hp' & Rp).
  destruct (orZero_double _ (getNum_finite headerIndex row "leave_taken")
              (getNum_double headerIndex row "leave_taken") Hl)
    as (l & -> & Hl' & Rl).
  destruct (deriveAttendance_nonneg
              (<["present_today" := Num (Fin p)]>
                 (<["leave_taken" := Num (Fin l)]> ∅))
              (Num (Fin p)) (Num (Fin l)))
    as (q & Hq & Hq0 & Hq1 & _); try done.
  - cbn. pose proof Rp as [Hp0 _]. apply (representable_comp p); [|done].
    symmetry. by apply Qabs_pos.
  - cbn. pose proof Rl as [Hl0 _]. apply (representable_comp l); [|done].
    symmetry. by apply Qabs_pos.
  - cbn. by destruct Rp.
  - cbn. by destruct Rl.
  - by exists q.
Qed.



End Payload.

(** *** Main results on the percentage *)

Local Open Scope Q_scope.



(** C5, amended.  When the present and the leave count of a row are not
    negative, a percentage in its payload is a finite number between 0 and
    100. *)
Theorem C5_percentage_within_0_100_for_nonnegative_counts
    (headerIndex : gmap string nat) (row : list string) :
  0 <= numeric (getNumOrNull headerIndex row "present_today") ->
  0 <= numeric (getNumOrNull headerIndex row "leave_taken") ->
  match nums (payload headerIndex row) !! "attendance_percentage"%string with
  | Some (Num (Fin q)) => 0 <= q /\ q <= 100
  | Some _ => False
  | None => True
  end.
Proof.
  intros Hp Hl. rewrite payload_percentage.
  destruct (blank_academic headerIndex row) eqn:Hb.
  - rewrite recomputed_blank by done. cbn. lra.
  - by destruct (recomputed_range headerIndex row Hb Hp Hl) as (q & -> & Hq).
Qed.

(** The theorem of C5 at a row with 18 present and 2 on leave. *)
Lemma C5_percentage_witness :
  let headerIndex :=
    Header.buildHeaderIndex ["Register No"; "Present Today"; "Leave Taken"]%string in
  let row := ["S1"; "18"; "2"]%string in
  0 <= numeric (getNumOrNull headerIndex row "present_today")
  /\ 0 <= numeric (getNumOrNull headerIndex row "leave_taken")
  /\ match nums (payload headerIndex row) !! "attendance_percentage"%string with
     | Some (Num (Fin q)) => 0 <= q /\ q <= 100
     | Some _ => False
     | None => True
     end.
Proof.
  intros headerIndex row.
  assert (0 <= numeric (getNumOrNull headerIndex row "present_today")) as Hp
    by (vm_compute; discriminate).
  assert (0 <= numeric (getNumOrNull headerIndex row "leave_taken")) as Hl
    by (vm_compute; discriminate).
  split; [exact Hp|]. split; [exact Hl|].
  exact (C5_percentage_within_0_100_for_nonnegative_counts headerIndex row Hp Hl).
Defined.

(** C5 as stated fails: -5 is a finite number a leave cell can hold, and
    with 10 present the payload carries the percentage 200. *)
Lemma C5_negative_leave_gives_200 :
  let headers := ["Register No"; "Present Today"; "Leave Taken"]%string in
  let row := ["S3"; "10"; "-5"]%string in
  payloads headers [row] = [payload (Header.buildHeaderIndex headers) row]
  /\ getNumOrNull (Header.buildHeaderIndex headers) row "leave_taken"
     = Num (Fin (-5))
  /\ nums (payload (Header.buildHeaderIndex headers) row)
       !! "attendance_percentage"%string
     = Some (Num (Fin 200))
  /\ 100 < 200.
Proof.
  intros. repeat (match goal with |- _ /\ _ => split end); vm_compute; reflexivity.
Qed.

End SyncFacts.

(** ** The hard-sync deletion *)

Module DeleteFacts.
Import Js Student Store.

Lemma map_fmap {A B} (f : A -> B) (l : list A) : map f l = f <$> l.
Proof. reflexivity. Qed.

Lemma uniq_elem_of l : forall seen k,
  k ∈ uniq seen l <-> k ∈ l /\ k ∉ seen.
Proof.
  induction l as [|x l IH]; intros seen k; cbn [uniq].
  - rewrite elem_of_nil. tauto.
  - case_bool_decide as Hx.
    + rewrite IH, elem_of_cons. split; [tauto|].
      intros [[-> | ?] ?]; tauto.
    + rewrite !elem_of_cons, IH, elem_of_cons. split.
      * intros [-> | [? ?]]; tauto.
      * intros [[-> | ?] ?]; [tauto|].
        destruct (decide (k = x)); tauto.
Qed.

Lemma uniq_NoDup l : forall seen, NoDup (uniq seen l).
Proof.
  induction l as [|x l IH]; intros seen; cbn [uniq]; [constructor|].
  case_bool_decide; [apply IH|]. constructor; [|apply IH].
  rewrite uniq_elem_of, elem_of_cons. tauto.
Qed.

Lemma uniqueNos_elem_of src k : k ∈ uniqueNos src <-> k ∈ cleanKeys src.
Proof. unfold uniqueNos. rewrite uniq_elem_of, elem_of_nil. tauto. Qed.

Lemma uniqueNos_nil src : uniqueNos src = [] <-> cleanKeys src = [].
Proof.
  split; intros H.
  - destruct (cleanKeys src) as [|x l] eqn:Hc; [done|].
    assert (x ∈ uniqueNos src) as Hx
      by (rewrite uniqueNos_elem_of, Hc; apply list_elem_of_here).
    rewrite H in Hx. by apply elem_of_nil in Hx.
  - unfold uniqueNos. by rewrite H.
Qed.

(** The keys to delete are the stored keys the sheet does not list. *)
Lemma missingNos_elem_of src existing k :
  k ∈ missingNos src existing <-> k ∈ cleanKeys existing /\ k ∉ cleanKeys src.
Proof.
  unfold missingNos. rewrite list_elem_of_filter, uniqueNos_elem_of. tauto.
Qed.

Lemma cleanKeys_elem_of l k :
  k ∈ cleanKeys l <-> nonempty k = true /\ exists r, k = trim r /\ r ∈ l.
Proof.
  unfold cleanKeys. rewrite list_elem_of_filter, map_fmap, list_elem_of_fmap. tauto.
Qed.

(** Every key of the table is the way the sync writes keys: trimmed and not
    blank. *)
Definition clean_table (t : gmap string student) : bool :=
  forallb (fun k => String.eqb (trim k) k && nonempty k) (map fst (map_to_list t)).

Lemma stored_keys (t : gmap string student) k :
  k ∈ map fst (map_to_list t) <-> is_Some (t !! k).
Proof.
  rewrite map_fmap, list_elem_of_fmap. split.
  - intros ([k' r] & -> & H). apply elem_of_map_to_list in H. by eexists.
  - intros [r H]. exists (k, r). split; [done|]. by apply elem_of_map_to_list.
Qed.

Lemma clean_table_key t k :
  clean_table t = true -> is_Some (t !! k) ->
  k ∈ cleanKeys (map fst (map_to_list t)).
Proof.
  intros Ht Hk. apply stored_keys in Hk.
  unfold clean_table in Ht. rewrite forallb_forall in Ht.
  specialize (Ht k (proj1 (list_elem_of_In _ _) Hk)).
  apply andb_prop in Ht as [Htrim Hne]. apply String.eqb_eq in Htrim.
  apply cleanKeys_elem_of. split; [done|]. exists k. by rewrite Htrim.
Qed.

Lemma cleanKeys_stored t k :
  clean_table t = true ->
  k ∈ cleanKeys (map fst (map_to_list t)) -> is_Some (t !! k).
Proof.
  intros Ht Hk. apply cleanKeys_elem_of in Hk as (_ & r & -> & Hr).
  unfold clean_table in Ht. rewrite forallb_forall in Ht.
  pose proof (Ht r (proj1 (list_elem_of_In _ _) Hr)) as H.
  apply andb_prop in H as [Htrim _]. apply String.eqb_eq in Htrim.
  rewrite Htrim. by apply stored_keys.
Qed.

(** The table after deleteMissingStudents holds the rows the sheet lists,
    and no other. *)
Lemma deleteMissingStudents_Memory src t :
  clean_table t = true ->
  exists t',
    deleteMissingStudents Memory.client src t = (Done tt, t')
    /\ forall k, t' !! k = if bool_decide (k ∈ cleanKeys src) then t !! k else None.
Proof.
  intros Ht. unfold deleteMissingStudents.
  destruct (uniqueNos src) as [|u us] eqn:Hu.
  - exists ∅. split; [done|]. intros k. apply uniqueNos_nil in Hu. rewrite Hu.
    rewrite bool_decide_eq_false_2 by apply not_elem_of_nil. apply lookup_empty.
  - cbn [select_register_no Memory.client].
    assert (forall k, is_Some (t !! k) ->
              (k ∈ missingNos src (map fst (map_to_list t)) <-> k ∉ cleanKeys src))
      as Hmiss.
    { intros k Hk. rewrite missingNos_elem_of.
      pose proof (clean_table_key t k Ht Hk). tauto. }
    destruct (missingNos src (map fst (map_to_list t))) as [|m ms] eqn:Hm.
    + exists t. split; [done|]. intros k. case_bool_decide as Hk; [done|].
      destruct (t !! k) as [r|] eqn:Hr; [|done].
      exfalso. apply (Hmiss k) in Hk; [|by eexists]. by apply elem_of_nil in Hk.
    + eexists. split; [reflexivity|]. intros k.
      destruct (t !! k) as [r|] eqn:Hr.
      * case_bool_decide as Hk.
        -- apply map_lookup_filter_Some. split; [done|]. cbn.
           intros Hin. apply Hmiss in Hin; [done | by eexists].
        -- apply map_lookup_filter_None. right. intros r' Hr' Hnot. cbn in Hnot.
           apply Hnot, Hmiss; [by eexists | done].
      * assert (filter (λ kv : string * student, kv.1 ∉ m :: ms) t !! k = None)
          as -> by (apply map_lookup_filter_None; by left).
        by case_bool_decide.
Qed.

(** C2, amended.  The source keys are trimmed, the blank ones dropped and the
    rest deduplicated.  With no key left, deleteMissingStudents sends the
    one request that deletes every row.  Otherwise it trims the stored keys
    and drops the blank ones, and the keys it asks to delete are exactly
    those of them that are absent from the source; with none it sends no
    delete at all.  On a table whose keys are trimmed and not blank, the
    rows that remain are those the source lists.  Stored A, B, C against
    source B, C, D deletes A alone. *)
Theorem C2_deleteMissingStudents_deletes_stored_minus_source
    (sheetRegisterNos : list string) (t : gmap string student) :
  clean_table t = true ->
  (forall (db : Type) (c : client db) (d : db),
      deleteMissingStudents c sheetRegisterNos d
      = match cleanKeys sheetRegisterNos with
        | [] => request "Delete all students failed: " (delete_all c) d
        | _ =>
            match select_register_no c d with
            | (inl message, d') =>
                (Thrown ("Fetch existing students failed: " +:+ message), d')
            | (inr existing, d') =>
                match missingNos sheetRegisterNos existing with
                | [] => (Done tt, d')
                | missing =>
                    request "Delete missing students failed: "
                            (delete_in c missing) d'
                end
            end
        end)
  /\ NoDup (uniqueNos sheetRegisterNos)
  /\ (forall k, k ∈ uniqueNos sheetRegisterNos <-> k ∈ cleanKeys sheetRegisterNos)
  /\ (forall existing k,
        k ∈ missingNos sheetRegisterNos existing
        <-> k ∈ cleanKeys existing /\ k ∉ cleanKeys sheetRegisterNos)
  /\ (exists t',
        deleteMissingStudents Memory.client sheetRegisterNos t = (Done tt, t')
        /\ forall k,
            t' !! k = if bool_decide (k ∈ cleanKeys sheetRegisterNos)
                      then t !! k else None)
  /\ missingNos ["B"; "C"; "D"] ["A"; "B"; "C"] = ["A"].
Proof.
  intros Ht. split; [|split; [|split; [|split; [|split]]]].
  - intros db c d. unfold deleteMissingStudents.
    destruct (uniqueNos sheetRegisterNos) eqn:Hu.
    + apply uniqueNos_nil in Hu. by rewrite Hu.
    + destruct (cleanKeys sheetRegisterNos) eqn:Hc; [|done].
      apply uniqueNos_nil in Hc. congruence.
  - apply uniq_NoDup.
  - apply uniqueNos_elem_of.
  - apply missingNos_elem_of.
  - by apply deleteMissingStudents_Memory.
  - reflexivity.
Qed.

(** The theorem of C2 at a table of the rows A, B and C and a source that
    lists B twice, C with spaces around it, D and a blank key. *)
Lemma C2_deleteMissingStudents_witness :
  let row k : student := mkStudent {[ "register_no" := k ]} ∅ in
  let t : gmap string student :=
    <["A" := row "A"]> (<["B" := row "B"]> (<["C" := row "C"]> ∅)) in
  let sheetRegisterNos := ["B"; " C "; "D"; "B"; ""] in
  clean_table t = true
  /\ exists t',
      deleteMissingStudents Memory.client sheetRegisterNos t = (Done tt, t')
      /\ t' !! "A" = None /\ t' !! "B" = Some (row "B")
      /\ t' !! "C" = Some (row "C").
Proof.
  intros row t sheetRegisterNos.
  split; [reflexivity|].
  destruct (C2_deleteMissingStudents_deletes_stored_minus_source
              sheetRegisterNos t eq_refl)
    as (_ & _ & _ & _ & (t' & Hrun & Hrows) & _).
  exists t'. split; [exact Hrun|].
  split; [exact (Hrows "A") | split; [exact (Hrows "B") | exact (Hrows "C")]].
Defined.

(** A stored key with white space around it is never among the keys asked
    to be deleted, which are all trimmed: once the source lists a key, the
    row stored under the padded key stays. *)
Lemma padded_key_stays src (t : gmap string student) k r :
  cleanKeys src <> [] -> t !! k = Some r -> trim k <> k ->
  snd (deleteMissingStudents Memory.client src t) !! k = Some r.
Proof.
  intros Hsrc Hk Hpad. unfold deleteMissingStudents.
  destruct (uniqueNos src) as [|u us] eqn:Hu;
    [by apply uniqueNos_nil in Hu|].
  cbn [select_register_no Memory.client].
  destruct (missingNos src (map fst (map_to_list t))) as [|m ms] eqn:Hm; [done|].
  unfold request. cbn [delete_in Memory.client snd].
  apply map_lookup_filter_Some. split; [done|]. cbn. rewrite <- Hm.
  intros Hin. apply missingNos_elem_of in Hin as [Hin _].
  apply cleanKeys_elem_of in Hin as (_ & r' & -> & _).
  apply Hpad, SyncFacts.trim_idem.
Qed.

(** C2 as stated fails on a table with a blank key or a key with white
    space around it.  With rows stored under the empty key, under A between
    two spaces and under B, and a source that lists B alone, the two other
    keys are absent from the source; the keys read back are trimmed, the
    blank one is dropped, the request asks to delete A, no row has that
    key, and the three rows stay. *)
Lemma C2_blank_or_padded_stored_key_is_not_deleted :
  let row k : student := mkStudent {[ "register_no" := k ]} ∅ in
  let t : gmap string student :=
    <[" A " := row " A "]> (<["" := row ""]> (<["B" := row "B"]> ∅)) in
  let source := ["B"] in
  clean_table t = false
  /\ cleanKeys source = ["B"]
  /\ bool_decide (" A " ∈ source) = false
  /\ bool_decide ("" ∈ source) = false
  /\ missingNos source (map fst (map_to_list t)) = ["A"]
  /\ deleteMissingStudents (Recorder.client (map fst (map_to_list t)) None)
       source []
     = (Done tt, [Recorder.Select; Recorder.DeleteIn ["A"]])
  /\ deleteMissingStudents Memory.client source t = (Done tt, t)
  /\ t !! " A " = Some (row " A ")
  /\ t !! "" = Some (row "").
Proof.
  intros. repeat (match goal with |- _ /\ _ => split end); vm_compute; reflexivity.
Qed.

End DeleteFacts.

(** ** The row loop and the upsert *)

Module LoopFacts.
Import Js Num Student Normalize Attendance Sync Store SyncFacts DeleteFacts.

(** The row has its identity key. *)
Definition keyed (row : student) : bool := nonempty (str row "register_no").

(** The failures the loop records from row [idx] on: one for each row
    without key, under its sheet row number. *)
Fixpoint failures (idx : nat) (normalized : list student) : list failure :=
  match normalized with
  | [] => []
  | row :: more =>
      ((if keyed (trimStrings row) then []
        else [mkFailure (idx + 2) "register_no missing"])
       ++ failures (S idx) more)%list
  end.

(** The warning lines from row [idx] on: one for each row with a warning. *)
Fixpoint row_warnings (idx : nat) (normalized : list student) : list event :=
  match normalized with
  | [] => []
  | row :: more =>
      (match validateStudent (trimStrings row) with
       | [] => []
       | warnings => [RowWarnings (idx + 2) warnings]
       end ++ row_warnings (S idx) more)%list
  end.

Definition is_warning (e : event) : bool :=
  match e with RowWarnings _ _ => true | SkipAcademic _ => false end.

Lemma loop_validRows normalized : forall idx acc,
  validRows (loop idx normalized acc)
  = (validRows acc
     ++ map attach (filter (fun r => keyed r = true) (map trimStrings normalized)))%list.
Proof.
  induction normalized as [|row more IH]; intros idx acc; cbn [loop map].
  - by rewrite filter_nil, app_nil_r.
  - rewrite IH. unfold step. fold (keyed (trimStrings row)).
    rewrite filter_cons. destruct (keyed (trimStrings row)) eqn:Hk; cbn [negb].
    + rewrite decide_True by done. cbn [validRows map].
      by rewrite <- List.app_assoc.
    + by rewrite decide_False by done.
Qed.

Lemma loop_failedRows normalized : forall idx acc,
  failedRows (loop idx normalized acc)
  = (failedRows acc ++ failures idx normalized)%list.
Proof.
  induction normalized as [|row more IH]; intros idx acc; cbn [loop failures].
  - by rewrite app_nil_r.
  - rewrite IH. unfold step. fold (keyed (trimStrings row)).
    destruct (keyed (trimStrings row)); cbn [negb failedRows app]; [done|].
    by rewrite <- List.app_assoc.
Qed.

Lemma loop_warnings normalized : forall idx acc,
  filter (fun e => is_warning e = true) (console (loop idx normalized acc))
  = (filter (fun e => is_warning e = true) (console acc)
     ++ row_warnings idx normalized)%list.
Proof.
  induction normalized as [|row more IH]; intros idx acc; cbn [loop row_warnings].
  - by rewrite app_nil_r.
  - rewrite IH. unfold step. fold (keyed (trimStrings row)).
    rewrite List.app_assoc. f_equal.
    destruct (keyed (trimStrings row)); cbn [negb console];
      destruct (hasAcademicData (trimStrings row)); cbn [negb];
      destruct (validateStudent (trimStrings row));
      rewrite ?filter_app, ?app_nil_r; reflexivity.
Qed.

Lemma count_rows normalized : forall idx,
  length (filter (fun r => keyed r = true) (map trimStrings normalized))
  + length (failures idx normalized)
  = length normalized.
Proof.
  induction normalized as [|row more IH]; intros idx; [done|].
  cbn [map failures]. rewrite filter_cons, length_app.
  specialize (IH (S idx)).
  destruct (keyed (trimStrings row)) eqn:Hk.
  - rewrite decide_True by done. cbn [length]. lia.
  - rewrite decide_False by done. cbn [length]. lia.
Qed.

(** validateStudent warns about each of the three fields that is missing,
    and about nothing else. *)
Lemma validateStudent_warnings row w :
  w ∈ validateStudent row <->
  (w = "register_no missing" /\ nonempty (str row "register_no") = false)
  \/ (w = "name missing" /\ nonempty (str row "name") = false)
  \/ (w = "department missing" /\ nonempty (str row "department") = false).
Proof.
  unfold validateStudent.
  destruct (nonempty (str row "register_no")), (nonempty (str row "name")),
    (nonempty (str row "department")); cbn [app];
    rewrite ?elem_of_cons, ?elem_of_nil; intuition congruence.
Qed.

(** *** Keys of the pushed rows *)

Lemma text_attach row k :
  k ∉ academic_group -> text (attach row) !! k = text row !! k.
Proof.
  intros Hk. unfold attach. destruct (hasAcademicData row); cbn [negb]; [done|].
  by rewrite text_deleteAcademic, bool_decide_eq_false_2.
Qed.

Lemma text_toPayload row k :
  k ∉ academic_group -> k <> "email" -> k <> "phone_number" ->
  text (toPayload row) !! k = text row !! k.
Proof.
  intros Hk He Hp. unfold toPayload.
  rewrite !text_dropBlank, !decide_False by done.
  destruct (hasAcademicData row); cbn [negb]; [done|].
  by rewrite text_deleteAcademic, bool_decide_eq_false_2.
Qed.

Lemma register_no_not_academic : "register_no" ∉ academic_group.
Proof. intros H. out_of_list H. Qed.

Lemma keyed_text row :
  keyed row = true ->
  exists key, text row !! "register_no" = Some key /\ nonempty key = true.
Proof.
  unfold keyed, str. destruct (text row !! "register_no") as [key|]; [|done].
  intros H. by exists key.
Qed.

Lemma keyed_attach row : keyed (attach row) = keyed row.
Proof.
  unfold keyed, str. by rewrite text_attach by apply register_no_not_academic.
Qed.

Lemma toPayload_key row :
  str (toPayload row) "register_no" = str row "register_no".
Proof.
  unfold str. by rewrite text_toPayload by (done || apply register_no_not_academic).
Qed.

(** *** The upsert against the in-memory table *)

Lemma upsert_all_None ps : foldl Memory.upsert_one None ps = None.
Proof. induction ps; [done|]. done. Qed.

Lemma upsert_one_Some t p key :
  text p !! "register_no" = Some key ->
  Memory.upsert_one (Some t) p
  = Some (<[key := Memory.merge p (default (mkStudent ∅ ∅) (t !! key))]> t).
Proof. intros H. unfold Memory.upsert_one. by rewrite H. Qed.

Lemma upsert_all_Some ps : forall t,
  Forall (fun p => keyed p = true) ps ->
  exists t',
    foldl Memory.upsert_one (Some t) ps = Some t'
    /\ (forall k, is_Some (t !! k) -> is_Some (t' !! k))
    /\ Forall (fun p => is_Some (t' !! str p "register_no")) ps.
Proof.
  induction ps as [|p ps IH]; intros t Hps.
  - exists t. by repeat split.
  - apply Forall_cons in Hps as [Hp Hps].
    destruct (keyed_text p Hp) as (key & Hkey & _).
    cbn [foldl]. rewrite (upsert_one_Some t p key Hkey).
    destruct (IH (<[key := Memory.merge p (default (mkStudent ∅ ∅) (t !! key))]> t) Hps)
      as (t' & Hfold & Hkeep & Hall).
    exists t'. split; [done|]. split.
    + intros k Hk. apply Hkeep.
      destruct (decide (key = k)) as [->|Hne];
        [rewrite lookup_insert_eq; by eexists | by rewrite lookup_insert_ne].
    + apply Forall_cons. split; [|done].
      apply Hkeep. unfold str. rewrite Hkey.
      change (default EmptyString (Some key)) with key.
      rewrite lookup_insert_eq. by eexists.
Qed.

Lemma upsertFrom_Memory fuel : forall i upserted t students,
  Forall (fun r => keyed r = true) students ->
  length students <= i + fuel ->
  exists t',
    upsertFrom Memory.client fuel i upserted students t
    = (Done (upserted + (length students - i)), t')
    /\ foldl Memory.upsert_one (Some t) (map toPayload (drop i students)) = Some t'.
Proof.
  induction fuel as [|fuel IH]; intros i upserted t students Hkeys Hlen.
  - exists t. cbn [upsertFrom]. rewrite drop_ge by lia. split; [|done].
    unfold ret. do 2 f_equal. lia.
  - cbn [upsertFrom]. destruct (Nat.ltb_spec i (length students)) as [Hi|Hi].
    + set (chunk := take batchSize (drop i students)).
      assert (Forall (fun p => keyed p = true) (map toPayload chunk)) as Hchunk.
      { rewrite map_fmap. apply Forall_fmap. unfold chunk.
        apply Forall_take, Forall_drop.
        eapply Forall_impl; [exact Hkeys|]. intros r Hr.
        unfold keyed in *. cbn. by rewrite toPayload_key. }
      destruct (upsert_all_Some _ t Hchunk) as (t1 & Hfold1 & _ & _).
      unfold bind, request. cbn [upsert Memory.client]. rewrite Hfold1.
      destruct (IH (i + batchSize) (upserted + length (map toPayload chunk)) t1
                  students Hkeys) as (t' & Hrun & Hfold).
      { unfold batchSize. lia. }
      exists t'. rewrite Hrun. split.
      * do 2 f_equal. rewrite length_map. unfold chunk.
        rewrite length_take, length_drop. unfold batchSize. lia.
      * rewrite <- (take_drop batchSize (drop i students)), map_app, foldl_app.
        fold chunk. rewrite Hfold1, drop_drop. done.
    + exists t. rewrite drop_ge by lia. split; [|done].
      unfold ret. do 2 f_equal. lia.
Qed.

(** Against the in-memory table upsertStudents writes every row it is given,
    in order, and counts them all. *)
Lemma upsertStudents_Memory students t :
  Forall (fun r => keyed r = true) students ->
  exists t',
    upsertStudents Memory.client students t = (Done (length students), t')
    /\ foldl Memory.upsert_one (Some t) (map toPayload students) = Some t'
    /\ Forall (fun r => is_Some (t' !! str r "register_no")) students.
Proof.
  intros Hkeys. unfold upsertStudents.
  destruct (upsertFrom_Memory (length students) 0 0 t students Hkeys)
    as (t' & Hrun & Hfold); [lia|].
  exists t'. rewrite Hrun, Nat.sub_0_r. rewrite drop_0 in Hfold.
  split; [done|]. split; [done|].
  assert (Forall (fun p => keyed p = true) (map toPayload students)) as Hp.
  { rewrite map_fmap. apply Forall_fmap.
    eapply Forall_impl; [exact Hkeys|]. intros r Hr.
    unfold keyed in *. cbn. by rewrite toPayload_key. }
  destruct (upsert_all_Some _ t Hp) as (t'' & Hfold' & _ & Hall).
  assert (t'' = t') as -> by congruence.
  rewrite map_fmap, Forall_fmap in Hall.
  eapply Forall_impl; [exact Hall|]. intros r Hr. cbn in Hr.
  by rewrite toPayload_key in Hr.
Qed.

End LoopFacts.

(** ** Main results on the row loop and on the payload *)

Module RunFacts.
Import Js Num Student Normalize Attendance Sync Store.
Import AttendanceFacts SyncFacts DeleteFacts LoopFacts.

(** The string property [k] of the row stored under [key]. *)
Definition stored_text (t : gmap string student) (key k : string) : option string :=
  t !! key ≫= fun r => text r !! k.

(** The numeric property [k] of the row stored under [key]. *)
Definition stored_num (t : gmap string student) (key k : string) : option numval :=
  t !! key ≫= fun r => nums r !! k.

Lemma deleteMissingStudents_Memory_done src (t : gmap string student) :
  exists t', deleteMissingStudents Memory.client src t = (Done tt, t').
Proof.
  unfold deleteMissingStudents. destruct (uniqueNos src); [by eexists|].
  cbn [select_register_no Memory.client].
  destruct (missingNos _ _); by eexists.
Qed.

(** C8.  The row loop pushes on validRows every row that has its key, with
    or without a name or a department, and records a failure under the
    sheet row number for every row without key; no row is lost and nothing
    stops the loop.  A missing name or department only adds a warning line.
    The keys given to the deletion and the rows given to the upsert are
    those of validRows alone, and against a table that accepts every request
    the run ends with its summary: all rows counted, the valid ones
    processed and stored, the others failed. *)
Theorem C8_missing_key_fails_the_row_other_fields_only_warn
    (headers : list string) (rows : list (list string)) (t : gmap string student) :
  let normalized := normalize headers rows in
  let s := sortRows normalized in
  validRows s
  = map attach (filter (fun r => keyed r = true) (map trimStrings normalized))
  /\ failedRows s = failures 0 normalized
  /\ filter (fun e => is_warning e = true) (console s) = row_warnings 0 normalized
  /\ length (validRows s) + length (failedRows s) = length rows
  /\ Forall (fun r => keyed r = true) (validRows s)
  /\ (forall row w,
        w ∈ validateStudent row <->
        (w = "register_no missing" /\ nonempty (str row "register_no") = false)
        \/ (w = "name missing" /\ nonempty (str row "name") = false)
        \/ (w = "department missing" /\ nonempty (str row "department") = false))
  /\ (forall (db : Type) (c : client db),
        syncRows c headers rows
        = bind (deleteMissingStudents c
                  (map (fun r => str r "register_no") (validRows s)))
            (fun _ =>
               bind (upsertStudents c (validRows s))
                 (fun processed =>
                    ret (mkSummary (length normalized) processed
                                   (length (failedRows s))))))
  /\ exists t',
      syncRows Memory.client headers rows t
      = (Done (mkSummary (length rows) (length (validRows s))
                         (length (failedRows s))), t')
      /\ Forall (fun r => is_Some (t' !! str r "register_no")) (validRows s).
Proof.
  intros normalized s.
  assert (validRows s
          = map attach (filter (fun r => keyed r = true)
                               (map trimStrings normalized))) as Hvalid.
  { unfold s, sortRows. by rewrite loop_validRows. }
  assert (failedRows s = failures 0 normalized) as Hfailed.
  { unfold s, sortRows. by rewrite loop_failedRows. }
  assert (Forall (fun r => keyed r = true) (validRows s)) as Hkeys.
  { rewrite Hvalid, map_fmap. apply Forall_fmap, Forall_forall.
    intros r Hr. apply list_elem_of_filter in Hr as [Hr _]. cbn.
    by rewrite keyed_attach. }
  assert (length normalized = length rows) as Hlen
    by (unfold normalized, normalize; apply length_map).
  split; [done|]. split; [done|]. split.
  { unfold s, sortRows. by rewrite loop_warnings. }
  split.
  { rewrite Hvalid, Hfailed, length_map, <- Hlen. apply count_rows. }
  split; [done|]. split; [apply validateStudent_warnings|]. split; [done|].
  unfold syncRows. fold normalized. fold s. unfold bind.
  destruct (deleteMissingStudents_Memory_done
              (map (fun r => str r "register_no") (validRows s)) t) as [t1 ->].
  destruct (upsertStudents_Memory (validRows s) t1 Hkeys)
    as (t' & -> & _ & Hstored).
  exists t'. by rewrite Hlen.
Qed.

(** C1, at a row whose four academic cells are blank.  The loop deletes the
    four properties and pushes the row; upsertStudents then finds them
    [undefined], which is not [null], takes the row for one with academic
    data and writes a percentage of 0 in its payload.  A stored percentage
    of 90 is overwritten by 0 while the stored counts stay 18 and 2. *)
Theorem C1_blank_academic_row_is_written_a_zero_percentage :
  let headers := ["Register No"; "Name"; "Present Today"; "Leave Taken"] in
  let headerIndex := Header.buildHeaderIndex headers in
  let filled := ["S2"; "Bob"; "18"; "2"] in
  let blank := ["S2"; "Bob"; ""; ""] in
  let t1 := snd (syncRows Memory.client headers [filled] ∅) in
  let t2 := snd (syncRows Memory.client headers [blank] t1) in
  blank_academic headerIndex blank = true
  /\ payloads headers [blank] = [payload headerIndex blank]
  /\ Forall (omits (payload headerIndex blank)) academic_fields
  /\ nums (payload headerIndex blank) !! "attendance_percentage"
     = Some (Num (Fin 0))
  /\ stored_num t1 "S2" "attendance_percentage" = Some (Num (Fin 90))
  /\ stored_num t2 "S2" "attendance_percentage" = Some (Num (Fin 0))
  /\ stored_num t2 "S2" "present_today" = Some (Num (Fin 18))
  /\ stored_num t2 "S2" "leave_taken" = Some (Num (Fin 2)).
Proof.
  intros. repeat (match goal with |- _ /\ _ => split end);
    first [vm_compute; reflexivity | repeat constructor].
Qed.

(** What holds of every row, of which C1 above is an instance: with the four
    academic cells blank the payload has none of the four properties but
    has a percentage of 0; with one of them filled it has the four and the
    percentage deriveAttendance gives for the two counts. *)
Lemma payload_academic_group (headerIndex : gmap string nat) (row : list string) :
  if blank_academic headerIndex row
  then Forall (omits (payload headerIndex row)) academic_fields
       /\ nums (payload headerIndex row) !! "attendance_percentage"
          = Some (Num zero)
  else Forall (fun k => nums (payload headerIndex row) !! k
                        = Some (getNumOrNull headerIndex row k)) academic_fields
       /\ nums (payload headerIndex row) !! "attendance_percentage"
          = Some (Num (deriveAttendance (counts headerIndex row))).
Proof.
  destruct (blank_academic headerIndex row) eqn:Hb.
  - split.
    + apply Forall_forall. intros k Hk. split.
      * rewrite payload_text.
        -- apply text_normalized_academic, elem_of_app. by left.
        -- intros ->. out_of_list Hk.
        -- intros ->. out_of_list Hk.
      * by rewrite payload_academic, Hb.
    + by rewrite payload_percentage, recomputed_blank.
  - split.
    + apply Forall_forall. intros k Hk. by rewrite payload_academic, Hb.
    + by rewrite payload_percentage, recomputed_supplied.
Qed.

Lemma stored_after_upsert (t : gmap string student) p key old k :
  text p !! "register_no" = Some key ->
  t !! key = Some old ->
  exists t',
    Memory.upsert_one (Some t) p = Some t'
    /\ stored_text t' key k
       = match text p !! k with
         | Some v => Some v
         | None => text old !! k
         end.
Proof.
  intros Hkey Hold. eexists. split; [by apply upsert_one_Some|].
  unfold stored_text. rewrite lookup_insert_eq, Hold. cbn.
  rewrite lookup_union. by destruct (text p !! k), (text old !! k).
Qed.

(** C3, amended.  Of the profile fields only the two contact fields are
    left out of the payload when their cell is blank, and the upsert then
    keeps what the table holds for them.  The name, the names of the
    parents, the address, the class, the year and the department (after
    its fallback on the class) are in every payload, as the empty string
    when the cell is blank, and the upsert overwrites what the table
    holds. *)
Theorem C3_only_blank_contact_fields_are_left_out
    (headerIndex : gmap string nat) (row : list string)
    (t : gmap string student) (key : string) (old : student) :
  text (payload headerIndex row) !! "register_no" = Some key ->
  t !! key = Some old ->
  exists t',
    Memory.upsert_one (Some t) (payload headerIndex row) = Some t'
    /\ Forall (fun k =>
                 if nonempty (getStrOrEmpty headerIndex row k)
                 then text (payload headerIndex row) !! k
                      = Some (getStrOrEmpty headerIndex row k)
                      /\ stored_text t' key k
                         = Some (getStrOrEmpty headerIndex row k)
                 else omits (payload headerIndex row) k
                      /\ stored_text t' key k = text old !! k)
         ["email"; "phone_number"]
    /\ Forall (fun k =>
                 text (payload headerIndex row) !! k
                 = Some (getStrOrEmpty headerIndex row k)
                 /\ stored_text t' key k = Some (getStrOrEmpty headerIndex row k))
         ["name"; "father_name"; "mother_name"; "address"; "class"; "year"]
    /\ text (payload headerIndex row) !! "department"
       = Some (department_of headerIndex row)
    /\ stored_text t' key "department" = Some (department_of headerIndex row).
Proof.
  intros Hkey Hold.
  exists (<[key := Memory.merge (payload headerIndex row) old]> t).
  assert (forall k,
    stored_text (<[key := Memory.merge (payload headerIndex row) old]> t) key k
    = match text (payload headerIndex row) !! k with
      | Some v => Some v
      | None => text old !! k
      end) as Hstored.
  { intros k. destruct (stored_after_upsert t _ key old k Hkey Hold)
      as (t' & Hup & Hk).
    rewrite (upsert_one_Some t _ key Hkey), Hold in Hup. cbn in Hup.
    injection Hup as <-. exact Hk. }
  split; [by rewrite (upsert_one_Some t _ key Hkey), Hold|].
  split; [|split; [|split]].
  - apply Forall_forall. intros k Hk. rewrite Hstored.
    unfold omits. rewrite (payload_contact headerIndex row k Hk).
    destruct (nonempty (getStrOrEmpty headerIndex row k)); [done|].
    split; [|done]. split; [done | by apply payload_nums_contact].
  - apply Forall_forall. intros k Hk. rewrite Hstored.
    assert (text (payload headerIndex row) !! k
            = Some (getStrOrEmpty headerIndex row k)) as ->; [|done].
    rewrite payload_text.
    + apply text_normalized.
      repeat (apply elem_of_cons in Hk as [-> | Hk]; [in_list|]).
      by apply elem_of_nil in Hk.
    + intros ->. out_of_list Hk.
    + intros ->. out_of_list Hk.
  - by rewrite payload_text, department_normalized.
  - by rewrite Hstored, payload_text, department_normalized.
Qed.

(** The theorem of C3 at a row with a blank name and a blank email, over a
    table that holds a name and an email for its key. *)
Lemma C3_contact_fields_witness :
  let headers := ["Register No"; "Name"; "Email"] in
  let headerIndex := Header.buildHeaderIndex headers in
  let row := ["S1"; ""; ""] in
  let old : student :=
    mkStudent (<["register_no" := "S1"]>
                 (<["name" := "Alice"]> (<["email" := "alice@college.example"]> ∅)))
              ∅ in
  let t : gmap string student := <["S1" := old]> ∅ in
  text (payload headerIndex row) !! "register_no" = Some "S1"
  /\ t !! "S1" = Some old
  /\ exists t',
      Memory.upsert_one (Some t) (payload headerIndex row) = Some t'
      /\ stored_text t' "S1" "email" = Some "alice@college.example"
      /\ stored_text t' "S1" "name" = Some "".
Proof.
  intros headers headerIndex row old t.
  split; [reflexivity|]. split; [reflexivity|].
  destruct (C3_only_blank_contact_fields_are_left_out
              headerIndex row t "S1" old eq_refl eq_refl)
    as (t' & Hup & Hcontact & Hprofile & _).
  exists t'. split; [exact Hup|].
  apply Forall_cons in Hcontact as [[_ Hemail] _].
  apply Forall_cons in Hprofile as [[_ Hname] _].
  split; [exact Hemail | exact Hname].
Defined.

(** C3 as stated fails: a row with a blank name has the name in its
    payload, as the empty string, and the sync overwrites the stored name
    with it. *)
Lemma C3_blank_name_is_written_as_empty :
  let headers := ["Register No"; "Name"; "Email"] in
  let headerIndex := Header.buildHeaderIndex headers in
  let row := ["S1"; ""; ""] in
  let old : student :=
    mkStudent (<["register_no" := "S1"]>
                 (<["name" := "Alice"]> (<["email" := "alice@college.example"]> ∅)))
              ∅ in
  let t : gmap string student := <["S1" := old]> ∅ in
  let t' := snd (syncRows Memory.client headers [row] t) in
  payloads headers [row] = [payload headerIndex row]
  /\ getStrOrEmpty headerIndex row "name" = EmptyString
  /\ text (payload headerIndex row) !! "name" = Some EmptyString
  /\ fst (syncRows Memory.client headers [row] t) = Done (mkSummary 1 1 0)
  /\ stored_text t "S1" "name" = Some "Alice"
  /\ stored_text t' "S1" "name" = Some EmptyString
  /\ stored_text t' "S1" "email" = Some "alice@college.example".
Proof.
  intros. repeat (match goal with |- _ /\ _ => split end); vm_compute; reflexivity.
Qed.

End RunFacts.

(** * Further results *)

(** ** The retry wrapper with any number of attempts *)

Module RetryMore.
Import Retry RetryFacts.

Section Any.
Variable server : nat -> reply.
Variables maxRetries backoffMs : nat.

Lemma retry_from j : forall attempt trace,
  attempt + S j = maxRetries ->
  exists k,
    k <= j
    /\ (forall i, i < k -> exists err, try_fetch (server (attempt + i)) = inr err)
    /\ snd (retry server maxRetries backoffMs attempt trace)
       = (trace ++ rounds backoffMs attempt k ++ [Fetch])%list
    /\ match try_fetch (server (attempt + k)) with
       | inl res =>
           fst (retry server maxRetries backoffMs attempt trace) = Returns res
       | inr err =>
           k = j
           /\ fst (retry server maxRetries backoffMs attempt trace) = Throws err
       end.
Proof.
  induction j as [|j IH]; intros attempt trace Hn.
  - exists 0. split; [done|]. split; [intros i Hi; lia|]. rewrite Nat.add_0_r.
    destruct (try_fetch (server attempt)) as [res|err] eqn:H.
    + by rewrite (retry_ok _ _ _ _ _ res) by (done || lia).
    + by rewrite (retry_last _ _ _ _ _ err) by (done || lia).
  - destruct (try_fetch (server attempt)) as [res|err] eqn:H.
    + exists 0. split; [lia|]. split; [intros i Hi; lia|].
      rewrite Nat.add_0_r, H.
      by rewrite (retry_ok _ _ _ _ _ res) by (done || lia).
    + rewrite (retry_again _ _ _ _ _ err) by (done || lia).
      destruct (IH (S attempt)
                  (trace ++ [Fetch; Sleep (backoffMs * S attempt)])%list)
        as (k & Hk & Hfailed & Htrace & Hend); [lia|].
      exists (S k). split; [lia|]. split; [|split].
      * intros [|i] Hi.
        -- rewrite Nat.add_0_r. by exists err.
        -- replace (attempt + S i) with (S attempt + i) by lia.
           apply Hfailed. lia.
      * rewrite Htrace. cbn [rounds]. by rewrite <- List.app_assoc.
      * replace (attempt + S k) with (S attempt + k) by lia.
        destruct (try_fetch (server (S attempt + k))); [done|].
        destruct Hend as [-> ?]. done.
Qed.

End Any.

(** X1.  fetchWithRetry with any [maxRetries] and [backoffMs].  With 0
    attempts allowed it returns [undefined] without a fetch.  Otherwise it
    stops at the first attempt that succeeds, or at the last allowed one:
    the [k] attempts before it all failed, each followed by a sleep of the
    base times its number, then comes one more fetch and no sleep after it;
    a success is returned, and an error is thrown only when it is the error
    of attempt [maxRetries]. *)
Theorem retry_stops_at_first_success_or_last_attempt
    (server : nat -> reply) (maxRetries backoffMs : nat) :
  match maxRetries with
  | O => retry server maxRetries backoffMs 0 [] = (ReturnsUndefined, [])
  | S last =>
      exists k,
        k <= last
        /\ (forall i, i < k -> exists err, try_fetch (server i) = inr err)
        /\ snd (retry server maxRetries backoffMs 0 [])
           = (rounds backoffMs 0 k ++ [Fetch])%list
        /\ fetches (snd (retry server maxRetries backoffMs 0 [])) = S k
        /\ match try_fetch (server k) with
           | inl res => fst (retry server maxRetries backoffMs 0 []) = Returns res
           | inr err =>
               k = last
               /\ fst (retry server maxRetries backoffMs 0 []) = Throws err
           end
  end.
Proof.
  destruct maxRetries as [|last].
  - by rewrite retry_out by lia.
  - destruct (retry_from server (S last) backoffMs last 0 [])
      as (k & Hk & Hfailed & Htrace & Hend); [lia|].
    exists k. split; [done|]. split; [exact Hfailed|]. split; [done|].
    split; [|done].
    rewrite Htrace. cbn [app]. clear.
    unfold fetches. generalize 0 at 1. induction k as [|k IH]; intros a; [done|].
    cbn [rounds app]. rewrite filter_cons_True by done.
    rewrite filter_cons_False by done. cbn [length]. by rewrite IH.
Qed.

End RetryMore.

(** ** More on the CSV parser *)

Module CsvMore.
Import Js Csv StringFacts CsvFacts.

(** Some code unit of the string passes the test. *)
Fixpoint any_char (P : ascii -> bool) (s : string) : bool :=
  match s with
  | EmptyString => false
  | String c s' => P c || any_char P s'
  end.

Definition not_quote (c : ascii) : bool := negb (Ascii.eqb c dquote).
Definition not_eol (c : ascii) : bool :=
  negb (Ascii.eqb c CR) && negb (Ascii.eqb c LF).

(** *** A text that is not blank has a line *)

Lemma trimStart_blank s : any_char (fun c => negb (is_ws c)) s = false -> trimStart s = EmptyString.
Proof.
  induction s as [|c s IH]; [done|]. cbn [any_char trimStart].
  destruct (is_ws c); [exact IH | done].
Qed.

Lemma trim_nonempty s :
  nonempty (trim s) = true -> any_char (fun c => negb (is_ws c)) s = true.
Proof.
  intros H. destruct (any_char _ s) eqn:Hs; [done|].
  unfold trim in H. by rewrite trimStart_blank in H.
Qed.

Lemma split_not_nil sep s : split sep s <> [].
Proof.
  destruct s as [|c s]; [done|]. cbn [split].
  destruct (Ascii.eqb c sep); [done|]. by destruct (split sep s).
Qed.

Lemma split_has_line s :
  any_char (fun c => negb (Ascii.eqb c LF)) s = true ->
  filter (fun l => nonempty l = true) (split LF s) <> [].
Proof.
  induction s as [|c s IH]; [done|]. cbn [any_char split].
  destruct (Ascii.eqb c LF); cbn [negb orb].
  - intros H. rewrite filter_cons_False by done. by apply IH.
  - intros _. destruct (split LF s); by rewrite filter_cons_True.
Qed.

Lemma is_ws_eol c : is_ws c = false -> not_eol c = true.
Proof.
  intros H. unfold not_eol.
  destruct (Ascii.eqb_spec c CR) as [->|_]; [done|].
  by destruct (Ascii.eqb_spec c LF) as [->|_].
Qed.

(** The normalisation of the line ends keeps a code unit that is not a line
    end. *)
Lemma normalise_keeps n : forall s,
  String.length s <= n ->
  any_char not_eol s = true ->
  any_char (fun c => negb (Ascii.eqb c LF)) (cr_to_lf (replace_crlf s)) = true.
Proof.
  induction n as [|n IH]; intros s Hn Hs.
  - destruct s; [done | cbn in Hn; lia].
  - destruct s as [|c s]; [done|]. cbn [String.length] in Hn.
    destruct (Ascii.eqb c CR) eqn:Hc.
    + apply Ascii.eqb_eq in Hc as ->. cbn [any_char] in Hs.
      change (not_eol CR) with false in Hs. cbn [orb] in Hs.
      destruct s as [|c' s]; [done|]. cbn [replace_crlf].
      rewrite Ascii.eqb_refl. cbn [andb].
      destruct (Ascii.eqb c' LF) eqn:Hc'.
      * apply Ascii.eqb_eq in Hc' as ->. cbn [any_char] in Hs.
        change (not_eol LF) with false in Hs. cbn [orb] in Hs.
        unfold cr_to_lf. cbn [map_chars any_char]. cbn.
        apply IH; [cbn [String.length] in Hn; lia | done].
      * unfold cr_to_lf. cbn [map_chars any_char]. cbn.
        apply (IH (String c' s)); [lia | done].
    + rewrite replace_crlf_other by done. unfold cr_to_lf.
      cbn [map_chars any_char]. rewrite Hc.
      cbn [any_char] in Hs. unfold not_eol in Hs at 1. rewrite Hc in Hs.
      cbn [negb andb] in Hs.
      destruct (Ascii.eqb c LF); cbn [negb orb]; [|done].
      apply IH; [lia | done].
Qed.

Lemma lines_not_nil text :
  nonempty (trim text) = true -> lines text <> [].
Proof.
  intros H. apply trim_nonempty in H. rewrite lines_unfold.
  apply split_has_line, (normalise_keeps (String.length text)); [done|].
  clear -H. induction text as [|c s IH]; [done|]. cbn [any_char] in *.
  destruct (is_ws c) eqn:Hc; cbn [negb orb] in H.
  - rewrite IH by done. apply orb_true_r.
  - by rewrite is_ws_eol.
Qed.

Lemma parseLine_not_nil line : parseLine line <> [].
Proof.
  assert (forall n line cur b res, String.length line <= n ->
            scan line cur b res <> []) as H.
  { clear. induction n as [|n IH]; intros line cur b res Hn.
    - destruct line; [|cbn in Hn; lia]. cbn. by destruct res.
    - destruct line as [|c line]; [cbn; by destruct res|].
      cbn [String.length] in Hn. cbn [scan].
      destruct line as [|c' line].
      + repeat (match goal with |- context [if ?x then _ else _] => destruct x end);
          cbn [scan]; by match goal with |- (?l ++ _)%list <> _ => destruct l end.
      + cbn [String.length] in Hn.
        repeat (match goal with |- context [if ?x then _ else _] => destruct x end);
          apply IH; cbn [String.length]; lia. }
  unfold parseLine. by apply (H (String.length line)).
Qed.

(** X2.  A text fetchSheetCSV lets through always parses: it has a line that
    is not empty, so parseCSV finds its header row and the TypeError on
    [rows[0]] cannot happen in the run on the CSV export. *)
Theorem fetched_csv_always_parses (server : nat -> Retry.reply) (csvText : string) :
  Run.fetchSheetCSV server = Store.Done csvText ->
  exists parsed,
    parseCSV csvText = Some parsed
    /\ headers parsed <> []
    /\ length (rows parsed) + 1 = length (lines csvText).
Proof.
  unfold Run.fetchSheetCSV.
  destruct (fst (Retry.fetchWithRetry server)) as [res| |]; [|done..].
  destruct (nonempty (Retry.body res) && nonempty (trim (Retry.body res))) eqn:H;
    [|done].
  intros [= <-]. apply andb_prop in H as [_ H].
  apply lines_not_nil in H. unfold parseCSV.
  destruct (lines (Retry.body res)) as [|l ls]; [done|]. cbn [map].
  eexists. split; [reflexivity|]. cbn [headers rows]. split.
  - pose proof (parseLine_not_nil l). by destruct (parseLine l).
  - rewrite length_map. cbn [length]. lia.
Qed.

(** The theorem on fetched texts at a server that answers 503 once and then
    a header line between two blank lines. *)
Lemma fetched_csv_witness :
  let csvText := String LF ("Reg No,Name" +:+ String CR (String LF EmptyString)) in
  let server n :=
    if (n =? 0)%nat then Retry.Resolves (Retry.mkResponse 503 "Unavailable" "")
    else Retry.Resolves (Retry.mkResponse 200 "OK" csvText) in
  Run.fetchSheetCSV server = Store.Done csvText
  /\ exists parsed,
      parseCSV csvText = Some parsed
      /\ headers parsed <> []
      /\ length (rows parsed) + 1 = length (lines csvText).
Proof.
  intros csvText server.
  assert (Run.fetchSheetCSV server = Store.Done csvText) as H by reflexivity.
  split; [exact H|].
  exact (fetched_csv_always_parses server csvText H).
Defined.

(** *** No line break inside a cell *)

Lemma line_free_push s c :
  line_free s = true -> not_eol c = true -> line_free (push_char s c) = true.
Proof.
  unfold line_free, push_char. intros Hs Hc.
  induction s as [|a s IH]; cbn [all_chars] in *.
  - change (EmptyString +:+ String c EmptyString) with (String c EmptyString).
    cbn [all_chars]. unfold not_eol in Hc. by rewrite Hc.
  - rewrite app_cons. cbn [all_chars]. apply andb_prop in Hs as [-> Hs].
    by rewrite IH.
Qed.

Lemma cr_to_lf_no_CR s :
  all_chars (fun c => negb (Ascii.eqb c CR)) (cr_to_lf s) = true.
Proof.
  induction s as [|c s IH]; [done|]. unfold cr_to_lf in *. cbn [map_chars all_chars].
  rewrite IH. by destruct (Ascii.eqb c CR) eqn:Hc; rewrite ?Hc.
Qed.

Lemma split_line_free s :
  all_chars (fun c => negb (Ascii.eqb c CR)) s = true ->
  Forall (fun l => line_free l = true) (split LF s).
Proof.
  induction s as [|c s IH]; [by repeat constructor|]. cbn [all_chars split].
  intros H. apply andb_prop in H as [Hc Hs]. specialize (IH Hs).
  destruct (Ascii.eqb c LF) eqn:Hlf; [by constructor|].
  destruct (split LF s) as [|piece pieces].
  - repeat constructor. unfold line_free. cbn [all_chars]. by rewrite Hc, Hlf.
  - apply Forall_cons in IH as [Hp Hps]. constructor; [|done].
    unfold line_free in *. cbn [all_chars]. by rewrite Hc, Hlf, Hp.
Qed.

Lemma lines_line_free text : Forall (fun l => line_free l = true) (lines text).
Proof.
  rewrite lines_unfold. apply Forall_forall. intros l Hl.
  apply list_elem_of_filter in Hl as [_ Hl].
  pose proof (split_line_free _ (cr_to_lf_no_CR (replace_crlf text))) as H.
  rewrite Forall_forall in H. by apply H.
Qed.

Lemma scan_line_free n : forall line cur b res,
  String.length line <= n ->
  line_free line = true -> line_free cur = true ->
  Forall (fun cell => line_free cell = true) res ->
  Forall (fun cell => line_free cell = true) (scan line cur b res).
Proof.
  induction n as [|n IH]; intros line cur b res Hn Hline Hcur Hres.
  - destruct line; [|cbn in Hn; lia]. cbn [scan].
    apply Forall_app. by repeat constructor.
  - destruct line as [|c line].
    { cbn [scan]. apply Forall_app. by repeat constructor. }
    cbn [String.length] in Hn. unfold line_free in Hline. cbn [all_chars] in Hline.
    apply andb_prop in Hline as [Hc Hline]. fold (not_eol c) in Hc.
    assert (Forall (fun cell => line_free cell = true) (res ++ [cur])) as Hres'
      by (apply Forall_app; by repeat constructor).
    assert (line_free (push_char cur c) = true) as Hpush
      by by apply line_free_push.
    assert (line_free (push_char cur dquote) = true) as Hpushq
      by by apply line_free_push.
    cbn [scan]. destruct line as [|c' line].
    + repeat (match goal with |- context [if ?x then _ else _] => destruct x end);
        apply IH; (done || cbn [String.length]; lia).
    + cbn [all_chars] in Hline. pose proof Hline as Hline'.
      apply andb_prop in Hline' as [_ Hline''].
      cbn [String.length] in Hn.
      repeat (match goal with |- context [if ?x then _ else _] => destruct x end);
        apply IH; (done || cbn [String.length]; lia).
Qed.

Lemma all_chars_trimStart P s : all_chars P s = true -> all_chars P (trimStart s) = true.
Proof.
  induction s as [|c s IH]; [done|]. cbn [trimStart].
  destruct (is_ws c); [|done]. cbn [all_chars]. intros H.
  apply andb_prop in H as [_ H]. by apply IH.
Qed.

Lemma all_chars_trimEnd P s : all_chars P s = true -> all_chars P (trimEnd s) = true.
Proof.
  induction s as [|c s IH]; [done|]. cbn [trimEnd all_chars]. intros H.
  apply andb_prop in H as [Hc H].
  destruct (is_ws c && negb (nonempty (trimEnd s))); [done|].
  cbn [all_chars]. by rewrite Hc, IH.
Qed.

(** X3.  No cell parseCSV gives holds a CR or a LF, and every row has at
    least one cell: the text is cut into lines before any quote is read, so
    a quoted field with a line break inside ends up in two rows. *)
Theorem parsed_cells_hold_no_line_break (csvText : string) :
  match parseCSV csvText with
  | Some parsed =>
      Forall (fun cell => line_free cell = true) (headers parsed)
      /\ Forall (fun row => row <> []
                            /\ Forall (fun cell => line_free cell = true) row)
           (rows parsed)
  | None => lines csvText = []
  end.
Proof.
  unfold parseCSV. pose proof (lines_line_free csvText) as Hlines.
  destruct (lines csvText) as [|l ls]; [done|]. cbn [map headers rows].
  apply Forall_cons in Hlines as [Hl Hls].
  assert (forall line, line_free line = true ->
            Forall (fun cell => line_free cell = true) (parseLine line)) as Hparse.
  { intros line Hline. unfold parseLine.
    by apply (scan_line_free (String.length line)). }
  split.
  - rewrite DeleteFacts.map_fmap. apply Forall_fmap.
    eapply Forall_impl; [by apply Hparse|]. intros cell Hcell. cbn.
    unfold trim, line_free. by apply all_chars_trimEnd, all_chars_trimStart.
  - rewrite DeleteFacts.map_fmap. apply Forall_fmap.
    eapply Forall_impl; [exact Hls|]. intros line Hline. cbn.
    split; [apply parseLine_not_nil | by apply Hparse].
Qed.

(** *** Lines without quotes, and quotes left open *)

Lemma scan_no_quote line : forall cur res,
  all_chars not_quote line = true ->
  scan line cur false res
  = (res ++ match split comma line with
            | piece :: pieces => (cur +:+ piece) :: pieces
            | [] => [cur]
            end)%list.
Proof.
  induction line as [|c line IH]; intros cur res Hline.
  - cbn [scan split]. by rewrite app_empty_r.
  - cbn [all_chars] in Hline. apply andb_prop in Hline as [Hc Hline].
    unfold not_quote in Hc. apply negb_true_iff in Hc. cbn [split].
    destruct (Ascii.eqb c comma) eqn:Hcomma.
    + apply Ascii.eqb_eq in Hcomma as ->. rewrite scan_comma, IH by done.
      rewrite app_empty_r, <- List.app_assoc. cbn [app]. do 2 f_equal.
      pose proof (split_not_nil comma line). by destruct (split comma line).
    + rewrite scan_other by (rewrite ?Hcomma; done). rewrite IH by done.
      f_equal. destruct (split comma line); [reflexivity | by rewrite push_char_app].
Qed.

(** X4.  On a line without quote characters parseCSV cuts at every comma,
    as [line.split(',')] would. *)
Theorem line_without_quotes_splits_at_commas (line : string) :
  all_chars not_quote line = true ->
  parseLine line = split comma line.
Proof.
  intros H. unfold parseLine. rewrite scan_no_quote by done. cbn [app].
  pose proof (split_not_nil comma line). by destruct (split comma line).
Qed.

(** The theorem on lines without quotes at a line with an empty cell in the
    middle and one at the end. *)
Lemma line_without_quotes_witness :
  all_chars not_quote "S1,,Alice," = true
  /\ parseLine "S1,,Alice," = ["S1"; ""; "Alice"; ""].
Proof.
  split; [reflexivity|].
  exact (line_without_quotes_splits_at_commas "S1,,Alice," eq_refl).
Defined.

Lemma scan_open s : forall cur res,
  all_chars not_quote s = true ->
  scan s cur true res = (res ++ [cur +:+ s])%list.
Proof.
  induction s as [|c s IH]; intros cur res Hs.
  - cbn [scan]. by rewrite app_empty_r.
  - cbn [all_chars] in Hs. apply andb_prop in Hs as [Hc Hs].
    unfold not_quote in Hc. apply negb_true_iff in Hc.
    rewrite scan_other by (rewrite ?andb_false_r; done).
    rewrite IH by done. by rewrite push_char_app.
Qed.

Lemma join_cons sep x y l :
  join sep (x :: y :: l) = x +:+ String sep (join sep (y :: l)).
Proof. reflexivity. Qed.

Lemma scan_cells_then_open s : forall cells res,
  forallb cell_ok cells = true ->
  all_chars not_quote s = true ->
  scan (join comma (map render cells ++ [String dquote s])%list)
       EmptyString false res
  = (res ++ map content cells ++ [s])%list.
Proof.
  intros cells. induction cells as [|c cells IH]; intros res Hcells Hs.
  - cbn [map app join]. rewrite scan_quote.
    + by rewrite scan_open.
    + destruct s as [|a s]; [done|]. cbn [all_chars] in Hs.
      apply andb_prop in Hs as [Ha _]. unfold not_quote in Ha.
      by apply negb_true_iff in Ha.
  - cbn [forallb] in Hcells. apply andb_prop in Hcells as [Hc Hcells].
    cbn [map app].
    assert (exists y l, (map render cells ++ [String dquote s])%list = y :: l)
      as (y & l & Hyl) by (destruct cells; eauto).
    rewrite Hyl, join_cons, <- Hyl.
    rewrite scan_cell by done. rewrite scan_comma, IH by done.
    by rewrite <- List.app_assoc.
Qed.

(** X5.  parseCSV raises no error on a quote that is never closed: all that
    follows the quote up to the end of the line, commas included, is one
    cell. *)
Theorem unclosed_quote_takes_the_rest_of_the_line
    (cells : list cell) (rest : string) :
  forallb cell_ok cells = true ->
  all_chars not_quote rest = true ->
  parseLine (join comma (map render cells ++ [String dquote rest])%list)
  = (map content cells ++ [rest])%list.
Proof.
  intros Hcells Hrest. unfold parseLine. by rewrite scan_cells_then_open.
Qed.

(** The theorem on unclosed quotes at a line of two cells and an open
    quote before three more. *)
Lemma unclosed_quote_witness :
  let cells := [Plain "S1"; Quoted "Doe, J"] in
  let rest := "18,2,x" in
  forallb cell_ok cells = true
  /\ all_chars not_quote rest = true
  /\ parseLine (join comma (map render cells ++ [String dquote rest])%list)
     = ["S1"; "Doe, J"; "18,2,x"].
Proof.
  intros cells rest. split; [reflexivity|]. split; [reflexivity|].
  exact (unclosed_quote_takes_the_rest_of_the_line cells rest eq_refl eq_refl).
Defined.

End CsvMore.

(** ** More on header resolution *)

Module HeaderMore.
Import Js Header StringFacts HeaderFacts.

Lemma last_pos_None k keys : last_pos k keys = None <-> k ∉ keys.
Proof.
  induction keys as [|x keys IH]; cbn [last_pos].
  - split; [intros _; apply not_elem_of_nil | done].
  - rewrite not_elem_of_cons. destruct (last_pos k keys) as [j|].
    + split; [done|]. intros [_ H]. by apply IH in H.
    + destruct (String.eqb_spec x k) as [->|Hne].
      * split; [done | by intros [? _]].
      * split; [|done]. intros _. split; [congruence | by apply IH].
Qed.

(** X6.  The index buildHeaderIndex gives holds a key exactly when a label of
    the header row resolves to it, and sends it to a column of that row:
    the last one whose label resolves to the key. *)
Theorem header_index_is_last_column_of_each_key (headers : list string) (k : string) :
  match buildHeaderIndex headers !! k with
  | Some i =>
      i < length headers
      /\ map key_of headers !! i = Some k
      /\ forall j, i < j -> map key_of headers !! j <> Some k
  | None => k ∉ map key_of headers
  end.
Proof.
  unfold buildHeaderIndex. rewrite build_lookup.
  destruct (last_pos k (map key_of headers)) as [j|] eqn:H.
  - apply last_pos_Some in H as [Hj Hlater]. cbn [Nat.add].
    split; [|done]. apply lookup_lt_Some in Hj. by rewrite length_map in Hj.
  - rewrite lookup_empty. by apply last_pos_None.
Qed.

(** *** The normal form of a label *)

Definition separator_to_space (c : ascii) : ascii :=
  if Num.is_char c "_" "-" then space else c.

Lemma normalizeHeaderForMap_unfold h :
  normalizeHeaderForMap h
  = trim (replace_ws_runs space false (map_chars separator_to_space (toLowerCase h))).
Proof. reflexivity. Qed.

Lemma lower_char_idem c : lower_char (lower_char c) = lower_char c.
Proof. destruct c as [[] [] [] [] [] [] [] []]; reflexivity. Qed.

Lemma lower_separator c :
  lower_char c = c -> lower_char (separator_to_space c) = separator_to_space c.
Proof.
  unfold separator_to_space. by destruct (Num.is_char c "_" "-").
Qed.

Lemma separator_idem c :
  separator_to_space (separator_to_space c) = separator_to_space c.
Proof.
  unfold separator_to_space. by destruct (Num.is_char c "_" "-") eqn:H; rewrite ?H.
Qed.

Lemma ws_not_separator c : is_ws c = true -> separator_to_space c = c.
Proof. destruct c as [[] [] [] [] [] [] [] []]; (done || reflexivity). Qed.

Lemma ws_lower c : is_ws c = true -> lower_char c = c.
Proof. destruct c as [[] [] [] [] [] [] [] []]; (done || reflexivity). Qed.

(** Every code unit of the string is left as it is by [f]. *)
Definition fixed_by (f : ascii -> ascii) (s : string) : bool :=
  all_chars (fun c => Ascii.eqb (f c) c) s.

Lemma fixed_by_map f s : fixed_by f s = true -> map_chars f s = s.
Proof.
  unfold fixed_by. induction s as [|c s IH]; [done|]. cbn [all_chars map_chars].
  intros H. apply andb_prop in H as [Hc Hs]. apply Ascii.eqb_eq in Hc.
  by rewrite Hc, IH.
Qed.

Lemma fixed_by_map_idem f s :
  (forall c, f (f c) = f c) -> fixed_by f (map_chars f s) = true.
Proof.
  intros Hf. unfold fixed_by. induction s as [|c s IH]; [done|].
  cbn [map_chars all_chars]. by rewrite Hf, Ascii.eqb_refl.
Qed.

Lemma fixed_by_map_other f g s :
  (forall c, f c = c -> f (g c) = g c) ->
  fixed_by f s = true -> fixed_by f (map_chars g s) = true.
Proof.
  intros Hfg. unfold fixed_by. induction s as [|c s IH]; [done|].
  cbn [map_chars all_chars]. intros H. apply andb_prop in H as [Hc Hs].
  apply Ascii.eqb_eq in Hc. rewrite (Hfg c Hc), Ascii.eqb_refl. by apply IH.
Qed.

Lemma fixed_by_runs f r s : forall b,
  f r = r -> fixed_by f s = true -> fixed_by f (replace_ws_runs r b s) = true.
Proof.
  intros b Hr. unfold fixed_by. revert b.
  induction s as [|c s IH]; intros b; [done|].
  cbn [all_chars replace_ws_runs]. intros H. apply andb_prop in H as [Hc Hs].
  destruct (is_ws c); [destruct b|]; cbn [all_chars];
    rewrite ?Hr, ?Hc, ?Ascii.eqb_refl; by apply IH.
Qed.

Lemma all_chars_trim P s : all_chars P s = true -> all_chars P (trim s) = true.
Proof.
  intros H. unfold trim.
  by apply CsvMore.all_chars_trimEnd, CsvMore.all_chars_trimStart.
Qed.

(** White space comes as single spaces; with [b], not at the head. *)
Fixpoint tidy (b : bool) (s : string) : bool :=
  match s with
  | EmptyString => true
  | String c s' =>
      if is_ws c then Ascii.eqb c space && negb b && tidy true s'
      else tidy false s'
  end.

Lemma tidy_runs s : forall b, tidy b (replace_ws_runs space b s) = true.
Proof.
  induction s as [|c s IH]; intros b; [done|]. cbn [replace_ws_runs].
  destruct (is_ws c) eqn:Hc.
  - destruct b; [apply IH|]. cbn [tidy].
    change (is_ws space) with true. cbn. apply IH.
  - cbn [tidy]. rewrite Hc. apply IH.
Qed.

Lemma tidy_weaken s : tidy true s = true -> tidy false s = true.
Proof.
  destruct s as [|c s]; [done|]. cbn [tidy]. destruct (is_ws c); [|done].
  rewrite andb_false_r. done.
Qed.

Lemma tidy_trimStart s : tidy false s = true -> tidy false (trimStart s) = true.
Proof.
  induction s as [|c s IH]; [done|]. cbn [trimStart].
  destruct (is_ws c) eqn:Hc; [|done]. cbn [tidy]. rewrite Hc. intros H.
  apply andb_prop in H as [_ H]. by apply IH, tidy_weaken.
Qed.

Lemma tidy_trimEnd s : forall b, tidy b s = true -> tidy b (trimEnd s) = true.
Proof.
  induction s as [|c s IH]; intros b; [done|]. cbn [trimEnd tidy].
  destruct (is_ws c && negb (nonempty (trimEnd s))); [done|].
  cbn [tidy]. destruct (is_ws c).
  - intros H. apply andb_prop in H as [-> H]. by rewrite IH.
  - apply IH.
Qed.

Lemma tidy_fixed s : forall b,
  tidy b s = true -> replace_ws_runs space b s = s.
Proof.
  induction s as [|c s IH]; intros b; [done|]. cbn [tidy replace_ws_runs].
  destruct (is_ws c).
  - intros H. apply andb_prop in H as [H Hs]. apply andb_prop in H as [Hc Hb].
    apply Ascii.eqb_eq in Hc as ->. destruct b; [done|]. by rewrite IH.
  - intros H. by rewrite IH.
Qed.

(** X7.  normalizeHeaderForMap gives a normal form: it leaves its own result
    as it is, and it gives the same result for a label and for that label
    in lower case.  A header row that is already normalised resolves the
    same way as the original one. *)
Theorem normalizeHeaderForMap_is_idempotent (h : string) :
  normalizeHeaderForMap (normalizeHeaderForMap h) = normalizeHeaderForMap h
  /\ normalizeHeaderForMap (toLowerCase h) = normalizeHeaderForMap h
  /\ mapped (normalizeHeaderForMap (normalizeHeaderForMap h))
     = mapped (normalizeHeaderForMap h).
Proof.
  assert (normalizeHeaderForMap (normalizeHeaderForMap h) = normalizeHeaderForMap h)
    as Hidem.
  { rewrite (normalizeHeaderForMap_unfold (normalizeHeaderForMap h)).
    set (t := normalizeHeaderForMap h).
    assert (fixed_by lower_char t = true) as Hlow.
    { unfold t. rewrite normalizeHeaderForMap_unfold. apply all_chars_trim.
      apply fixed_by_runs; [done|].
      apply fixed_by_map_other; [apply lower_separator|].
      apply fixed_by_map_idem, lower_char_idem. }
    assert (fixed_by separator_to_space t = true) as Hsep.
    { unfold t. rewrite normalizeHeaderForMap_unfold. apply all_chars_trim.
      apply fixed_by_runs; [done|]. apply fixed_by_map_idem, separator_idem. }
    assert (tidy false t = true) as Htidy.
    { unfold t. rewrite normalizeHeaderForMap_unfold. unfold trim.
      apply tidy_trimEnd, tidy_trimStart, tidy_runs. }
    unfold toLowerCase. rewrite (fixed_by_map _ _ Hlow), (fixed_by_map _ _ Hsep).
    rewrite (tidy_fixed _ _ Htidy). unfold t.
    rewrite normalizeHeaderForMap_unfold. apply SyncFacts.trim_idem. }
  split; [exact Hidem|]. split; [|by rewrite Hidem].
  rewrite !normalizeHeaderForMap_unfold. unfold toLowerCase.
  by rewrite (fixed_by_map _ _ (fixed_by_map_idem _ h lower_char_idem)).
Qed.

End HeaderMore.

(** ** More on row normalisation *)

Module RowMore.
Import Js Num Student Normalize Attendance Sync AttendanceFacts SyncFacts.

(** The string properties mapRowToStudent sets. *)
Definition string_fields : list string :=
  [ "register_no"; "name"; "father_name"; "mother_name"; "address"; "class";
    "year"; "department"; "email"; "phone_number"; "profile_image_url" ].

(** The names mapRowToStudent looks up in the header index. *)
Definition fields_read : list string := (string_fields ++ academic_fields)%list.

Section Shape.
Variable headerIndex : gmap string nat.
Variable row : list string.

(** X8.  Whatever the sheet holds, a normalised row has the eleven string
    properties, each trimmed, and the four numeric properties, each null or
    a finite number, and no other property: no percentage is taken from the
    sheet, and no property is ever [undefined]. *)
Theorem normalized_row_has_fifteen_properties :
  dom (text (mapRowToStudent headerIndex row)) = list_to_set string_fields
  /\ dom (nums (mapRowToStudent headerIndex row)) = list_to_set academic_fields
  /\ map_Forall (fun _ v => trim v = v) (text (mapRowToStudent headerIndex row))
  /\ map_Forall (fun _ v => finite_or_null v = true)
       (nums (mapRowToStudent headerIndex row)).
Proof.
  split; [|split; [|split]].
  - unfold mapRowToStudent. cbn [text]. rewrite !dom_insert_L, dom_empty_L.
    unfold string_fields. cbn [list_to_set foldr]. set_solver.
  - unfold mapRowToStudent. cbn [nums]. rewrite !dom_insert_L, dom_empty_L.
    unfold academic_fields. cbn [list_to_set foldr]. set_solver.
  - intros k v Hk. by apply (text_normalized_trimmed headerIndex row k).
  - intros k v Hk. rewrite nums_normalized in Hk.
    case_bool_decide; [|done]. injection Hk as <-. apply getNum_finite.
Qed.

End Shape.

(** X9.  mapRowToStudent reads the header index under fifteen names and
    nowhere else: two indexes that agree on those names give the same row,
    so any other column of the sheet, a percentage column included, is
    ignored. *)
Theorem other_columns_are_ignored
    (headerIndex headerIndex' : gmap string nat) (row : list string) :
  Forall (fun k => headerIndex !! k = headerIndex' !! k) fields_read ->
  mapRowToStudent headerIndex row = mapRowToStudent headerIndex' row.
Proof.
  intros H. rewrite Forall_forall in H.
  assert (forall k, k ∈ fields_read ->
            getStrOrEmpty headerIndex row k = getStrOrEmpty headerIndex' row k)
    as Hstr by (intros k Hk; unfold getStrOrEmpty; by rewrite (H k Hk)).
  assert (forall k, k ∈ fields_read ->
            getNumOrNull headerIndex row k = getNumOrNull headerIndex' row k)
    as Hnum by (intros k Hk; unfold getNumOrNull; by rewrite (H k Hk)).
  assert (forall k, k ∈ fields_read -> k ∈ fields_read) as Hin by done.
  unfold mapRowToStudent.
  rewrite !Hstr, !Hnum;
    try (unfold fields_read, string_fields, academic_fields; cbn [app];
         repeat first [apply list_elem_of_here | apply list_elem_of_further]).
  done.
Qed.

(** The theorem on other columns at a sheet with a percentage column, and
    at the index without it. *)
Lemma other_columns_witness :
  let headerIndex :=
    Header.buildHeaderIndex ["Register No"; "Attendance Percentage"; "Present Today"] in
  let headerIndex' := delete "attendance_percentage" headerIndex in
  let row := ["S1"; "55"; "18"] in
  Forall (fun k => headerIndex !! k = headerIndex' !! k) fields_read
  /\ headerIndex !! "attendance_percentage" = Some 1
  /\ mapRowToStudent headerIndex row = mapRowToStudent headerIndex' row.
Proof.
  intros headerIndex headerIndex' row.
  assert (Forall (fun k => headerIndex !! k = headerIndex' !! k) fields_read) as H.
  { unfold fields_read, string_fields, academic_fields. cbn [app].
    repeat (constructor; [vm_compute; reflexivity|]). constructor. }
  split; [exact H|]. split; [vm_compute; reflexivity|].
  exact (other_columns_are_ignored headerIndex headerIndex' row H).
Defined.

Section Padding.
Variable headerIndex : gmap string nat.
Variable row : list string.
Variable n : nat.

Lemma padded_cell (idx : nat) :
  default EmptyString ((row ++ replicate n EmptyString)%list !! idx)
  = default EmptyString (row !! idx).
Proof.
  destruct (decide (idx < length row)) as [Hlt|Hge].
  - by rewrite lookup_app_l.
  - rewrite lookup_app_r by lia. rewrite (lookup_ge_None_2 row idx) by lia.
    destruct (replicate n EmptyString !! (idx - length row)) as [v|] eqn:Hv;
      [|done].
    by apply lookup_replicate in Hv as [-> _].
Qed.

Lemma getStr_padded k :
  getStrOrEmpty headerIndex (row ++ replicate n EmptyString)%list k
  = getStrOrEmpty headerIndex row k.
Proof.
  unfold getStrOrEmpty. destruct (headerIndex !! k) as [idx|]; [|done].
  by rewrite padded_cell.
Qed.

Lemma getNum_padded k :
  getNumOrNull headerIndex (row ++ replicate n EmptyString)%list k
  = getNumOrNull headerIndex row k.
Proof.
  unfold getNumOrNull. destruct (headerIndex !! k) as [idx|]; [|done].
  destruct (decide (idx < length row)) as [Hlt|Hge].
  - by rewrite lookup_app_l.
  - rewrite lookup_app_r by lia. rewrite (lookup_ge_None_2 row idx) by lia.
    destruct (replicate n EmptyString !! (idx - length row)) as [v|] eqn:Hv;
      [|done].
    by apply lookup_replicate in Hv as [-> _].
Qed.

(** X10.  A row shorter than the header row is read as if its missing cells
    were empty strings: adding any number of empty cells at its end gives
    the same normalised row. *)
Theorem short_row_reads_as_padded_with_empty_cells :
  mapRowToStudent headerIndex (row ++ replicate n EmptyString)%list
  = mapRowToStudent headerIndex row.
Proof.
  unfold mapRowToStudent. by rewrite !getStr_padded, !getNum_padded.
Qed.

End Padding.

End RowMore.

(** ** More on the percentage *)

Module AttendanceMore.
Import Js Num Student Normalize Attendance Sync.
Import Binary64Facts AttendanceFacts SyncFacts.
Local Open Scope Q_scope.

(** *** The two places that compute the percentage *)

Lemma orZero_idem v : orZero (Some (Num (orZero v))) = orZero v.
Proof.
  destruct v as [[|n]|]; try reflexivity. cbn [orZero].
  destruct (truthy n) eqn:Hn; [by rewrite Hn | reflexivity].
Qed.

Lemma div_falsy_numerator q n : Qzero q = true -> div (Fin q) n = div zero n.
Proof.
  intros Hq. destruct n as [t| |s]; [|done..]. unfold zero. cbn [div].
  rewrite Hq. change (Qzero 0) with true.
  destruct (Qzero t); [done|]. apply binary64_comp.
  unfold Qzero in Hq. apply Qeq_bool_eq in Hq. by rewrite Hq.
Qed.

Lemma div_toNumber_orZero v n :
  finite_or_null v = true -> div (toNumber (Some v)) n = div (orZero (Some v)) n.
Proof.
  destruct v as [|[q| |]]; try done. intros _. cbn [toNumber orZero truthy].
  destruct (Qzero q) eqn:Hq; cbn [negb]; [by apply div_falsy_numerator | done].
Qed.

Lemma deriveAttendance_orZero (row : gmap string numval) pv lv :
  row !! "present_today"%string = Some pv ->
  row !! "leave_taken"%string = Some lv ->
  finite_or_null pv = true ->
  deriveAttendance row
  = deriveAttendance
      (<["present_today"%string := Num (orZero (Some pv))]>
         (<["leave_taken"%string := Num (orZero (Some lv))]> ∅)).
Proof.
  intros Hp Hl Fp. unfold deriveAttendance. rewrite Hp, Hl.
  rewrite lookup_insert_eq, lookup_insert_ne, lookup_insert_eq by done.
  rewrite !orZero_idem. rewrite (div_toNumber_orZero pv) by done.
  reflexivity.
Qed.

(** X12.  For a row with academic data the percentage upsertStudents
    computes again from the counts read with [|| 0] is the one the row loop
    attached: the payload carries the same number. *)
Theorem payload_percentage_is_the_attached_one
    (headerIndex : gmap string nat) (row : list string) :
  blank_academic headerIndex row = false ->
  nums (payload headerIndex row) !! "attendance_percentage"%string
  = nums (pushed headerIndex row) !! "attendance_percentage"%string.
Proof.
  intros Hb. rewrite payload_percentage. unfold recomputed.
  rewrite !nums_pushed by in_list. rewrite Hb.
  rewrite pushed_eq, Hb. cbn [set_num nums]. rewrite lookup_insert_eq.
  do 2 f_equal. symmetry.
  apply deriveAttendance_orZero;
    [apply nums_academic; in_list | apply nums_academic; in_list
    | apply getNum_finite].
Qed.

(** The theorem on the two percentages at a row with 7 present and 0 on
    leave. *)
Lemma payload_percentage_witness :
  let headerIndex :=
    Header.buildHeaderIndex ["Register No"; "Present Today"; "Leave Taken"]%string in
  let row := ["S1"; "7"; "0"]%string in
  blank_academic headerIndex row = false
  /\ nums (payload headerIndex row) !! "attendance_percentage"%string
     = nums (pushed headerIndex row) !! "attendance_percentage"%string.
Proof.
  intros headerIndex row.
  assert (blank_academic headerIndex row = false) as H by (vm_compute; reflexivity).
  split; [exact H|].
  exact (payload_percentage_is_the_attached_one headerIndex row H).
Defined.

(** *** The percentage the profile page shows *)

Lemma add_orZero p l :
  add (orZero (Some (Num (Fin p)))) (orZero (Some (Num (Fin l))))
  = add (Fin p) (Fin l).
Proof.
  cbn [orZero truthy].
  destruct (Qzero p) eqn:Hp, (Qzero l) eqn:Hl; cbn [negb]; unfold zero;
    cbn [add]; apply binary64_comp;
    unfold Qzero in *; try apply Qeq_bool_eq in Hp; try apply Qeq_bool_eq in Hl;
    try rewrite Hp; try rewrite Hl; ring.
Qed.

(** X13.  On two finite counts computeAttendance of the profile page gives
    the number deriveAttendance gives, so the page shows the stored
    percentage of such a row; with a count that is null it shows no
    percentage at all. *)
Theorem computeAttendance_agrees_with_deriveAttendance (p l : Q) :
  Ui.computeAttendance (Some (Num (Fin p))) (Some (Num (Fin l)))
  = Some (deriveAttendance
            (<["present_today"%string := Num (Fin p)]>
               (<["leave_taken"%string := Num (Fin l)]> ∅)))
  /\ (forall v, Ui.computeAttendance (Some Null) v = None
                /\ Ui.computeAttendance v (Some Null) = None
                /\ Ui.computeAttendance None v = None
                /\ Ui.computeAttendance v None = None).
Proof.
  split.
  - unfold Ui.computeAttendance, deriveAttendance.
    rewrite lookup_insert_eq, lookup_insert_ne, lookup_insert_eq by done.
    rewrite add_orZero. cbn [toNumber add].
    destruct (binary64 (p + l)) as [t| |negative] eqn:Ht.
    + cbn [isFinite negb orb]. unfold Ui.le, Num.gt, zero.
      destruct (Qlt_le_dec 0 t) as [Hpos|Hneg].
      * destruct (Qle_bool t 0) eqn:Hle; [apply Qle_bool_iff in Hle; lra|].
        reflexivity.
      * apply Qle_bool_iff in Hneg. rewrite Hneg. vm_compute. reflexivity.
    + by apply binary64_not_NaN in Ht.
    + cbn [isFinite negb orb Num.gt div].
      destruct negative; vm_compute; reflexivity.
  - intros v. repeat split; try reflexivity; by destruct v as [[|?]|].
Qed.

Lemma computeAttendance_not_NaN present leave n :
  Ui.computeAttendance present leave = Some n -> n <> NaN.
Proof.
  unfold Ui.computeAttendance.
  destruct present as [[|p]|]; try done. destruct leave as [[|l]|]; try done.
  destruct (negb (isFinite (add p l)) || Ui.le (add p l) zero); [by intros [= <-]|].
  intros [= <-]. apply hundredths_not_NaN.
Qed.

Lemma ringColor_finite a :
  Ui.ringColor (Some (Fin a)) = if Qle_bool 75 a then Ui.Green else Ui.Amber.
Proof.
  unfold Ui.ringColor, Ui.shown. cbn [from_option id Ui.le].
  destruct (Qle_bool 75 a); [done|]. by destruct (Qle_bool 65 a).
Qed.

Lemma Qle_bool_false a b : Qle_bool a b = false <-> b < a.
Proof.
  split.
  - intros H. destruct (Qlt_le_dec b a) as [?|Hle]; [done|].
    apply Qle_bool_iff in Hle. congruence.
  - intros H. destruct (Qle_bool a b) eqn:Hle; [|done].
    apply Qle_bool_iff in Hle. lra.
Qed.

(** X14.  The ring of ProfileHeader is always drawn between 0 and 100: pct of
    what computeAttendance gives is a finite number in that range for every
    pair of stored counts, missing, negative or not finite.  The colour of
    the ring follows from the drawn percentage alone: green from 75 up and
    amber below, on either side of 65. *)
Theorem ring_percentage_is_within_0_100 (present leave : option numval) :
  exists q,
    Ui.pct (Ui.computeAttendance present leave) = Fin q
    /\ 0 <= q /\ q <= 100
    /\ Ui.ringColor (Ui.computeAttendance present leave)
       = if Qle_bool 75 q then Ui.Green else Ui.Amber.
Proof.
  destruct (Ui.computeAttendance present leave) as [n|] eqn:H.
  - apply computeAttendance_not_NaN in H. destruct n as [a| |negative]; [|done|].
    2: { destruct negative; [exists 0 | exists 100];
           (split; [reflexivity|]); (split; [lra|]); (split; [lra|]);
           reflexivity. }
    rewrite ringColor_finite.
    unfold Ui.pct, Ui.shown. cbn [from_option id].
    unfold zero, hundred. cbn [Ui.max Ui.le].
    destruct (Qle_bool a 0) eqn:H0.
    + exists 0. apply Qle_bool_iff in H0.
      assert (Qle_bool 75 a = false) as -> by (apply Qle_bool_false; lra).
      cbn. repeat split; lra.
    + cbn [Ui.min Ui.le]. apply Qle_bool_false in H0.
      destruct (Qle_bool a 100) eqn:H100.
      * exists a. split; [done|]. apply Qle_bool_iff in H100.
        repeat split; [lra|lra].
      * exists 100. apply Qle_bool_false in H100.
        assert (Qle_bool 75 a = true) as -> by (apply Qle_bool_iff; lra).
        repeat split; lra.
  - exists 0. cbn. repeat split; lra.
Qed.

End AttendanceMore.

(** ** More on the batched upsert *)

Module UpsertMore.
Import Js Student Sync Store.

(** The list cut into consecutive pieces of [batchSize], the last one
    shorter when the length asks for it. *)
Fixpoint chunksFrom (fuel : nat) (l : list student) : list (list student) :=
  match fuel with
  | O => []
  | S fuel' =>
      match l with
      | [] => []
      | _ => take batchSize l :: chunksFrom fuel' (drop batchSize l)
      end
  end.

Definition chunks (l : list student) : list (list student) :=
  chunksFrom (length l) l.

(** One upsert request per batch, in order, stopping at the first one that
    is answered with an error. *)
Fixpoint sendAll {db : Type} (c : client db) (batches : list (list student))
    (upserted : nat) : M (db := db) nat :=
  match batches with
  | [] => ret upserted
  | batch :: more =>
      bind (request "Supabase upsert error: " (upsert c batch))
           (fun _ => sendAll c more (upserted + length batch))
  end.

Lemma upsertFrom_sendAll {db : Type} (c : client db) students fuel :
  forall i upserted d,
    length students <= i + fuel ->
    upsertFrom c fuel i upserted students d
    = sendAll c (map (map toPayload) (chunksFrom fuel (drop i students)))
              upserted d.
Proof.
  induction fuel as [|fuel IH]; intros i upserted d Hlen; [done|].
  cbn [upsertFrom chunksFrom].
  destruct (Nat.ltb_spec i (length students)) as [Hi|Hi].
  - destruct (drop i students) as [|x rest] eqn:Hdrop.
    { apply (f_equal length) in Hdrop. rewrite length_drop in Hdrop.
      cbn in Hdrop. lia. }
    rewrite <- Hdrop. cbn [map sendAll]. unfold bind.
    destruct (request _ _ d) as [[[]|message] d']; [|done].
    rewrite IH by (unfold batchSize; lia). by rewrite drop_drop.
  - by rewrite drop_ge by lia.
Qed.

Lemma chunksFrom_concat fuel : forall l,
  length l <= fuel -> concat (chunksFrom fuel l) = l.
Proof.
  induction fuel as [|fuel IH]; intros l Hl.
  - by destruct l; [|cbn in Hl; lia].
  - cbn [chunksFrom]. destruct l as [|x l]; [done|].
    cbn [concat]. rewrite IH.
    + apply take_drop.
    + rewrite length_drop. unfold batchSize. cbn [length] in *. lia.
Qed.

Lemma chunksFrom_sizes fuel : forall l,
  Forall (fun batch => 1 <= length batch <= 500) (chunksFrom fuel l).
Proof.
  induction fuel as [|fuel IH]; intros l; [constructor|].
  cbn [chunksFrom]. destruct l as [|x l]; constructor; [|apply IH].
  rewrite length_take. unfold batchSize. cbn [length]. lia.
Qed.

Lemma chunksFrom_count fuel : forall l,
  length l <= fuel ->
  length (chunksFrom fuel l) = (length l + 499) / 500.
Proof.
  induction fuel as [|fuel IH]; intros l Hl.
  - destruct l; [done | cbn in Hl; lia].
  - cbn [chunksFrom]. destruct l as [|x l]; [done|].
    set (n := length (x :: l)) in *.
    assert (1 <= n) by (unfold n; cbn; lia).
    assert (length (drop batchSize (x :: l)) = n - 500) as Hdrop
      by (by rewrite length_drop).
    cbn [length]. rewrite IH, Hdrop by lia.
    destruct (Nat.le_gt_cases n 500) as [Hsmall|Hbig].
    + replace (n - 500) with 0 by lia. cbn [Nat.add].
      rewrite (Nat.div_small 499 500) by lia.
      apply (Nat.div_unique _ _ 1 (n - 1)); lia.
    + replace (n + 499) with ((n - 500 + 499) + 1 * 500) by lia.
      rewrite Nat.div_add by lia. lia.
Qed.

(** X15.  For every destination upsertStudents sends the payloads in their
    order, cut into batches of 500: one request per batch, the next one
    only after the previous one was accepted.  No batch is empty or longer
    than 500, together they are all the rows, and there are as many as the
    number of rows divided by 500, rounded up; with no row no request is
    sent. *)
Theorem upsertStudents_sends_batches_of_500_in_order
    {db : Type} (c : client db) (students : list student) (d : db) :
  upsertStudents c students d
  = sendAll c (map (map toPayload) (chunks students)) 0 d
  /\ concat (chunks students) = students
  /\ Forall (fun batch => 1 <= length batch <= 500) (chunks students)
  /\ length (chunks students) = (length students + 499) / 500.
Proof.
  split; [|split; [|split]].
  - unfold upsertStudents, chunks. rewrite upsertFrom_sendAll by lia.
    by rewrite drop_0.
  - by apply chunksFrom_concat.
  - apply chunksFrom_sizes.
  - by apply chunksFrom_count.
Qed.

(** *** What a destination that rejects a batch has received *)

Definition upserts_in (log : list Recorder.asked) : nat :=
  length (filter (fun a => Recorder.is_upsert a = true) log).

Lemma upserts_in_app log a :
  upserts_in (log ++ [a]) = upserts_in log + (if Recorder.is_upsert a then 1 else 0).
Proof.
  unfold upserts_in. rewrite filter_app, length_app. f_equal.
  destruct (Recorder.is_upsert a) eqn:Ha.
  - by rewrite filter_cons_True.
  - rewrite filter_cons_False; [done | congruence].
Qed.

Lemma sendAll_rejected stored k batches : forall log upserted,
  upserts_in log <= k ->
  k - upserts_in log < length batches ->
  sendAll (Recorder.client stored (Some k)) batches upserted log
  = (Thrown "Supabase upsert error: rejected",
     (log ++ map Recorder.Upsert (take (S (k - upserts_in log)) batches))%list).
Proof.
  induction batches as [|batch more IH]; intros log upserted Hle Hlt.
  - cbn in Hlt. lia.
  - cbn [sendAll]. unfold bind, request. cbn [upsert Recorder.client].
    fold (upserts_in log).
    destruct (Nat.leb_spec k (upserts_in log)) as [Hk|Hk].
    + by replace (k - upserts_in log) with 0 by lia.
    + rewrite IH; rewrite ?upserts_in_app; cbn [Recorder.is_upsert];
        [|lia|cbn [length] in Hlt; lia].
      replace (k - upserts_in log) with (S (k - (upserts_in log + 1))) by lia.
      cbn [take map]. by rewrite <- List.app_assoc.
Qed.

(** X16.  When the destination rejects the batch that comes after [j]
    accepted ones, upsertStudents throws the error with the prefix of the
    script and sends nothing more: the destination has received the first
    [j + 1] batches and no other request, and the [j] accepted batches stay
    written. *)
Theorem rejected_batch_stops_the_upsert
    (stored : list string) (students : list student) (j : nat) :
  j < length (chunks students) ->
  upsertStudents (Recorder.client stored (Some j)) students []
  = (Thrown "Supabase upsert error: rejected",
     map Recorder.Upsert (take (S j) (map (map toPayload) (chunks students)))).
Proof.
  intros Hj. unfold upsertStudents. rewrite upsertFrom_sendAll by lia.
  rewrite drop_0. fold (chunks students).
  rewrite sendAll_rejected; cbn; rewrite ?length_map; [|lia..].
  by rewrite Nat.sub_0_r.
Qed.

(** The theorem on a rejected batch at one row and a destination that
    rejects the first batch. *)
Lemma rejected_batch_witness :
  let row : student := mkStudent (<["register_no" := "S1"]> ∅) ∅ in
  0 < length (chunks [row])
  /\ upsertStudents (Recorder.client [] (Some 0)) [row] []
     = (Thrown "Supabase upsert error: rejected",
        [Recorder.Upsert [toPayload row]]).
Proof.
  intros row.
  assert (0 < length (chunks [row])) as H by (cbn; lia).
  split; [exact H|].
  exact (rejected_batch_stops_the_upsert [] [row] 0 H).
Defined.

End UpsertMore.

(** ** The table after a whole run *)

Module MirrorMore.
Import Js Num Student Normalize Attendance Sync Store.
Import SyncFacts DeleteFacts LoopFacts.

(** The keys the run gives to deleteMissingStudents. *)
Definition sheet_keys (headers : list string) (rows : list (list string))
    : list string :=
  map (fun r => str r "register_no")
      (validRows (sortRows (normalize headers rows))).

(** What the in-memory table holds under [k] once the payload [p] is
    written over [old]. *)
Definition written (k : string) (old : option student) (p : student)
    : option student :=
  if decide (str p "register_no" = k)
  then Some (Memory.merge p (default (mkStudent ∅ ∅) old))
  else old.

Lemma merge_assoc p q o :
  Memory.merge p (Memory.merge q o) = Memory.merge (Memory.merge p q) o.
Proof. unfold Memory.merge. cbn. f_equal; apply (assoc_L (∪)). Qed.

Lemma merge_empty_r p : Memory.merge p (mkStudent ∅ ∅) = p.
Proof.
  destruct p as [tx nm]. unfold Memory.merge. cbn.
  f_equal; apply (right_id_L ∅ (∪)).
Qed.

Lemma merge_twice p o :
  Memory.merge p (Memory.merge p o) = Memory.merge p o.
Proof.
  rewrite merge_assoc. f_equal. destruct p as [tx nm]. unfold Memory.merge. cbn.
  f_equal; apply (idemp_L (∪)).
Qed.

Lemma upsert_all_lookup ps : forall t,
  Forall (fun p => keyed p = true) ps ->
  exists t',
    foldl Memory.upsert_one (Some t) ps = Some t'
    /\ forall k, t' !! k = foldl (written k) (t !! k) ps.
Proof.
  induction ps as [|p ps IH]; intros t Hps.
  - by exists t.
  - apply Forall_cons in Hps as [Hp Hps].
    destruct (keyed_text p Hp) as (key & Hkey & _).
    cbn [foldl]. rewrite (upsert_one_Some t p key Hkey).
    destruct (IH (<[key := Memory.merge p (default (mkStudent ∅ ∅) (t !! key))]> t) Hps)
      as (t' & Hfold & Hlook).
    exists t'. split; [done|]. intros k. rewrite Hlook. f_equal.
    unfold written, str. rewrite Hkey.
    change (default EmptyString (Some key)) with key.
    destruct (decide (key = k)) as [->|Hne];
      [by rewrite lookup_insert_eq | by rewrite lookup_insert_ne].
Qed.

(** The payloads for one key act on what was stored as one payload, their
    merge. *)
Lemma written_fold k ps : forall old,
  foldl (written k) old ps
  = match foldl (written k) None ps with
    | None => old
    | Some p => Some (Memory.merge p (default (mkStudent ∅ ∅) old))
    end.
Proof.
  induction ps as [|p ps IH] using rev_ind; intros old; [done|].
  rewrite !foldl_app. cbn [foldl]. unfold written at 1 3.
  destruct (decide (str p "register_no" = k)) as [Hk|Hk]; [|apply IH].
  rewrite (IH old). destruct (foldl (written k) None ps) as [q|]; cbn [from_option id].
  - by rewrite merge_assoc.
  - by rewrite merge_empty_r.
Qed.

Lemma written_twice k ps old :
  foldl (written k) (foldl (written k) old ps) ps = foldl (written k) old ps.
Proof.
  rewrite (written_fold k ps (foldl (written k) old ps)).
  rewrite (written_fold k ps old).
  destruct (foldl (written k) None ps) as [p|]; [|done].
  cbn [from_option id]. by rewrite merge_twice.
Qed.

Lemma written_is_Some k ps : forall old,
  is_Some (foldl (written k) old ps)
  <-> is_Some old \/ k ∈ map (fun p => str p "register_no") ps.
Proof.
  induction ps as [|p ps IH]; intros old; cbn [foldl map].
  - rewrite elem_of_nil. tauto.
  - rewrite IH, elem_of_cons. unfold written.
    destruct (decide (str p "register_no" = k)) as [Hk|Hk].
    + split; [intros _; right; by left | intros _; left; by eexists].
    + split; [tauto|]. intros [?|[?|?]]; [tauto|congruence|tauto].
Qed.

(** Writing the same payloads a second time changes nothing. *)
Lemma upsert_all_twice ps t t' :
  Forall (fun p => keyed p = true) ps ->
  foldl Memory.upsert_one (Some t) ps = Some t' ->
  foldl Memory.upsert_one (Some t') ps = Some t'.
Proof.
  intros Hps Hfold.
  destruct (upsert_all_lookup ps t Hps) as (t1 & Hfold1 & Hlook1).
  assert (t1 = t') as -> by congruence.
  destruct (upsert_all_lookup ps t' Hps) as (t2 & Hfold2 & Hlook2).
  rewrite Hfold2. f_equal. apply map_eq. intros k.
  by rewrite Hlook2, !Hlook1, written_twice.
Qed.

(** *** The rows the loop keeps *)

Lemma valid_rows normalized :
  validRows (sortRows normalized)
  = map attach (filter (fun r => keyed r = true) (map trimStrings normalized)).
Proof. unfold sortRows. by rewrite loop_validRows. Qed.

Lemma valid_keyed normalized :
  Forall (fun r => keyed r = true) (validRows (sortRows normalized)).
Proof.
  rewrite valid_rows, map_fmap. apply Forall_fmap, Forall_forall.
  intros r Hr. apply list_elem_of_filter in Hr as [Hr _]. cbn.
  by rewrite keyed_attach.
Qed.

Lemma valid_keys_clean normalized k :
  k ∈ map (fun r => str r "register_no") (validRows (sortRows normalized)) ->
  trim k = k /\ nonempty k = true.
Proof.
  rewrite valid_rows, !map_fmap. intros Hk.
  apply list_elem_of_fmap in Hk as (r & -> & Hr).
  apply list_elem_of_fmap in Hr as (r0 & -> & Hr0).
  apply list_elem_of_filter in Hr0 as [Hkeyed Hr0].
  apply list_elem_of_fmap in Hr0 as (row & -> & _).
  unfold keyed in Hkeyed. unfold str in *.
  rewrite text_attach by apply register_no_not_academic.
  split; [|done]. unfold trimStrings. cbn [text]. rewrite lookup_fmap.
  destruct (text row !! "register_no") as [v|]; cbn; [apply trim_idem | done].
Qed.

Lemma clean_keys_same src k :
  (forall k, k ∈ src -> trim k = k /\ nonempty k = true) ->
  k ∈ cleanKeys src <-> k ∈ src.
Proof.
  intros Hsrc. rewrite cleanKeys_elem_of. split.
  - intros (_ & r & -> & Hr). by rewrite (proj1 (Hsrc r Hr)).
  - intros Hk. destruct (Hsrc k Hk) as [Htrim Hne].
    split; [done|]. exists k. by rewrite Htrim.
Qed.

Lemma payload_keys students :
  map (fun p => str p "register_no") (map toPayload students)
  = map (fun r => str r "register_no") students.
Proof.
  induction students as [|r more IH]; [done|].
  cbn [map]. by rewrite toPayload_key, IH.
Qed.

Lemma payloads_keyed students :
  Forall (fun r => keyed r = true) students ->
  Forall (fun p => keyed p = true) (map toPayload students).
Proof.
  intros H. rewrite map_fmap. apply Forall_fmap.
  eapply Forall_impl; [exact H|]. intros r Hr.
  unfold keyed in *. cbn. by rewrite toPayload_key.
Qed.

(** The run against the in-memory table, step by step. *)
Lemma syncRows_Memory headers rows (t : gmap string student) :
  exists td t',
    deleteMissingStudents Memory.client (sheet_keys headers rows) t = (Done tt, td)
    /\ foldl Memory.upsert_one (Some td) (payloads headers rows) = Some t'
    /\ syncRows Memory.client headers rows t
       = (Done (mkSummary (length rows)
                  (length (validRows (sortRows (normalize headers rows))))
                  (length (failedRows (sortRows (normalize headers rows))))),
          t').
Proof.
  destruct (RunFacts.deleteMissingStudents_Memory_done (sheet_keys headers rows) t)
    as (td & Hdel).
  destruct (upsertStudents_Memory _ td (valid_keyed (normalize headers rows)))
    as (t' & Hup & Hfold & _).
  exists td, t'. split; [done|]. split; [done|].
  unfold syncRows, bind. fold (sheet_keys headers rows).
  rewrite Hdel, Hup. unfold ret, normalize. by rewrite length_map.
Qed.

Lemma keys_after headers rows td t' k :
  foldl Memory.upsert_one (Some td) (payloads headers rows) = Some t' ->
  is_Some (t' !! k) <-> is_Some (td !! k) \/ k ∈ sheet_keys headers rows.
Proof.
  intros Hfold.
  destruct (upsert_all_lookup (payloads headers rows) td
              (payloads_keyed _ (valid_keyed _))) as (t1 & Hfold1 & Hlook).
  assert (t1 = t') as -> by congruence.
  rewrite Hlook, written_is_Some. unfold payloads. by rewrite payload_keys.
Qed.

(** After a run the deletion finds nothing more to delete. *)
Lemma delete_after_sync src (t td t1 : gmap string student) :
  (forall k, k ∈ src -> trim k = k /\ nonempty k = true) ->
  deleteMissingStudents Memory.client src t = (Done tt, td) ->
  (forall k, is_Some (t1 !! k) <-> is_Some (td !! k) \/ k ∈ src) ->
  deleteMissingStudents Memory.client src t1 = (Done tt, t1).
Proof.
  intros Hsrc Hdel Hkeys. unfold deleteMissingStudents in *.
  destruct (uniqueNos src) as [|u us] eqn:Hu.
  - apply uniqueNos_nil in Hu.
    assert (forall k, k ∉ src) as Hnone.
    { intros k Hk. apply (clean_keys_same src k Hsrc) in Hk.
      rewrite Hu in Hk. by apply elem_of_nil in Hk. }
    unfold request in *. cbn [delete_all Memory.client] in *.
    assert (td = ∅) as -> by congruence.
    f_equal. symmetry. apply map_empty. intros k.
    apply eq_None_not_Some. rewrite Hkeys, lookup_empty.
    intros [[? ?]|?]; [done | by eapply Hnone].
  - cbn [select_register_no Memory.client] in *.
    assert (forall k r, td !! k = Some r ->
              is_Some (t !! k) /\ k ∉ missingNos src (map fst (map_to_list t)))
      as Hkept.
    { intros k r Hr.
      destruct (missingNos src (map fst (map_to_list t))) as [|m ms] eqn:Hm.
      - assert (td = t) as -> by congruence.
        split; [by eexists | apply not_elem_of_nil].
      - unfold request in Hdel. cbn [delete_in Memory.client] in Hdel.
        assert (td = filter (λ kv : string * student, kv.1 ∉ m :: ms) t) as ->
          by congruence.
        apply map_lookup_filter_Some in Hr as [Hr Hnot]. split; [by eexists | done]. }
    assert (forall k r, t1 !! k = Some r ->
              k ∉ missingNos src (map fst (map_to_list t1))) as Hnothing.
    { intros k r Hr Hmiss. apply missingNos_elem_of in Hmiss as [Hstored Hnot].
      rewrite (clean_keys_same src k Hsrc) in Hnot.
      assert (is_Some (td !! k)) as [rk Hrk].
      { destruct (proj1 (Hkeys k)) as [?|?]; [by eexists|done|done]. }
      destruct (Hkept k rk Hrk) as [_ Hk]. apply Hk.
      apply missingNos_elem_of. split; [|by rewrite (clean_keys_same src k Hsrc)].
      apply cleanKeys_elem_of in Hstored as (Hne & r' & -> & Hr').
      apply stored_keys in Hr'. apply Hkeys in Hr' as [[rd Hrd]|Hin].
      - apply cleanKeys_elem_of. split; [done|]. exists r'. split; [done|].
        apply stored_keys. by destruct (Hkept r' rd Hrd).
      - exfalso. apply Hnot. by rewrite (proj1 (Hsrc r' Hin)). }
    destruct (missingNos src (map fst (map_to_list t1))) as [|m ms] eqn:Hm; [done|].
    unfold request. cbn [delete_in Memory.client]. f_equal.
    apply map_filter_id. intros k r Hr. cbn. by eapply Hnothing.
Qed.

(** X17.  When no data row has a register number (a sheet of headers only,
    or one whose register column is missing or blank throughout), the run
    against a table that accepts every request still completes: it deletes
    every stored row, upserts nothing and reports every row as failed. *)
Theorem sheet_without_keys_empties_the_table
    (headers : list string) (rows : list (list string))
    (t : gmap string student) :
  Forall (fun row =>
            getStrOrEmpty (Header.buildHeaderIndex headers) row "register_no"
            = EmptyString) rows ->
  syncRows Memory.client headers rows t
  = (Done (mkSummary (length rows) 0 (length rows)), ∅).
Proof.
  intros Hrows.
  assert (filter (fun r => keyed r = true) (map trimStrings (normalize headers rows))
          = []) as Hnone.
  { unfold normalize. induction Hrows as [|row more Hrow _ IH]; [done|].
    cbn [map]. rewrite filter_cons, decide_False; [exact IH|].
    unfold keyed, str. rewrite trimStrings_normalized.
    rewrite text_normalized by in_list. cbn [from_option id].
    by rewrite Hrow. }
  pose proof (count_rows (normalize headers rows) 0) as Hcount.
  rewrite Hnone in Hcount. cbn [length Nat.add] in Hcount.
  destruct (syncRows_Memory headers rows t) as (td & t' & Hdel & Hfold & Hrun).
  rewrite Hrun. unfold payloads, sheet_keys in *.
  rewrite valid_rows, Hnone in *. cbn [map foldl length] in *.
  unfold sortRows. rewrite loop_failedRows. cbn [failedRows app].
  rewrite Hcount. unfold normalize. rewrite length_map.
  unfold deleteMissingStudents in Hdel. cbn in Hdel. congruence.
Qed.

(** The theorem on a sheet without keys at a sheet that has no register
    column and a table that holds one row. *)
Lemma sheet_without_keys_witness :
  let headers := ["Name"; "Present Today"] in
  let rows := [["Alice"; "18"]] in
  let t : gmap string student := {["S1" := mkStudent ∅ ∅]} in
  Forall (fun row =>
            getStrOrEmpty (Header.buildHeaderIndex headers) row "register_no"
            = EmptyString) rows
  /\ syncRows Memory.client headers rows t = (Done (mkSummary 1 0 1), ∅).
Proof.
  intros headers rows t.
  assert (Forall (fun row =>
            getStrOrEmpty (Header.buildHeaderIndex headers) row "register_no"
            = EmptyString) rows) as H
    by (repeat constructor).
  split; [exact H|].
  exact (sheet_without_keys_empties_the_table headers rows t H).
Defined.

(** X18.  On a table whose keys are trimmed and not blank, the run leaves a
    row under exactly the register numbers of the rows the loop kept: the
    stored rows the sheet no longer lists are gone, every listed one is
    there, and the keys of the table are again trimmed and not blank. *)
Theorem table_mirrors_the_sheet_keys
    (headers : list string) (rows : list (list string))
    (t : gmap string student) :
  clean_table t = true ->
  let t' := snd (syncRows Memory.client headers rows t) in
  (forall k, is_Some (t' !! k) <-> k ∈ sheet_keys headers rows)
  /\ clean_table t' = true.
Proof.
  intros Ht t'.
  destruct (syncRows_Memory headers rows t) as (td & t1 & Hdel & Hfold & Hrun).
  unfold t'. rewrite Hrun. cbn [snd]. clear t'.
  destruct (deleteMissingStudents_Memory (sheet_keys headers rows) t Ht)
    as (td' & Hdel' & Hleft).
  assert (td' = td) as -> by congruence.
  assert (forall k, is_Some (t1 !! k) <-> k ∈ sheet_keys headers rows) as Hkeys.
  { intros k. rewrite (keys_after headers rows td t1 k Hfold), Hleft.
    case_bool_decide as Hk.
    - apply (clean_keys_same _ k (valid_keys_clean _)) in Hk. tauto.
    - split; [|tauto]. intros [[? ?]|?]; [done|done]. }
  split; [exact Hkeys|].
  unfold clean_table. apply forallb_forall. intros k Hk.
  apply list_elem_of_In, stored_keys, Hkeys, valid_keys_clean in Hk as [Htrim Hne].
  rewrite Hne, andb_true_r. by apply String.eqb_eq.
Qed.

(** The theorem on the mirrored keys at a table that holds S1 and S2 and a
    sheet that lists S2 and S3. *)
Lemma table_mirrors_witness :
  let headers := ["Register No"; "Name"] in
  let rows := [["S2"; "Bob"]; ["S3"; "Cy"]] in
  let t : gmap string student :=
    <["S1" := mkStudent ∅ ∅]> {["S2" := mkStudent ∅ ∅]} in
  let t' := snd (syncRows Memory.client headers rows t) in
  clean_table t = true
  /\ (forall k, is_Some (t' !! k) <-> k ∈ sheet_keys headers rows)
  /\ clean_table t' = true.
Proof.
  intros headers rows t.
  assert (clean_table t = true) as H by (vm_compute; reflexivity).
  split; [exact H|].
  exact (table_mirrors_the_sheet_keys headers rows t H).
Defined.

(** X19.  The run is idempotent against the in-memory table: whatever the
    table held, a second run on the same sheet deletes nothing, rewrites
    what the first run wrote and leaves the table and the summary of the
    first run. *)
Theorem second_run_changes_nothing
    (headers : list string) (rows : list (list string))
    (t : gmap string student) :
  syncRows Memory.client headers rows
    (snd (syncRows Memory.client headers rows t))
  = syncRows Memory.client headers rows t.
Proof.
  destruct (syncRows_Memory headers rows t) as (td & t1 & Hdel & Hfold & Hrun).
  rewrite Hrun. cbn [snd].
  destruct (syncRows_Memory headers rows t1) as (td2 & t2 & Hdel2 & Hfold2 & Hrun2).
  rewrite Hrun2. do 2 f_equal.
  rewrite (delete_after_sync (sheet_keys headers rows) t td t1) in Hdel2.
  - assert (td2 = t1) as Hsame by congruence. subst td2.
    rewrite (upsert_all_twice (payloads headers rows) td t1
               (payloads_keyed _ (valid_keyed _)) Hfold) in Hfold2.
    congruence.
  - apply valid_keys_clean.
  - exact Hdel.
  - intros k. by apply keys_after.
Qed.

(** *** The summary, whatever the destination *)

Lemma upsertFrom_count {db : Type} (c : client db) students fuel :
  forall i upserted d n d',
    length students <= i + fuel ->
    upsertFrom c fuel i upserted students d = (Done n, d') ->
    n = upserted + (length students - i).
Proof.
  induction fuel as [|fuel IH]; intros i upserted d n d' Hlen Hrun.
  - cbn in Hrun. unfold ret in Hrun. injection Hrun as <- _. lia.
  - cbn [upsertFrom] in Hrun.
    destruct (Nat.ltb_spec i (length students)) as [Hi|Hi].
    + unfold bind in Hrun.
      destruct (request _ _ d) as [[[]|message] d1]; [|done].
      apply IH in Hrun; [|unfold batchSize; lia].
      rewrite length_map, length_take, length_drop in Hrun.
      unfold batchSize in Hrun. lia.
    + unfold ret in Hrun. injection Hrun as <- _. lia.
Qed.

(** X20.  Whatever the destination answers, a run that completes reports a
    summary that adds up: total_rows is the number of data rows,
    processed_rows the number of rows with a register number, failed_rows
    the number of rows without, and the two sum to the total. *)
Theorem completed_run_summary_adds_up
    {db : Type} (c : client db)
    (headers : list string) (rows : list (list string))
    (d d' : db) (s : summary) :
  syncRows c headers rows d = (Done s, d') ->
  total_rows s = length rows
  /\ processed_rows s
     = length (filter (fun r => keyed r = true)
                 (map trimStrings (normalize headers rows)))
  /\ processed_rows s + failed_rows s = total_rows s.
Proof.
  intros Hrun. unfold syncRows, bind in Hrun.
  destruct (deleteMissingStudents c _ d) as [[[]|message] d1]; [|done].
  destruct (upsertStudents c _ d1) as [[n|message] d2] eqn:Hup; [|done].
  unfold ret in Hrun. injection Hrun as <- _. cbn [total_rows processed_rows failed_rows].
  unfold upsertStudents in Hup. apply upsertFrom_count in Hup; [|lia].
  rewrite Nat.sub_0_r, valid_rows, length_map in Hup. cbn [Nat.add] in Hup. subst n.
  pose proof (count_rows (normalize headers rows) 0) as Hcount.
  unfold sortRows. rewrite loop_failedRows. cbn [failedRows app].
  unfold normalize in *. rewrite length_map in *. by repeat split.
Qed.

(** The theorem on the summary at a sheet of two rows, one without register
    number, and the in-memory table. *)
Lemma completed_run_witness :
  let headers := ["Register No"; "Name"] in
  let rows := [["S1"; "Alice"]; [""; "Bob"]] in
  let s := mkSummary 2 1 1 in
  let d' : gmap string student := snd (syncRows Memory.client headers rows ∅) in
  syncRows Memory.client headers rows ∅ = (Done s, d')
  /\ total_rows s = length rows
  /\ processed_rows s
     = length (filter (fun r => keyed r = true)
                 (map trimStrings (normalize headers rows)))
  /\ processed_rows s + failed_rows s = total_rows s.
Proof.
  intros headers rows s d'.
  assert (syncRows Memory.client headers rows ∅ = (Done s, d')) as H
    by (vm_compute; reflexivity).
  split; [exact H|].
  exact (completed_run_summary_adds_up Memory.client headers rows ∅ d' s H).
Defined.

End MirrorMore.

(** ** The start-up check of the service role key *)

Module ConfigMore.
Import Js Store Config StringFacts.

Lemma prefix_spec needle : forall s,
  String.prefix needle s = true <-> exists post, s = needle +:+ post.
Proof.
  induction needle as [|a needle IH]; intros s.
  - split; [intros _; by exists s | intros _; by destruct s].
  - destruct s as [|b s]; cbn [String.prefix].
    + split; [done | intros [post H]; by rewrite app_cons in H].
    + destruct (ascii_dec a b) as [->|Hab].
      * rewrite IH. split; intros [post H]; exists post.
        -- by rewrite app_cons, H.
        -- rewrite app_cons in H. congruence.
      * split; [done|]. intros [post H]. rewrite app_cons in H. congruence.
Qed.

(** [includes] finds the needle exactly when the string holds it
    somewhere. *)
Lemma includes_spec needle : forall s,
  includes needle s = true <-> exists pre post, s = pre +:+ needle +:+ post.
Proof.
  induction s as [|c s IH].
  - cbn [includes]. rewrite orb_false_r, prefix_spec. split.
    + intros [post H]. by exists EmptyString, post.
    + intros (pre & post & H). destruct pre as [|x pre]; [by exists post|].
      by rewrite app_cons in H.
  - cbn [includes]. rewrite orb_true_iff, prefix_spec, IH. split.
    + intros [[post H] | (pre & post & H)].
      * by exists EmptyString, post.
      * exists (String c pre), post. by rewrite app_cons, H.
    + intros (pre & post & H). destruct pre as [|x pre].
      * left. by exists post.
      * right. exists pre, post. rewrite app_cons in H. congruence.
Qed.

Lemma nonempty_false s : nonempty s = false <-> s = EmptyString.
Proof. by destruct s. Qed.

(** X21.  The two start-up statements on SUPABASE_SERVICE_ROLE_KEY check the
    value after trimming: the script goes on only with the trimmed value of
    the variable, of at least 50 code units and without three dots in a row
    anywhere in it.  An unset or blank variable throws the missing-variable
    error; a trimmed value that is shorter or holds three dots throws the
    invalid-key error, whatever the length of the value before trimming. *)
Theorem service_role_key_is_checked_after_trimming (env : gmap string string) :
  match serviceRoleKey env with
  | Done k =>
      exists v,
        env !! "SUPABASE_SERVICE_ROLE_KEY" = Some v /\ k = trim v
        /\ 50 <= String.length k
        /\ forall pre post, k <> pre +:+ "..." +:+ post
  | Thrown message =>
      (message = "Missing required environment variable: SUPABASE_SERVICE_ROLE_KEY"
       /\ forall v, env !! "SUPABASE_SERVICE_ROLE_KEY" = Some v
                    -> trim v = EmptyString)
      \/ (message = "Invalid SUPABASE_SERVICE_ROLE_KEY. Paste the full Service Role key from Supabase project settings."
          /\ exists v,
               env !! "SUPABASE_SERVICE_ROLE_KEY" = Some v
               /\ (String.length (trim v) < 50
                   \/ exists pre post, trim v = pre +:+ "..." +:+ post))
  end.
Proof.
  unfold serviceRoleKey, getEnv.
  destruct (env !! "SUPABASE_SERVICE_ROLE_KEY") as [v|] eqn:Hv; cbn [andb].
  2: { left. split; [reflexivity | done]. }
  destruct (nonempty v) eqn:Hne; cbn [negb orb].
  2: { left. split; [reflexivity|]. intros v' [= <-].
       apply nonempty_false in Hne. by subst v. }
  destruct (nonempty (trim v)) eqn:Hnt; cbn [negb].
  2: { left. split; [reflexivity|]. intros v' [= <-]. by apply nonempty_false. }
  cbn [fmap option_fmap option_map]. unfold ensureValidServiceRoleKey.
  rewrite Hnt. cbn [negb orb].
  destruct (Nat.ltb_spec (String.length (trim v)) 50) as [Hshort|Hlong]; cbn [orb].
  { right. split; [reflexivity|]. exists v. split; [done|]. by left. }
  destruct (includes "..." (trim v)) eqn:Hdots.
  { right. split; [reflexivity|]. exists v. split; [done|]. right.
    by apply includes_spec. }
  exists v. cbn [from_option id]. repeat split; [done|].
  intros pre post H.
  assert (includes "..." (trim v) = true) as Hin
    by (apply includes_spec; by exists pre, post).
  congruence.
Qed.

End ConfigMore.
